(** * The embedded scripture store of blogs_for_path

    A shallow embedding of the mobile Bible reader and of the services it
    rests on:

    - [services/BibleDatabase] (the expo-sqlite store: [VERSION_CONFIG],
      [ensureDatabaseReady], [initDatabase], [setActiveBibleVersion],
      [getBooks], [getVerses]);
    - the Bible screen ([loadBooks], [handleTranslationChange], the
      reading-history effect, [handleHighlightSelected], [persistHighlights],
      the two loading effects);
    - [services/readingHistory] ([getReadPostIds], [saveReadingProgress],
      [getReadingProgress]), with [Number.prototype.toString] and
      [parseFloat] over binary64 values;
    - the web store built on sql.js ([initDB] and its [databases] cache,
      [getBooks], [getVerses]);
    - the rest of the screen and of the services: [getBook],
      [markPostAsRead], the chapter buttons, the book, chapter and history
      panels with the effects of a change of position, the selection and
      [handleCopySelected].

    JavaScript exceptions are results, module variables and React state are
    fields of one explicit program state, and every call into the platform
    (file system, SQLite, AsyncStorage, the clock) takes its outcome from an
    environment record, so that each handler is a function that can be run. *)

From Stdlib Require Import ZArith List String Ascii Lia.
From stdpp Require Import gmap strings list sorting pretty.

#[local] Set Warnings "-register-all".
#[local] Open Scope Z_scope.

(* ===================================================================== *)
(** ** JavaScript values, exceptions and the platform's string codecs     *)
(* ===================================================================== *)

Module Js.

(** What a [throw] or a rejected promise carries. *)
Inductive error :=
  | Error (msg : string)
  | SyntaxError
  | TypeError
  | Rejected (api : string).

Inductive result (A : Type) :=
  | Ok (a : A)
  | Throw (e : error).
Arguments Ok {A} a.
Arguments Throw {A} e.

(** An [async] function over the program state [S]: it returns or throws,
    and the state it leaves behind is kept in both cases (an exception does
    not undo the assignments made before it). *)
Definition M (S A : Type) : Type := S → result A * S.

#[global] Instance M_ret {S} : MRet (M S) := λ A a s, (Ok a, s).

#[global] Instance M_bind {S} : MBind (M S) := λ A B k m s,
  match m s with
  | (Ok a, s') => k a s'
  | (Throw e, s') => (Throw e, s')
  end.

Definition throw {S A} (e : error) : M S A := λ s, (Throw e, s).

(** [try { m } catch (e) { h e }] *)
Definition try_catch {S A} (m : M S A) (h : error → M S A) : M S A := λ s,
  match m s with
  | (Ok a, s') => (Ok a, s')
  | (Throw e, s') => h e s'
  end.

(** [try { m } finally { f }] *)
Definition try_finally {S A} (m : M S A) (f : M S unit) : M S A := λ s,
  match m s with
  | (r, s') =>
      match f s' with
      | (Ok _, s'') => (r, s'')
      | (Throw e, s'') => (Throw e, s'')
      end
  end.

(** A computation that touches no state: it returns or throws. *)
Definition pure {S A} (r : result A) : M S A := λ s, (r, s).

Definition gets {S A} (f : S → A) : M S A := λ s, (Ok (f s), s).
Definition modify {S} (f : S → S) : M S unit := λ s, (Ok tt, f s).

(** The final state and the outcome of a run. *)
Definition exec {S A} (m : M S A) (s : S) : S := (m s).2.
Definition eval {S A} (m : M S A) (s : S) : result A := (m s).1.

Definition returns {A} (r : result A) : bool :=
  match r with Ok _ => true | Throw _ => false end.

(** JSON values.  Numbers are the integers this program stores (serial
    numbers, chapters, [Date.now()] stamps, post ids); an object is a finite
    map from property names to values. *)
Inductive json :=
  | JNull
  | JBool (b : bool)
  | JNum (z : Z)
  | JStr (s : string)
  | JArr (l : list json)
  | JObj (fields : gmap string json).

(** [!!v] *)
Definition truthy (v : json) : bool :=
  match v with
  | JNull => false
  | JBool b => b
  | JNum z => negb (z =? 0)
  | JStr s => negb (String.eqb s EmptyString)
  | JArr _ | JObj _ => true
  end.

(** [v.name].  [None] is [undefined]; reading a property of [null] throws. *)
Definition prop (v : json) (name : string) : result (option json) :=
  match v with
  | JNull => Throw TypeError
  | JObj fields => Ok (fields !! name)
  | _ => Ok None
  end.

(** [x === n] for a property that was read and a number. *)
Definition strict_eq_num (x : option json) (n : Z) : bool :=
  match x with
  | Some (JNum z) => z =? n
  | _ => false
  end.

(** A string held by AsyncStorage.  The readers of this program look at a
    stored string in three ways: whether it is empty, what [JSON.parse]
    makes of it and what [parseFloat] makes of it.  [Doc j] is the text
    [JSON.stringify j]; [Raw s] is the characters [s] of a string that is
    not JSON text.  [JSON.parse (JSON.stringify j)] is [j] for the values
    stored here, which the two constructors build in. *)
Inductive text :=
  | Raw (s : string)
  | Doc (j : json).

Definition text_truthy (t : text) : bool :=
  match t with
  | Raw s => negb (String.eqb s EmptyString)
  | Doc _ => true
  end.

(** [null] or a string, as a condition. *)
Definition item_truthy (t : option text) : bool :=
  match t with
  | Some t => text_truthy t
  | None => false
  end.

Definition JSON_stringify (j : json) : text := Doc j.

Definition JSON_parse (t : text) : result json :=
  match t with
  | Raw _ => Throw SyntaxError
  | Doc j => Ok j
  end.

(** A JavaScript number as [parseFloat] delivers it: not-a-number, an
    infinity, or the decimal [(-1)^neg * digits * 10^exp10] that was read
    (its rounding to a binary64 is [Binary64.Number_value] below). *)
Inductive number :=
  | NaN
  | Infinity (neg : bool)
  | Decimal (neg : bool) (digits : N) (exp10 : Z).

Definition of_Z (z : Z) : number := Decimal (z <? 0) (Z.abs_N z) 0.

Definition is_white (c : ascii) : bool :=
  let n := nat_of_ascii c in
  (Nat.eqb n 32 || Nat.eqb n 9 || Nat.eqb n 10 || Nat.eqb n 11
   || Nat.eqb n 12 || Nat.eqb n 13)%bool.

(** The white space and line terminators of more than one byte, in the
    UTF-8 bytes of a stored string: U+00A0 in two bytes; U+1680, U+2000 to
    U+200A, U+2028, U+2029, U+202F, U+205F, U+3000 and U+FEFF in three. *)
Definition is_white2 (c1 c2 : ascii) : bool :=
  ((N_of_ascii c1 =? 194) && (N_of_ascii c2 =? 160))%N.

Definition is_white3 (c1 c2 c3 : ascii) : bool :=
  let '(a, b, c) := (N_of_ascii c1, N_of_ascii c2, N_of_ascii c3) in
  (((a =? 225) && (b =? 154) && (c =? 128))
   || ((a =? 226) && (b =? 128) &&
       (((128 <=? c) && (c <=? 138)) || (c =? 168) || (c =? 169) || (c =? 175)))
   || ((a =? 226) && (b =? 129) && (c =? 159))
   || ((a =? 227) && (b =? 128) && (c =? 128))
   || ((a =? 239) && (b =? 187) && (c =? 191)))%N.

(** The first bytes of these. *)
Definition leads_white (c : ascii) : bool :=
  let a := N_of_ascii c in
  ((a =? 194) || (a =? 225) || (a =? 226) || (a =? 227) || (a =? 239))%N.

Fixpoint skip_white (s : string) : string :=
  match s with
  | String c r =>
      if is_white c then skip_white r
      else if leads_white c then
        match r with
        | String c2 r2 =>
            if is_white2 c c2 then skip_white r2
            else
              match r2 with
              | String c3 r3 => if is_white3 c c2 c3 then skip_white r3 else s
              | EmptyString => s
              end
        | EmptyString => s
        end
      else s
  | EmptyString => s
  end.

Definition digit_of (c : ascii) : option N :=
  let n := N_of_ascii c in
  if ((48 <=? n) && (n <=? 57))%N then Some (n - 48)%N else None.

(** Reads the longest run of decimal digits: the accumulated value, how
    many digits were read, and what follows them. *)
Fixpoint read_digits (s : string) (acc : N) (count : nat) : N * nat * string :=
  match s with
  | String c r =>
      match digit_of c with
      | Some d => read_digits r (10 * acc + d)%N (S count)
      | None => (acc, count, s)
      end
  | EmptyString => (acc, count, s)
  end.

Definition read_sign (s : string) : bool * string :=
  match s with
  | String "-" r => (true, r)
  | String "+" r => (false, r)
  | _ => (false, s)
  end.

(** The exponent part [e|E [+|-] digits], when there is one. *)
Definition read_exponent (s : string) : Z :=
  match s with
  | String c r =>
      if (Ascii.eqb c "e" || Ascii.eqb c "E")%bool then
        let '(neg, r') := read_sign r in
        let '(v, count, _) := read_digits r' 0%N 0%nat in
        match count with
        | O => 0
        | _ => if neg then - Z.of_N v else Z.of_N v
        end
      else 0
  | EmptyString => 0
  end.

(** [parseFloat]: leading white space is skipped, the longest prefix that is
    a decimal literal is read, and a string with no such prefix is [NaN].
    It never throws. *)
Definition parseFloat (s : string) : number :=
  let '(neg, s1) := read_sign (skip_white s) in
  if String.prefix "Infinity" s1 then Infinity neg
  else
    let '(ip, n1, s2) := read_digits s1 0%N 0%nat in
    let '(m, n2, s3) :=
      match s2 with
      | String "." r => read_digits r ip 0%nat
      | _ => (ip, 0%nat, s2)
      end in
    match (n1 + n2)%nat with
    | O => NaN
    | _ => Decimal neg m (read_exponent s3 - Z.of_nat n2)
    end.

(** [parseFloat] of a stored string.  JSON text starts with a bracket, a
    brace, a quote or a letter unless it is the text of a number. *)
Definition parseFloat_text (t : text) : number :=
  match t with
  | Raw s => parseFloat s
  | Doc (JNum z) => of_Z z
  | Doc _ => NaN
  end.

(** [Number.prototype.toString] at an integer, which below [10^21] is the
    integer's decimal digits. *)
Definition toString (z : Z) : string := pretty z.

(** [`${n}`] *)
Definition template_num (z : Z) : string := pretty z.

End Js.

Export Js.

(* ===================================================================== *)
(** ** services/BibleDatabase: the versioned SQLite store                 *)
(* ===================================================================== *)

Module BibleDatabase.

(** [keyof typeof VERSION_CONFIG] *)
Inductive BibleVersionKey := cuv | cnv | asv.

#[global] Instance BibleVersionKey_eq_dec : EqDecision BibleVersionKey.
Proof. solve_decision. Defined.

Record BibleBook := {
  SN : Z;
  FullName : string;
  ShortName : string;
  NewOrOld : Z;
  ChapterNumber : Z }.

Record BibleVerse := {
  ID : Z;
  VolumeSN : Z;
  ChapterSN : Z;
  VerseSN : Z;
  Lection : string }.

(** The rows of the ASV file, which has its own layout. *)
Record ASV_book := { b_id : Z; b_name : string }.

Record ASV_verse := {
  v_id : Z;
  v_book_id : Z;
  v_chapter : Z;
  v_verse : Z;
  v_text : string }.

(** A database file: the four tables the queries name, each present or
    not.  The CUV and CNV files hold [BibleID] and [Bible], the ASV file
    holds [ASV_books] and [ASV_verses]. *)
Record database := {
  BibleID : option (list BibleBook);
  Bible : option (list BibleVerse);
  ASV_books : option (list ASV_book);
  ASV_verses : option (list ASV_verse) }.

Definition empty_database : database :=
  {| BibleID := None; Bible := None; ASV_books := None; ASV_verses := None |}.

(** The statements of [VERSION_CONFIG], by the table they read:
    - [SELECT_BibleID]: SELECT SN, FullName, ShortName, NewOrOld,
      ChapterNumber FROM BibleID ORDER BY SN ASC
    - [SELECT_ASV_books]: SELECT b.id AS SN, b.name AS FullName, b.name AS
      ShortName, CASE WHEN b.id <= 39 THEN 0 ELSE 1 END AS NewOrOld,
      MAX(v.chapter) AS ChapterNumber FROM ASV_books b JOIN ASV_verses v ON
      v.book_id = b.id GROUP BY b.id ORDER BY b.id ASC
    - [SELECT_Bible]: SELECT ID, VolumeSN, ChapterSN, VerseSN, Lection FROM
      Bible WHERE VolumeSN = ? AND ChapterSN = ? ORDER BY VerseSN ASC
    - [SELECT_ASV_verses]: SELECT id AS ID, book_id AS VolumeSN, chapter AS
      ChapterSN, verse AS VerseSN, TRIM(text) AS Lection FROM ASV_verses
      WHERE book_id = ? AND chapter = ? ORDER BY verse ASC *)
Inductive books_sql := SELECT_BibleID | SELECT_ASV_books.
Inductive verses_sql := SELECT_Bible | SELECT_ASV_verses.

Record VersionConfig := {
  dbName : string;
  asset : string;
  booksQuery : books_sql;
  versesQuery : verses_sql }.

Definition VERSION_CONFIG (version : BibleVersionKey) : VersionConfig :=
  match version with
  | cuv => {| dbName := "bible_cuv.db"; asset := "../assets/bible_cuv.db";
              booksQuery := SELECT_BibleID; versesQuery := SELECT_Bible |}
  | cnv => {| dbName := "bible_cnv.db"; asset := "../assets/bible_cnv.db";
              booksQuery := SELECT_BibleID; versesQuery := SELECT_Bible |}
  | asv => {| dbName := "ASV.db"; asset := "../assets/ASV.db";
              booksQuery := SELECT_ASV_books; versesQuery := SELECT_ASV_verses |}
  end.

(** *** What the statements compute *)

Definition by_SN : relation BibleBook := λ x y, SN x ≤ SN y.
Definition by_VerseSN : relation BibleVerse := λ x y, VerseSN x ≤ VerseSN y.

#[global] Instance by_SN_dec : RelDecision by_SN.
Proof. intros x y. unfold by_SN. apply _. Defined.

#[global] Instance by_VerseSN_dec : RelDecision by_VerseSN.
Proof. intros x y. unfold by_VerseSN. apply _. Defined.

(** SQL [TRIM]: spaces are removed at both ends. *)
Fixpoint ltrim (s : string) : string :=
  match s with
  | String " " r => ltrim r
  | _ => s
  end.

Definition TRIM (s : string) : string :=
  String.rev (ltrim (String.rev (ltrim s))).

(** [WHERE VolumeSN = ? AND ChapterSN = ?] *)
Definition in_chapter (bookId chapter : Z) (v : BibleVerse) : bool :=
  (VolumeSN v =? bookId) && (ChapterSN v =? chapter).

(** The select list of [SELECT_ASV_verses]. *)
Definition asv_verse_row (v : ASV_verse) : BibleVerse :=
  {| ID := v_id v; VolumeSN := v_book_id v; ChapterSN := v_chapter v;
     VerseSN := v_verse v; Lection := TRIM (v_text v) |}.

(** One group of [SELECT_ASV_books]: the book [b] joined with its verses.
    A book with no verse has no row in the join. *)
Definition asv_book_row (vs : list ASV_verse) (b : ASV_book) : option BibleBook :=
  match v_chapter <$> filter (λ v, v_book_id v = b_id b) vs with
  | [] => None
  | c :: cs =>
      Some {| SN := b_id b; FullName := b_name b; ShortName := b_name b;
              NewOrOld := if b_id b <=? 39 then 0 else 1;
              ChapterNumber := foldr Z.max c cs |}
  end.

(** [GROUP BY b.id] keeps one book per id. *)
Fixpoint group_by_id (bs : list ASV_book) (seen : list Z) : list ASV_book :=
  match bs with
  | [] => []
  | b :: r =>
      if bool_decide (b_id b ∈ seen) then group_by_id r seen
      else b :: group_by_id r (b_id b :: seen)
  end.

Definition run_books (q : books_sql) (d : database) : option (list BibleBook) :=
  match q with
  | SELECT_BibleID =>
      rows ← BibleID d; Some (merge_sort by_SN rows)
  | SELECT_ASV_books =>
      bs ← ASV_books d; vs ← ASV_verses d;
      Some (merge_sort by_SN (omap (asv_book_row vs) (group_by_id bs [])))
  end.

(** The rows a verse statement selects from, under the column names of
    its select list. *)
Definition verse_rows (q : verses_sql) (d : database) : option (list BibleVerse) :=
  match q with
  | SELECT_Bible => Bible d
  | SELECT_ASV_verses =>
      match ASV_verses d with
      | Some rows => Some (map asv_verse_row rows)
      | None => None
      end
  end.

Definition run_verses (q : verses_sql) (d : database) (bookId chapter : Z)
  : option (list BibleVerse) :=
  rows ← verse_rows q d;
  Some (merge_sort by_VerseSN (filter (λ v, in_chapter bookId chapter v) rows)).

(** *** The platform: files, SQLite connections, key-value storage *)

Record handle := { hid : nat; hname : string }.

#[global] Instance handle_eq_dec : EqDecision handle.
Proof. solve_decision. Defined.

Inductive file := Directory | DbFile (d : database).

(** The program state below the screen: the platform and the two module
    variables [activeVersion] and [db] of BibleDatabase.
    - [files]: what exists in local storage, by path;
    - [bundle]: the database packaged under each asset reference;
    - [copies]: the [copyAsync] calls that completed, latest first;
    - [connections]: the SQLite connections that are open;
    - [close_rejected]: the connections whose [closeAsync] was rejected;
    - [queried]: the connection of each statement run, latest first. *)
Record world := {
  documentDirectory : string;
  bundle : string → database;
  files : gmap string file;
  copies : list (string * string);
  connections : list handle;
  next_hid : nat;
  close_rejected : list handle;
  queried : list handle;
  AsyncStorage : gmap string text;
  activeVersion : BibleVersionKey;
  db : option handle }.

Definition set_files (f : gmap string file → gmap string file) (w : world) : world :=
  {| documentDirectory := documentDirectory w; bundle := bundle w;
     files := f (files w); copies := copies w; connections := connections w;
     next_hid := next_hid w; close_rejected := close_rejected w;
     queried := queried w; AsyncStorage := AsyncStorage w;
     activeVersion := activeVersion w; db := db w |}.

Definition log_copy (from to : string) (w : world) : world :=
  {| documentDirectory := documentDirectory w; bundle := bundle w;
     files := files w; copies := (from, to) :: copies w;
     connections := connections w; next_hid := next_hid w;
     close_rejected := close_rejected w; queried := queried w;
     AsyncStorage := AsyncStorage w; activeVersion := activeVersion w;
     db := db w |}.

Definition set_connections (f : list handle → list handle) (w : world) : world :=
  {| documentDirectory := documentDirectory w; bundle := bundle w;
     files := files w; copies := copies w; connections := f (connections w);
     next_hid := next_hid w; close_rejected := close_rejected w;
     queried := queried w; AsyncStorage := AsyncStorage w;
     activeVersion := activeVersion w; db := db w |}.

Definition bump_hid (w : world) : world :=
  {| documentDirectory := documentDirectory w; bundle := bundle w;
     files := files w; copies := copies w; connections := connections w;
     next_hid := S (next_hid w); close_rejected := close_rejected w;
     queried := queried w; AsyncStorage := AsyncStorage w;
     activeVersion := activeVersion w; db := db w |}.

Definition log_close_rejected (h : handle) (w : world) : world :=
  {| documentDirectory := documentDirectory w; bundle := bundle w;
     files := files w; copies := copies w; connections := connections w;
     next_hid := next_hid w; close_rejected := h :: close_rejected w;
     queried := queried w; AsyncStorage := AsyncStorage w;
     activeVersion := activeVersion w; db := db w |}.

Definition log_query (h : handle) (w : world) : world :=
  {| documentDirectory := documentDirectory w; bundle := bundle w;
     files := files w; copies := copies w; connections := connections w;
     next_hid := next_hid w; close_rejected := close_rejected w;
     queried := h :: queried w; AsyncStorage := AsyncStorage w;
     activeVersion := activeVersion w; db := db w |}.

Definition set_AsyncStorage (f : gmap string text → gmap string text) (w : world) : world :=
  {| documentDirectory := documentDirectory w; bundle := bundle w;
     files := files w; copies := copies w; connections := connections w;
     next_hid := next_hid w; close_rejected := close_rejected w;
     queried := queried w; AsyncStorage := f (AsyncStorage w);
     activeVersion := activeVersion w; db := db w |}.

Definition set_activeVersion (v : BibleVersionKey) (w : world) : world :=
  {| documentDirectory := documentDirectory w; bundle := bundle w;
     files := files w; copies := copies w; connections := connections w;
     next_hid := next_hid w; close_rejected := close_rejected w;
     queried := queried w; AsyncStorage := AsyncStorage w;
     activeVersion := v; db := db w |}.

Definition set_db (d : option handle) (w : world) : world :=
  {| documentDirectory := documentDirectory w; bundle := bundle w;
     files := files w; copies := copies w; connections := connections w;
     next_hid := next_hid w; close_rejected := close_rejected w;
     queried := queried w; AsyncStorage := AsyncStorage w;
     activeVersion := activeVersion w; db := d |}.

(** The outcome of each platform call made while one handler runs: whether
    the call is fulfilled or rejected, the [localUri] the asset has after
    [downloadAsync], and the clock. *)
Record env := {
  getInfo_ok : bool;
  mkdir_ok : bool;
  download_ok : bool;
  localUri : option string;
  copy_ok : bool;
  open_ok : bool;
  close_ok : bool;
  getItem_ok : bool;
  setItem_ok : bool;
  now : Z }.

(** [FileSystem.getInfoAsync(path)], read at [.exists]. *)
Definition getInfoAsync (ev : env) (path : string) : M world bool :=
  if getInfo_ok ev
  then gets (λ w, bool_decide (is_Some (files w !! path)))
  else throw (Rejected "getInfoAsync").

Definition makeDirectoryAsync (ev : env) (dir : string) : M world unit :=
  if mkdir_ok ev
  then modify (set_files (λ fs, <[dir := Directory]> fs))
  else throw (Rejected "makeDirectoryAsync").

(** [Asset.fromModule(asset).downloadAsync()], read at [.localUri]: the
    packaged database is materialised at the local URI, when there is one. *)
Definition downloadAsync (ev : env) (asset : string) : M world (option string) :=
  if download_ok ev
  then
    match localUri ev with
    | Some uri =>
        modify (λ w, set_files (λ fs, <[uri := DbFile (bundle w asset)]> fs) w);;
        mret (Some uri)
    | None => mret None
    end
  else throw (Rejected "downloadAsync").

Definition copyAsync (ev : env) (from to : string) : M world unit :=
  if copy_ok ev
  then
    fs ← gets files;
    match fs !! from with
    | Some f => modify (λ w, log_copy from to (set_files (λ fs, <[to := f]> fs) w))
    | None => throw (Rejected "copyAsync")
    end
  else throw (Rejected "copyAsync").

(** Where expo-sqlite keeps the database called [name]. *)
Definition sqlite_path (w : world) (name : string) : string :=
  (documentDirectory w +:+ "SQLite") +:+ "/" +:+ name.

(** [SQLite.openDatabaseAsync(name)]: a new connection; SQLite creates an
    empty database when there is no file of that name. *)
Definition openDatabaseAsync (ev : env) (name : string) : M world handle :=
  if open_ok ev
  then
    w ← gets id;
    let h := {| hid := next_hid w; hname := name |} in
    (if bool_decide (is_Some (files w !! sqlite_path w name)) then mret tt
     else modify (set_files (λ fs, <[sqlite_path w name := DbFile empty_database]> fs)));;
    modify (λ w, bump_hid (set_connections (λ hs, h :: hs) w));;
    mret h
  else throw (Rejected "openDatabaseAsync").

(** [h.closeAsync()]: the connection is released, or the call is rejected
    and the connection stays as it was. *)
Definition closeAsync (ev : env) (h : handle) : M world unit :=
  if close_ok ev
  then modify (set_connections (λ hs, filter (λ h', h' ≠ h) hs))
  else modify (log_close_rejected h);; throw (Rejected "closeAsync").

(** The database a connection reads. *)
Definition database_of (w : world) (h : handle) : result database :=
  if bool_decide (h ∈ connections w) then
    match files w !! sqlite_path w (hname h) with
    | Some (DbFile d) => Ok d
    | _ => Throw (Error "unable to open database file")
    end
  else Throw (Error "Access to closed resource").

(** [h.getAllAsync(booksQuery, [])] *)
Definition getAllAsync_books (h : handle) (q : books_sql) : M world (list BibleBook) :=
  w ← gets id;
  match database_of w h with
  | Ok d =>
      modify (log_query h);;
      match run_books q d with
      | Some rows => mret rows
      | None => throw (Error "no such table")
      end
  | Throw e => throw e
  end.

(** [h.getAllAsync(versesQuery, [bookId, chapter])] *)
Definition getAllAsync_verses (h : handle) (q : verses_sql) (bookId chapter : Z)
  : M world (list BibleVerse) :=
  w ← gets id;
  match database_of w h with
  | Ok d =>
      modify (log_query h);;
      match run_verses q d bookId chapter with
      | Some rows => mret rows
      | None => throw (Error "no such table")
      end
  | Throw e => throw e
  end.

(** *** The module *)

Definition ensureDatabaseReady (ev : env) (version : BibleVersionKey) : M world string :=
  let cfg := VERSION_CONFIG version in
  dd ← gets documentDirectory;
  let dbDir := dd +:+ "SQLite" in
  let dbPath := dbDir +:+ "/" +:+ dbName cfg in
  fileInfo ← getInfoAsync ev dbPath;
  (if negb fileInfo then
     dirInfo ← getInfoAsync ev dbDir;
     (if negb dirInfo then makeDirectoryAsync ev dbDir else mret tt);;
     uri ← downloadAsync ev (asset cfg);
     match uri with
     | Some from =>
         if negb (String.eqb from EmptyString) then copyAsync ev from dbPath
         else throw (Error ("Failed to get local URI for database asset: " +:+ dbName cfg))
     | None =>
         throw (Error ("Failed to get local URI for database asset: " +:+ dbName cfg))
     end
   else mret tt);;
  mret dbPath.

Definition initDatabase (ev : env) : M world handle :=
  d ← gets db;
  match d with
  | Some h => mret h
  | None =>
      version ← gets activeVersion;
      let name := dbName (VERSION_CONFIG version) in
      ensureDatabaseReady ev version;;
      h ← openDatabaseAsync ev name;
      modify (set_db (Some h));;
      mret h
  end.

Definition setActiveBibleVersion (ev : env) (version : BibleVersionKey) : M world unit :=
  current ← gets activeVersion;
  if bool_decide (version = current) then mret tt
  else
    d ← gets db;
    match d with
    | Some h =>
        try_catch (closeAsync ev h) (λ _, mret tt);;
        modify (set_db None)
    | None => mret tt
    end;;
    modify (set_activeVersion version);;
    initDatabase ev;;
    mret tt.

Definition getActiveBibleVersion : M world BibleVersionKey := gets activeVersion.

Definition getBooks (ev : env) : M world (list BibleBook) :=
  database ← initDatabase ev;
  config ← gets (λ w, VERSION_CONFIG (activeVersion w));
  getAllAsync_books database (booksQuery config).

Definition getVerses (ev : env) (bookId chapter : Z) : M world (list BibleVerse) :=
  database ← initDatabase ev;
  config ← gets (λ w, VERSION_CONFIG (activeVersion w));
  getAllAsync_verses database (versesQuery config) bookId chapter.

Definition getBook (ev : env) (bookId : Z) : M world (option BibleBook) :=
  books ← getBooks ev;
  mret (find (λ b, SN b =? bookId) books).

End BibleDatabase.

Export BibleDatabase.

(* ===================================================================== *)
(** ** AsyncStorage and services/readingHistory                           *)
(* ===================================================================== *)

Module ReadingHistory.

(** [AsyncStorage.getItem(key)]: the stored string or [null]. *)
Definition getItem (ev : env) (key : string) : M world (option text) :=
  if getItem_ok ev
  then gets (λ w, AsyncStorage w !! key)
  else throw (Rejected "getItem").

Definition setItem (ev : env) (key : string) (value : text) : M world unit :=
  if setItem_ok ev
  then modify (set_AsyncStorage (λ kv, <[key := value]> kv))
  else throw (Rejected "setItem").

Definition READ_POSTS_KEY : string := "read_posts_ids".
Definition PROGRESS_PREFIX : string := "reading_progress_".

Definition getReadPostIds (ev : env) : M world json :=
  try_catch
    (existing ← getItem ev READ_POSTS_KEY;
     match existing with
     | Some t => if text_truthy t then pure (JSON_parse t) else mret (JArr [])
     | None => mret (JArr [])
     end)
    (λ _, mret (JArr [])).

(** The offset [y] is taken at integer values, where [y.toString()] is the
    decimal digits of [y]. *)
Definition saveReadingProgress (ev : env) (postId : Z) (y : Z) : M world unit :=
  try_catch
    (setItem ev (PROGRESS_PREFIX +:+ template_num postId) (Raw (toString y)))
    (λ _, mret tt).

Definition getReadingProgress (ev : env) (postId : Z) : M world number :=
  try_catch
    (val ← getItem ev (PROGRESS_PREFIX +:+ template_num postId);
     match val with
     | Some t => if text_truthy t then mret (parseFloat_text t) else mret (of_Z 0)
     | None => mret (of_Z 0)
     end)
    (λ _, mret (of_Z 0)).

(** [ids.includes(postId)] on what [JSON.parse] returned: an array is
    searched for the number, a string for the digits of the number, and no
    other value has an [includes] to call. *)
Definition includes (ids : json) (postId : Z) : result bool :=
  match ids with
  | JArr l =>
      Ok (existsb (λ x, match x with JNum z => z =? postId | _ => false end) l)
  | JStr s =>
      Ok (match String.index 0 (toString postId) s with
          | Some _ => true
          | None => false
          end)
  | _ => Throw TypeError
  end.

(** [ids.push(postId)], which only an array has. *)
Definition push (ids : json) (postId : Z) : result json :=
  match ids with
  | JArr l => Ok (JArr (l ++ [JNum postId]))
  | _ => Throw TypeError
  end.

Definition markPostAsRead (ev : env) (postId : Z) : M world unit :=
  try_catch
    (existing ← getItem ev READ_POSTS_KEY;
     ids ←
       match existing with
       | Some t => if text_truthy t then pure (JSON_parse t) else mret (JArr [])
       | None => mret (JArr [])
       end;
     found ← pure (includes ids postId);
     if negb (found : bool) then
       ids ← pure (push ids postId);
       setItem ev READ_POSTS_KEY (JSON_stringify ids)
     else mret tt)
    (λ _, mret tt).

End ReadingHistory.

Export ReadingHistory.

(* ===================================================================== *)
(** ** Numbers as binary64 values                                         *)
(* ===================================================================== *)

Module Binary64.

(** A finite Number that is not negative, [mant * 2^expo]. *)
Record binary64 := { mant : Z; expo : Z }.

#[global] Instance binary64_eq_dec : EqDecision binary64.
Proof. solve_decision. Defined.

(** The finite non-negative values of the Number type: 53 bits of mantissa,
    normalised unless the exponent is the least one. *)
Definition canonical (x : binary64) : Prop :=
  0 ≤ mant x < 2 ^ 53 ∧ -1074 ≤ expo x ≤ 971 ∧ (mant x < 2 ^ 52 → expo x = -1074).

Definition zero : binary64 := {| mant := 0; expo := -1074 |}.

(** A Number value: not-a-number, an infinity, or a finite value with its
    sign. *)
Inductive Number :=
  | NaN64
  | Infinity64 (neg : bool)
  | Finite64 (neg : bool) (x : binary64).

(** The Number value for the rational [a/b] with [0 ≤ a] and [0 < b]:
    the nearest finite value, the one with an even mantissa when two are
    as near, and [None], for +∞, from [2^1024 - 2^970] on.  The rational
    is taken in units of [2^-1074], in which every finite value is an
    integer. *)
Definition round_ratio (a b : Z) : option binary64 :=
  let q := (a * 2 ^ 1074) / b in
  let r := (a * 2 ^ 1074) mod b in
  let t := Z.max (Z.log2 q - 52) 0 in
  let m := q / 2 ^ t in
  let low := q mod 2 ^ t in
  let rest := low * b + r in
  let half := 2 ^ t * b in
  let up :=
    if 2 * rest <? half then false
    else if 2 * rest =? half then Z.odd m
    else true in
  let m := if up then m + 1 else m in
  let '(m, t) := if m =? 2 ^ 53 then (2 ^ 52, t + 1) else (m, t) in
  if 971 <? t - 1074 then None else Some {| mant := m; expo := t - 1074 |}.

(** The Number value for [s * 10^p]. *)
Definition round_decimal (s : N) (p : Z) : option binary64 :=
  if 0 <=? p then round_ratio (Z.of_N s * 10 ^ p) 1
  else round_ratio (Z.of_N s) (10 ^ (- p)).

(** The Number value of what [parseFloat] read. *)
Definition Number_value (d : number) : Number :=
  match d with
  | NaN => NaN64
  | Infinity neg => Infinity64 neg
  | Decimal neg digits exp10 =>
      match round_decimal digits exp10 with
      | Some x => Finite64 neg x
      | None => Infinity64 neg
      end
  end.

(** The decimal digits of a number, the first one first. *)
Fixpoint digits_go (fuel : nat) (n : N) (acc : list N) : list N :=
  match fuel with
  | O => acc
  | S fuel' =>
      if (n =? 0)%N then acc
      else digits_go fuel' (n `div` 10)%N ((n `mod` 10)%N :: acc)
  end.

Definition digits (n : N) : list N := digits_go (S (N.to_nat (N.log2 n))) n [].

Definition number_of (ds : list N) : N := foldl (λ acc d, 10 * acc + d)%N 0%N ds.

Fixpoint string_of_digits (ds : list N) : string :=
  match ds with
  | [] => EmptyString
  | d :: rest => String (pretty_N_char d) (string_of_digits rest)
  end.

(** The digits [ds] with the exponent [n] stand for [0.ds * 10^n]; they
    name [x] when the Number value for that is [x]. *)
Definition names (x : binary64) (ds : list N) (n : Z) : bool :=
  bool_decide (round_decimal (number_of ds) (n - Z.of_nat (length ds)) = Some x).

(** The digits of the exact value of [x], [0 < mant x], and the [n] with
    [10^(n-1) ≤ x < 10^n]. *)
Definition exact_decimal (x : binary64) : list N * Z :=
  let s := if 0 <=? expo x then mant x * 2 ^ expo x else mant x * 5 ^ (- expo x) in
  let p := if 0 <=? expo x then 0 else expo x in
  let ds := digits (Z.to_N s) in
  (ds, Z.of_nat (length ds) + p).

(** Step 5 of Number::toString: the least number [k] of digits for which
    some [k] digits name [x].  With [k] digits the two candidates are the
    first [k] digits of the exact value and these plus one; when both name
    [x] the nearer one is taken, the even one when they are as near.  The
    exact digits do name [x], which ends the search. *)
Fixpoint shortest (x : binary64) (exact : list N) (n : Z) (fuel : nat) (k : nat)
  : list N * Z :=
  match fuel with
  | O => (exact, n)
  | S fuel' =>
      let lo := take k exact in
      let above := digits (number_of lo + 1) in
      let hi := if (k <? length above)%nat then (take k above, n + 1) else (above, n) in
      let rest := Z.of_N (number_of (drop k exact)) in
      let unit := 10 ^ Z.of_nat (length exact - k) in
      match names x lo n, names x hi.1 hi.2 with
      | true, true =>
          if 2 * rest <? unit then (lo, n)
          else if 2 * rest =? unit then (if N.even (number_of lo) then (lo, n) else hi)
          else hi
      | true, false => (lo, n)
      | false, true => hi
      | false, false => shortest x exact n fuel' (S k)
      end
  end.

Definition shortest_digits (x : binary64) : list N * Z :=
  let '(exact, n) := exact_decimal x in
  shortest x exact n (length exact - 1) 1.

(** Steps 6 to 10 of Number::toString, for the digits [ds] and the
    exponent [n]. *)
Definition format (ds : list N) (n : Z) : string :=
  let k := Z.of_nat (length ds) in
  if (k <=? n) && (n <=? 21) then
    string_of_digits (ds ++ replicate (Z.to_nat (n - k)) 0%N)
  else if (0 <? n) && (n <=? 21) then
    string_of_digits (take (Z.to_nat n) ds) +:+ "." +:+
    string_of_digits (drop (Z.to_nat n) ds)
  else if (-6 <? n) && (n <=? 0) then
    "0." +:+ string_of_digits (replicate (Z.to_nat (- n)) 0%N ++ ds)
  else
    let e := n - 1 in
    let exponent :=
      (if 0 <=? e then "+" else "-") +:+ string_of_digits (digits (Z.abs_N e)) in
    match ds with
    | [] => EmptyString
    | [d] => string_of_digits [d] +:+ "e" +:+ exponent
    | d :: rest =>
        string_of_digits [d] +:+ "." +:+ string_of_digits rest +:+ "e" +:+ exponent
    end.

(** [Number.prototype.toString] at a finite value that is not negative. *)
Definition toString (x : binary64) : string :=
  if mant x =? 0 then "0"
  else let '(ds, n) := shortest_digits x in format ds n.

(** [saveReadingProgress] at any such offset. *)
Definition saveReadingProgress (ev : env) (postId : Z) (y : binary64) : M world unit :=
  try_catch
    (setItem ev (PROGRESS_PREFIX +:+ template_num postId) (Raw (toString y)))
    (λ _, mret tt).

End Binary64.


(* ===================================================================== *)
(** ** The Bible screen                                                   *)
(* ===================================================================== *)

Module BibleScreen.

Definition HIGHLIGHT_STORAGE_KEY : string := "bible_highlights".
Definition READING_HISTORY_KEY : string := "bible_reading_history".

Inductive tab := old | new.

(** The [useState] cells of the component that the handlers below read or
    write.  [highlightedVerses] and [readingHistory] hold what [JSON.parse]
    returned, so they are JSON values. *)
Record screen := {
  books : list BibleBook;
  currentBook : option BibleBook;
  currentChapter : Z;
  verses : list BibleVerse;
  loading : bool;
  bookTab : tab;
  showTranslationModal : bool;
  translation : BibleVersionKey;
  highlightedVerses : json;
  readingHistory : list json;
  isSelectionMode : bool;
  selectedVersesForAction : list Z;
  alerts : list string }.

(** The state on first render. *)
Definition initial_screen : screen :=
  {| books := []; currentBook := None; currentChapter := 1; verses := [];
     loading := true; bookTab := old; showTranslationModal := false;
     translation := cuv; highlightedVerses := JObj ∅; readingHistory := [];
     isSelectionMode := false; selectedVersesForAction := []; alerts := [] |}.

Record app := { sys : world; ui : screen }.

Definition lift {A} (m : M world A) : M app A := λ a,
  match m (sys a) with
  | (r, w) => (r, {| sys := w; ui := ui a |})
  end.

Definition on_ui (f : screen → screen) : M app unit :=
  modify (λ a, {| sys := sys a; ui := f (ui a) |}).

Definition setBooks (v : list BibleBook) : M app unit :=
  on_ui (λ s,
    {| books := v; currentBook := currentBook s; currentChapter := currentChapter s;
       verses := verses s; loading := loading s; bookTab := bookTab s;
       showTranslationModal := showTranslationModal s; translation := translation s;
       highlightedVerses := highlightedVerses s; readingHistory := readingHistory s;
       isSelectionMode := isSelectionMode s;
       selectedVersesForAction := selectedVersesForAction s; alerts := alerts s |}).

Definition setCurrentBook (v : option BibleBook) : M app unit :=
  on_ui (λ s,
    {| books := books s; currentBook := v; currentChapter := currentChapter s;
       verses := verses s; loading := loading s; bookTab := bookTab s;
       showTranslationModal := showTranslationModal s; translation := translation s;
       highlightedVerses := highlightedVerses s; readingHistory := readingHistory s;
       isSelectionMode := isSelectionMode s;
       selectedVersesForAction := selectedVersesForAction s; alerts := alerts s |}).

Definition setCurrentChapter (v : Z) : M app unit :=
  on_ui (λ s,
    {| books := books s; currentBook := currentBook s; currentChapter := v;
       verses := verses s; loading := loading s; bookTab := bookTab s;
       showTranslationModal := showTranslationModal s; translation := translation s;
       highlightedVerses := highlightedVerses s; readingHistory := readingHistory s;
       isSelectionMode := isSelectionMode s;
       selectedVersesForAction := selectedVersesForAction s; alerts := alerts s |}).

Definition setVerses (v : list BibleVerse) : M app unit :=
  on_ui (λ s,
    {| books := books s; currentBook := currentBook s; currentChapter := currentChapter s;
       verses := v; loading := loading s; bookTab := bookTab s;
       showTranslationModal := showTranslationModal s; translation := translation s;
       highlightedVerses := highlightedVerses s; readingHistory := readingHistory s;
       isSelectionMode := isSelectionMode s;
       selectedVersesForAction := selectedVersesForAction s; alerts := alerts s |}).

Definition setLoading (v : bool) : M app unit :=
  on_ui (λ s,
    {| books := books s; currentBook := currentBook s; currentChapter := currentChapter s;
       verses := verses s; loading := v; bookTab := bookTab s;
       showTranslationModal := showTranslationModal s; translation := translation s;
       highlightedVerses := highlightedVerses s; readingHistory := readingHistory s;
       isSelectionMode := isSelectionMode s;
       selectedVersesForAction := selectedVersesForAction s; alerts := alerts s |}).

Definition setBookTab (v : tab) : M app unit :=
  on_ui (λ s,
    {| books := books s; currentBook := currentBook s; currentChapter := currentChapter s;
       verses := verses s; loading := loading s; bookTab := v;
       showTranslationModal := showTranslationModal s; translation := translation s;
       highlightedVerses := highlightedVerses s; readingHistory := readingHistory s;
       isSelectionMode := isSelectionMode s;
       selectedVersesForAction := selectedVersesForAction s; alerts := alerts s |}).

Definition setShowTranslationModal (v : bool) : M app unit :=
  on_ui (λ s,
    {| books := books s; currentBook := currentBook s; currentChapter := currentChapter s;
       verses := verses s; loading := loading s; bookTab := bookTab s;
       showTranslationModal := v; translation := translation s;
       highlightedVerses := highlightedVerses s; readingHistory := readingHistory s;
       isSelectionMode := isSelectionMode s;
       selectedVersesForAction := selectedVersesForAction s; alerts := alerts s |}).

Definition setTranslation (v : BibleVersionKey) : M app unit :=
  on_ui (λ s,
    {| books := books s; currentBook := currentBook s; currentChapter := currentChapter s;
       verses := verses s; loading := loading s; bookTab := bookTab s;
       showTranslationModal := showTranslationModal s; translation := v;
       highlightedVerses := highlightedVerses s; readingHistory := readingHistory s;
       isSelectionMode := isSelectionMode s;
       selectedVersesForAction := selectedVersesForAction s; alerts := alerts s |}).

Definition setHighlightedVerses (v : json) : M app unit :=
  on_ui (λ s,
    {| books := books s; currentBook := currentBook s; currentChapter := currentChapter s;
       verses := verses s; loading := loading s; bookTab := bookTab s;
       showTranslationModal := showTranslationModal s; translation := translation s;
       highlightedVerses := v; readingHistory := readingHistory s;
       isSelectionMode := isSelectionMode s;
       selectedVersesForAction := selectedVersesForAction s; alerts := alerts s |}).

Definition setReadingHistory (v : list json) : M app unit :=
  on_ui (λ s,
    {| books := books s; currentBook := currentBook s; currentChapter := currentChapter s;
       verses := verses s; loading := loading s; bookTab := bookTab s;
       showTranslationModal := showTranslationModal s; translation := translation s;
       highlightedVerses := highlightedVerses s; readingHistory := v;
       isSelectionMode := isSelectionMode s;
       selectedVersesForAction := selectedVersesForAction s; alerts := alerts s |}).

Definition setIsSelectionMode (v : bool) : M app unit :=
  on_ui (λ s,
    {| books := books s; currentBook := currentBook s; currentChapter := currentChapter s;
       verses := verses s; loading := loading s; bookTab := bookTab s;
       showTranslationModal := showTranslationModal s; translation := translation s;
       highlightedVerses := highlightedVerses s; readingHistory := readingHistory s;
       isSelectionMode := v;
       selectedVersesForAction := selectedVersesForAction s; alerts := alerts s |}).

Definition setSelectedVersesForAction (v : list Z) : M app unit :=
  on_ui (λ s,
    {| books := books s; currentBook := currentBook s; currentChapter := currentChapter s;
       verses := verses s; loading := loading s; bookTab := bookTab s;
       showTranslationModal := showTranslationModal s; translation := translation s;
       highlightedVerses := highlightedVerses s; readingHistory := readingHistory s;
       isSelectionMode := isSelectionMode s;
       selectedVersesForAction := v; alerts := alerts s |}).

(** [Alert.alert(title, _)] *)
Definition Alert (title : string) : M app unit :=
  on_ui (λ s,
    {| books := books s; currentBook := currentBook s; currentChapter := currentChapter s;
       verses := verses s; loading := loading s; bookTab := bookTab s;
       showTranslationModal := showTranslationModal s; translation := translation s;
       highlightedVerses := highlightedVerses s; readingHistory := readingHistory s;
       isSelectionMode := isSelectionMode s;
       selectedVersesForAction := selectedVersesForAction s;
       alerts := title :: alerts s |}).

(** A component state cell. *)
Definition use {A} (f : screen → A) : M app A := gets (λ a, f (ui a)).

(** *** Highlights *)

(** [`${verse.VolumeSN}-${verse.ChapterSN}-${verse.VerseSN}`] *)
Definition getVerseKey (verse : BibleVerse) : string :=
  template_num (VolumeSN verse) +:+ "-" +:+ template_num (ChapterSN verse)
  +:+ "-" +:+ template_num (VerseSN verse).

Definition persistHighlights (ev : env) (data : json) : M app unit :=
  setHighlightedVerses data;;
  try_catch
    (lift (setItem ev HIGHLIGHT_STORAGE_KEY (JSON_stringify data)))
    (λ _, mret tt).

(** The first effect: [loadStoredData]. *)
Definition loadStoredData (ev : env) : M app unit :=
  try_catch
    (highlightRaw ← lift (getItem ev HIGHLIGHT_STORAGE_KEY);
     match highlightRaw with
     | Some t =>
         if text_truthy t then
           parsed ← pure (JSON_parse t);
           setHighlightedVerses parsed
         else mret tt
     | None => mret tt
     end)
    (λ _, mret tt).

(** [{ ...v }]: the own enumerable properties of [v]. *)
Definition spread (v : json) : gmap string json :=
  match v with
  | JObj fields => fields
  | JArr l => list_to_map (imap (λ i x, (pretty i, x)) l)
  | JStr s =>
      list_to_map
        (imap (λ i c, (pretty i, JStr (String c EmptyString))) (String.list_ascii_of_string s))
  | _ => ∅
  end.

(** [!m[key]] *)
Definition unset (m : gmap string json) (key : string) : bool :=
  match m !! key with
  | Some v => negb (truthy v)
  | None => true
  end.

Definition exitSelectionMode : M app unit :=
  setIsSelectionMode false;;
  setSelectedVersesForAction [].

(** The first [forEach] of [handleHighlightSelected]: every selected verse
    that is not highlighted becomes highlighted. *)
Definition highlight_pass (verses : list BibleVerse) (selected : list Z)
    (start : gmap string json) : gmap string json * bool :=
  foldl
    (λ '(nextState, hasChanges) sn,
       match find (λ v, VerseSN v =? sn) verses with
       | Some verse =>
           let key := getVerseKey verse in
           if unset nextState key
           then (<[key := JBool true]> nextState, true)
           else (nextState, hasChanges)
       | None => (nextState, hasChanges)
       end)
    (start, false) selected.

(** The second [forEach]: every selected verse loses its highlight. *)
Definition unhighlight_pass (verses : list BibleVerse) (selected : list Z)
    (start : gmap string json) : gmap string json :=
  foldl
    (λ nextState sn,
       match find (λ v, VerseSN v =? sn) verses with
       | Some verse => delete (getVerseKey verse) nextState
       | None => nextState
       end)
    start selected.

Definition handleHighlightSelected (ev : env) : M app unit :=
  current ← use highlightedVerses;
  vs ← use verses;
  selected ← use selectedVersesForAction;
  let '(nextState, hasChanges) := highlight_pass vs selected (spread current) in
  let nextState :=
    if negb hasChanges then unhighlight_pass vs selected nextState else nextState in
  persistHighlights ev (JObj nextState);;
  exitSelectionMode.

(** [Set.has], [Set.delete] and [Set.add] on the selection, which keeps
    insertion order.  Outside selection mode a press only moves the cursor
    and the controls, which are not among the cells kept here. *)
Definition onVersePress (verse : BibleVerse) : M app unit :=
  mode ← use isSelectionMode;
  if (mode : bool) then
    selected ← use selectedVersesForAction;
    if bool_decide (VerseSN verse ∈ selected) then
      let newSet := filter (λ sn, sn ≠ VerseSN verse) selected in
      match newSet with
      | [] => exitSelectionMode
      | _ => setSelectedVersesForAction newSet
      end
    else setSelectedVersesForAction (selected ++ [VerseSN verse])
  else mret tt.

Definition onVerseLongPress (verse : BibleVerse) : M app unit :=
  mode ← use isSelectionMode;
  if negb (mode : bool) then
    setIsSelectionMode true;;
    setSelectedVersesForAction [VerseSN verse]
  else onVersePress verse.

(** *** Reading history *)

Definition history_item (bookSN chapter : Z) (bookName : string) (timestamp : Z) : json :=
  JObj (<["bookSN" := JNum bookSN]> (<["chapter" := JNum chapter]>
       (<["bookName" := JStr bookName]> (<["timestamp" := JNum timestamp]> ∅)))).

(** [h.bookSN === bookSN && h.chapter === chapter] *)
Definition same_position (bookSN chapter : Z) (h : json) : result bool :=
  match prop h "bookSN" with
  | Throw e => Throw e
  | Ok x =>
      if strict_eq_num x bookSN then
        match prop h "chapter" with
        | Throw e => Throw e
        | Ok y => Ok (strict_eq_num y chapter)
        end
      else Ok false
  end.

(** [history.filter(h => !(same position))], which stops at the first
    element whose test throws. *)
Fixpoint filter_other_positions (bookSN chapter : Z) (history : list json)
  : result (list json) :=
  match history with
  | [] => Ok []
  | h :: rest =>
      match same_position bookSN chapter h with
      | Throw e => Throw e
      | Ok same =>
          match filter_other_positions bookSN chapter rest with
          | Throw e => Throw e
          | Ok kept => Ok (if same then kept else h :: kept)
          end
      end
  end.

(** The effect on [[currentBook, currentChapter]]: [saveHistory]. *)
Definition saveHistory (ev : env) : M app unit :=
  book ← use currentBook;
  chapter ← use currentChapter;
  match book with
  | Some currentBook =>
      if negb (chapter =? 0) then
        try_catch
          (let newItem :=
             history_item (SN currentBook) chapter (FullName currentBook) (now ev) in
           historyJson ← lift (getItem ev READING_HISTORY_KEY);
           history ←
             match historyJson with
             | Some t => if text_truthy t then pure (JSON_parse t) else mret (JArr [])
             | None => mret (JArr [])
             end;
           history ←
             match history with
             | JArr l => mret l
             | _ =>
                 match historyJson with
                 | Some t =>
                     if text_truthy t then
                       legacy ← pure (JSON_parse t); mret [legacy]
                     else mret []
                 | None => mret []
                 end
             end;
           history ← pure (filter_other_positions (SN currentBook) chapter history);
           let history := newItem :: history in
           let history := if (20 <? length history)%nat then take 20 history else history in
           lift (setItem ev READING_HISTORY_KEY (JSON_stringify (JArr history)));;
           setReadingHistory history)
          (λ _, mret tt)
      else mret tt
  | None => mret tt
  end.

(** *** Books and translations *)

(** A number read off a JSON value; what is not a number counts as absent,
    which is what the declared type of a history entry allows. *)
Definition as_number (v : option json) : option Z :=
  match v with
  | Some (JNum z) => Some z
  | _ => None
  end.

(** An optional number as a condition: [undefined] and [0] are false. *)
Definition given (n : option Z) : bool :=
  match n with
  | Some z => negb (z =? 0)
  | None => false
  end.

Definition loadBooks (ev : env) (preferredBookSN preferredChapter : option Z)
  : M app (option BibleBook) :=
  try_catch
    (data ← lift (getBooks ev);
     setBooks data;;
     match data with
     | first :: _ =>
         let nextBook :=
           match preferredBookSN with
           | Some sn =>
               if given preferredBookSN then
                 match find (λ b, SN b =? sn) data with
                 | Some matched => matched
                 | None => first
                 end
               else first
           | None => first
           end in
         setCurrentBook (Some nextBook);;
         let nextChapter :=
           match preferredChapter with
           | Some chapter =>
               if given preferredChapter then Z.min chapter (ChapterNumber nextBook) else 1
           | None => 1
           end in
         setCurrentChapter nextChapter;;
         mret (Some nextBook)
     | [] =>
         setCurrentBook None;;
         setVerses [];;
         mret None
     end)
    (λ e, throw e).

Definition loadVerses (ev : env) (bookId chapter : Z) : M app unit :=
  setLoading true;;
  try_finally
    (try_catch
       (data ← lift (getVerses ev bookId chapter);
        setVerses data)
       (λ _, mret tt))
    (setLoading false).

(** The [try] block of the second effect, [init]: the position of the
    latest history entry, if storage has one. *)
Definition init_preferred (ev : env) : M app (option Z * option Z) :=
  try_catch
    (historyJson ← lift (getItem ev READING_HISTORY_KEY);
     match historyJson with
     | Some t =>
         if text_truthy t then
           history ← pure (JSON_parse t);
           match history with
           | JArr [] => mret (None, None)
           | JArr (first :: rest) =>
               bookSN ← pure (prop first "bookSN");
               chapter ← pure (prop first "chapter");
               setReadingHistory (first :: rest);;
               mret (as_number bookSN, as_number chapter)
           | legacy =>
               bookSN ← pure (prop legacy "bookSN");
               chapter ← pure (prop legacy "chapter");
               mret (as_number bookSN, as_number chapter)
           end
         else mret (None, None)
     | None => mret (None, None)
     end)
    (λ _, mret (None, None)).

(** The second effect: [init]. *)
Definition init (ev : env) : M app unit :=
  preferred ← init_preferred ev;
  loadBooks ev preferred.1 preferred.2;;
  mret tt.

Definition handleTranslationChange (ev : env) (version : BibleVersionKey) : M app unit :=
  current ← use translation;
  if bool_decide (version = current) then setShowTranslationModal false
  else
    book ← use currentBook;
    let preferredBookSN := SN <$> book in
    preferredChapter ← use currentChapter;
    let previousTranslation := current in
    setShowTranslationModal false;;
    setLoading true;;
    setVerses [];;
    try_catch
      (lift (setActiveBibleVersion ev version);;
       setTranslation version;;
       nextBook ← loadBooks ev preferredBookSN (Some preferredChapter);
       match nextBook with
       | Some b => setBookTab (if NewOrOld b =? 0 then old else new)
       | None => setLoading false
       end)
      (λ _,
         setTranslation previousTranslation;;
         Alert "切换失败";;
         setLoading false).

End BibleScreen.

Export BibleScreen.

(* ===================================================================== *)
(** ** The web store on sql.js                                            *)
(* ===================================================================== *)

Module WebBible.

(** [type BibleVersion = 'cuv' | 'asv'] *)
Inductive BibleVersion := web_cuv | web_asv.

Definition version_key (v : BibleVersion) : string :=
  match v with
  | web_cuv => "cuv"
  | web_asv => "asv"
  end.

(** [DB_CONFIG[version].file] *)
Definition DB_file (v : BibleVersion) : string :=
  match v with
  | web_cuv => "/bible_cuv.db"
  | web_asv => "/ASV.db"
  end.

(** A promise that has settled. *)
Inductive settled := Fulfilled | Failed (e : error).

(** The two module records, what the server holds under each path, and
    the [fetch] calls that were made (latest first). *)
Record web := {
  databases : gmap string database;
  initPromises : gmap string settled;
  served : string → database;
  fetched : list string }.

Record web_env := {
  initSqlJs_ok : bool;
  fetch_ok : bool;
  construct_ok : bool }.

(** The body of the promise created by [initDB]. *)
Definition load (ev : web_env) (version : BibleVersion) : M web unit :=
  try_catch
    ((if initSqlJs_ok ev then mret tt else throw (Rejected "initSqlJs"));;
     modify (λ w, {| databases := databases w; initPromises := initPromises w;
                     served := served w; fetched := DB_file version :: fetched w |});;
     (if fetch_ok ev then mret tt else throw (Rejected "fetch"));;
     (if construct_ok ev then mret tt else throw (Error "new SQL.Database"));;
     modify (λ w, {| databases := <[version_key version := served w (DB_file version)]> (databases w);
                     initPromises := initPromises w;
                     served := served w; fetched := fetched w |}))
    (λ e, throw e).

(** [initDB], with each [await] run to completion. *)
Definition initDB (ev : web_env) (version : BibleVersion) : M web unit :=
  w ← gets id;
  match databases w !! version_key version with
  | Some _ => mret tt
  | None =>
      match initPromises w !! version_key version with
      | Some Fulfilled => mret tt
      | Some (Failed e) => throw e
      | None =>
          λ w,
            match load ev version w with
            | (r, w') =>
                (r,
                 {| databases := databases w';
                    initPromises :=
                      <[version_key version :=
                          match r with Ok _ => Fulfilled | Throw e => Failed e end]>
                        (initPromises w');
                    served := served w'; fetched := fetched w' |})
            end
      end
  end.

(** [DB_CONFIG[version].queries.books] and [.verses]: the statements of the
    mobile store, with named parameters. *)
Definition books_query (v : BibleVersion) : books_sql :=
  match v with
  | web_cuv => SELECT_BibleID
  | web_asv => SELECT_ASV_books
  end.

Definition verses_query (v : BibleVersion) : verses_sql :=
  match v with
  | web_cuv => SELECT_Bible
  | web_asv => SELECT_ASV_verses
  end.

(** [db.exec] gives no result set for no row, which [getBooks] turns into
    the empty list; otherwise each row becomes an object under the column
    names. *)
Definition getBooks (ev : web_env) (version : BibleVersion) : M web (list BibleBook) :=
  initDB ev version;;
  w ← gets id;
  match databases w !! version_key version with
  | None => throw (Error "Database not initialized")
  | Some d =>
      match run_books (books_query version) d with
      | Some rows => mret rows
      | None => throw (Error "no such table")
      end
  end.

(** [prepare], [bind] and the [step] loop collect the rows in the order of
    the statement. *)
Definition getVerses (ev : web_env) (bookId chapter : Z) (version : BibleVersion)
  : M web (list BibleVerse) :=
  initDB ev version;;
  w ← gets id;
  match databases w !! version_key version with
  | None => throw (Error "Database not initialized")
  | Some d =>
      match run_verses (verses_query version) d bookId chapter with
      | Some rows => mret rows
      | None => throw (Error "no such table")
      end
  end.

End WebBible.

(* ===================================================================== *)
(** ** Runs of the store, and the views the properties are stated on      *)
(* ===================================================================== *)

Module Runs.

(** What a caller can ask of BibleDatabase. *)
Inductive request :=
  | Init
  | Switch (version : BibleVersionKey)
  | Books
  | Verses (bookId chapter : Z).

Definition serve (ev : env) (r : request) : M world unit :=
  match r with
  | Init => initDatabase ev;; mret tt
  | Switch version => setActiveBibleVersion ev version
  | Books => getBooks ev;; mret tt
  | Verses bookId chapter => getVerses ev bookId chapter;; mret tt
  end.

(** The module as it is loaded: [activeVersion = 'cuv'], [db = null], and
    no connection was opened yet. *)
Definition started (w : world) : Prop :=
  activeVersion w = cuv ∧ db w = None ∧ connections w = [] ∧ close_rejected w = [].

(** The states the module reaches when its requests are served one after
    the other, each under its own environment. *)
Inductive reachable (w0 : world) : world → Prop :=
  | reach_start : reachable w0 w0
  | reach_serve w ev r : reachable w0 w → reachable w0 (exec (serve ev r) w).

(** The connection [initDatabase] opens when there is none. *)
Definition opened_as (w : world) : handle :=
  {| hid := next_hid w; hname := dbName (VERSION_CONFIG (activeVersion w)) |}.

(** The module after the first half of [setActiveBibleVersion]: the
    connection, if any, was closed or its close was rejected, and [db] is
    [null]. *)
Definition released (ev : env) (w : world) : world :=
  match db w with
  | Some h =>
      set_db None
        (if close_ok ev then set_connections (λ hs, filter (λ h', h' ≠ h) hs) w
         else log_close_rejected h w)
  | None => w
  end.

(** The open connections are the one the module holds followed by those
    whose close was rejected; connections are distinct and older than the
    next one; the connection held was opened under the file name of the
    active translation. *)
Definition tidy (w : world) : Prop :=
  connections w = option_list (db w) ++ close_rejected w ∧
  NoDup (connections w) ∧
  Forall (λ h, (hid h < next_hid w)%nat) (connections w) ∧
  (∀ h, db w = Some h → hname h = dbName (VERSION_CONFIG (activeVersion w))).


(** Where the database of a translation is kept. *)
Definition target_path (w : world) (version : BibleVersionKey) : string :=
  sqlite_path w (dbName (VERSION_CONFIG version)).

(** The declared type of an element of [readingHistory]. *)
Record HistoryEntry := {
  bookSN : Z;
  chapter : Z;
  timestamp : Z;
  bookName : string }.

Definition entry_json (e : HistoryEntry) : json :=
  history_item (bookSN e) (chapter e) (bookName e) (timestamp e).

Definition position (e : HistoryEntry) : Z * Z := (bookSN e, chapter e).

(** Following the specification's words for [recordVisit]: remove any
    existing entry with the same (bookSerial, chapter), prepend the new
    entry, truncate to the most recent 20 entries.  [saveHistory] is
    compared with it. *)
Definition recordVisit (e : HistoryEntry) (log : list HistoryEntry) : list HistoryEntry :=
  take 20 (e :: filter (λ x, position x ≠ position e) log).

(** The storage holds the history [log]: no entry yet for the empty one,
    or the text of the array of its entries. *)
Definition holds_history (kv : gmap string text) (log : list HistoryEntry) : Prop :=
  match kv !! READING_HISTORY_KEY with
  | None => log = []
  | Some t => t = Doc (JArr (entry_json <$> log))
  end.

(** The entry [saveHistory] makes of the current position. *)
Definition entry_of (ev : env) (book : BibleBook) (ch : Z) : HistoryEntry :=
  {| bookSN := SN book; chapter := ch; timestamp := now ev; bookName := FullName book |}.

(** The reader moves to [(book, ch)] and the history effect runs. *)
Definition visit (ev : env) (book : BibleBook) (ch : Z) : M app unit :=
  setCurrentBook (Some book);;
  setCurrentChapter ch;;
  saveHistory ev.

Fixpoint visit_all (vs : list (env * BibleBook * Z)) : M app unit :=
  match vs with
  | [] => mret tt
  | (ev, book, ch) :: rest => visit ev book ch;; visit_all rest
  end.

(** The entry a visit leaves, and what lets it be recorded: storage
    answers and the chapter is not zero. *)
Definition visit_entry (v : env * BibleBook * Z) : HistoryEntry :=
  entry_of v.1.1 v.1.2 v.2.

Definition visit_ok (v : env * BibleBook * Z) : Prop :=
  getItem_ok v.1.1 = true ∧ setItem_ok v.1.1 = true ∧ v.2 ≠ 0.

(** [!!highlightedVerses[key]], as [renderVerse] reads it. *)
Definition isHighlighted (m : gmap string json) (key : string) : bool :=
  negb (unset m key).

(** What [handleHighlightSelected] makes of the map when the one verse
    under [key] is selected: the flag is set if it was not, and the key is
    deleted otherwise. *)
Definition toggled (m : gmap string json) (key : string) : gmap string json :=
  if unset m key then <[key := JBool true]> m else delete key m.

(** The keys of the selected verses that are on the screen, in the order
    of the selection. *)
Definition selected_keys (vs : list BibleVerse) (sel : list Z) : list string :=
  omap (λ sn, getVerseKey <$> find (λ v, VerseSN v =? sn) vs) sel.

(** One step of the first pass of [handleHighlightSelected], on a key. *)
Definition set_flag (acc : gmap string json * bool) (key : string)
  : gmap string json * bool :=
  if unset acc.1 key then (<[key := JBool true]> acc.1, true) else acc.

(** One verse is selected by a long press and the highlight button is
    pressed. *)
Definition highlight_verse (ev : env) (verse : BibleVerse) : M app unit :=
  onVerseLongPress verse;;
  handleHighlightSelected ev.

(** AsyncStorage answers both calls. *)
Definition storage_ok (ev : env) : Prop :=
  getItem_ok ev = true ∧ setItem_ok ev = true.

End Runs.

Export Runs.

(* ===================================================================== *)
(** ** The rest of the screen: chapters, panels, the clipboard            *)
(* ===================================================================== *)

Module Reader.

(** The platform answers every call of [ensureDatabaseReady] and
    [openDatabaseAsync], and the asset has a local URI. *)
Definition cooperative (ev : env) : bool :=
  getInfo_ok ev && mkdir_ok ev && download_ok ev && copy_ok ev && open_ok ev &&
  match localUri ev with
  | Some uri => negb (String.eqb uri EmptyString)
  | None => false
  end.

(** The storage holds the list [ids] of the posts that were read: no
    entry yet for the empty list, or the text of the array of the ids. *)
Definition holds_read_posts (kv : gmap string text) (ids : list Z) : Prop :=
  match kv !! READ_POSTS_KEY with
  | None => ids = []
  | Some t => t = Doc (JArr (JNum <$> ids))
  end.

(** The number a string starts with: its sign, its value and what follows
    its digits. *)
Definition leading_number (s : string) : bool * N * string :=
  let '(neg, s1) := read_sign s in
  let '(v, _, rest) := read_digits s1 0%N 0%nat in
  (neg, v, rest).

(** *** Moving between chapters *)

Definition handlePrevChapter : M app unit :=
  chapter ← use currentChapter;
  if 1 <? chapter then
    c ← use currentChapter;
    setCurrentChapter (c - 1)
  else
    book ← use currentBook;
    match book with
    | Some current =>
        if 1 <? SN current then
          bs ← use books;
          match find (λ b, SN b =? SN current - 1) bs with
          | Some prevBook =>
              setCurrentBook (Some prevBook);;
              setCurrentChapter (ChapterNumber prevBook)
          | None => mret tt
          end
        else mret tt
    | None => mret tt
    end.

Definition handleNextChapter : M app unit :=
  book ← use currentBook;
  chapter ← use currentChapter;
  if match book with
     | Some current => chapter <? ChapterNumber current
     | None => false
     end
  then
    c ← use currentChapter;
    setCurrentChapter (c + 1)
  else
    match book with
    | Some current =>
        if SN current <? 66 then
          bs ← use books;
          match find (λ b, SN b =? SN current + 1) bs with
          | Some nextBook =>
              setCurrentBook (Some nextBook);;
              setCurrentChapter 1
          | None => mret tt
          end
        else mret tt
    | None => mret tt
    end.

(** The two flags of the list footer; a button is disabled when its flag
    is not truthy. *)
Definition hasPrev (s : screen) : bool :=
  match currentBook s with
  | Some current => (1 <? SN current) || (1 <? currentChapter s)
  | None => false
  end.

Definition hasNext (s : screen) : bool :=
  match currentBook s with
  | Some current => (SN current <? 66) || (currentChapter s <? ChapterNumber current)
  | None => false
  end.

(** The two lists of the book panel. *)
Definition oldTestamentBooks (s : screen) : list BibleBook :=
  filter (λ b, NewOrOld b = 0) (books s).

Definition newTestamentBooks (s : screen) : list BibleBook :=
  filter (λ b, NewOrOld b = 1) (books s).

(** [Array.from({ length: book.ChapterNumber }, (_, i) => i + 1)] *)
Definition chapter_numbers (book : BibleBook) : list Z :=
  (λ i, Z.of_nat i + 1) <$> seq 0 (Z.to_nat (ChapterNumber book)).

(** *** The panels *)

(** The cells of the three panels that change the position. *)
Record panels := {
  showBookModal : bool;
  showChapterModal : bool;
  showHistoryModal : bool }.

Definition initial_panels : panels :=
  {| showBookModal := false; showChapterModal := false; showHistoryModal := false |}.

(** The component with the cells the handlers below touch. *)
Record view := { page : app; panel : panels }.

Definition on_page {A} (m : M app A) : M view A := λ v,
  match m (page v) with
  | (r, a) => (r, {| page := a; panel := panel v |})
  end.

Definition on_panel (f : panels → panels) : M view unit :=
  modify (λ v, {| page := page v; panel := f (panel v) |}).

Definition setShowBookModal (b : bool) : M view unit :=
  on_panel (λ p,
    {| showBookModal := b; showChapterModal := showChapterModal p;
       showHistoryModal := showHistoryModal p |}).

Definition setShowChapterModal (b : bool) : M view unit :=
  on_panel (λ p,
    {| showBookModal := showBookModal p; showChapterModal := b;
       showHistoryModal := showHistoryModal p |}).

Definition setShowHistoryModal (b : bool) : M view unit :=
  on_panel (λ p,
    {| showBookModal := showBookModal p; showChapterModal := showChapterModal p;
       showHistoryModal := b |}).

(** The press on a book of the book panel. *)
Definition pressBook (book : BibleBook) : M view unit :=
  on_page (setCurrentBook (Some book));;
  on_page (setCurrentChapter 1);;
  setShowBookModal false;;
  on_page (setBookTab (if NewOrOld book =? 0 then old else new)).

(** The press on a number of the chapter panel. *)
Definition pressChapter (num : Z) : M view unit :=
  on_page (setCurrentChapter num);;
  setShowChapterModal false.

(** The [onPress] of an entry of the history panel; the effects of the
    new position follow it, see [rendered]. *)
Definition pressHistoryItem (item : HistoryEntry) : M view unit :=
  book ← on_page (use currentBook);
  (if bool_decide (SN <$> book ≠ Some (bookSN item)) then
     bs ← on_page (use books);
     match find (λ b, SN b =? bookSN item) bs with
     | Some found => on_page (setCurrentBook (Some found))
     | None => mret tt
     end
   else mret tt);;
  on_page (setCurrentChapter (chapter item));;
  setShowHistoryModal false.

(** *** The effects of a change of position *)

#[global] Instance BibleBook_eq_dec : EqDecision BibleBook.
Proof. solve_decision. Defined.

(** The two effects on [[currentBook, currentChapter]], in the order the
    component declares them: the history effect, [saveHistory], and the
    loading effect, which calls [loadVerses] when a book is open.  Each is
    run to its end here before anything else happens. *)
Definition position_effects (ev : env) : M app unit :=
  saveHistory ev;;
  book ← use currentBook;
  match book with
  | Some current =>
      chapter ← use currentChapter;
      loadVerses ev (SN current) chapter
  | None => mret tt
  end.

(** A handler of the component followed by the render it causes: the two
    effects run when [currentBook] or [currentChapter] is not what it was
    before the handler.  A book is compared by its fields; the books the
    handlers set are rows of [books]. *)
Definition rendered (ev : env) (handler : M view unit) : M view unit :=
  before ← gets (λ v, ui (page v));
  handler;;
  after ← gets (λ v, ui (page v));
  if bool_decide (currentBook after = currentBook before ∧
                  currentChapter after = currentChapter before)
  then mret tt
  else on_page (position_effects ev).

(** Where the reader is: the book and the chapter shown. *)
Definition position_shown (s : screen) : option BibleBook * Z :=
  (currentBook s, currentChapter s).

(** What the reader can do to change the chapter: the two footer buttons
    and the two panels. *)
Inductive gesture :=
  | PrevChapter
  | NextChapter
  | PickBook (book : BibleBook)
  | PickChapter (num : Z).

(** The handler a gesture calls. *)
Definition handler_of (g : gesture) : M view unit :=
  match g with
  | PrevChapter => on_page handlePrevChapter
  | NextChapter => on_page handleNextChapter
  | PickBook book => pressBook book
  | PickChapter num => pressChapter num
  end.

(** The gesture as the component goes through it: the handler, then the
    effects of the new position. *)
Definition perform (ev : env) (g : gesture) : M view unit :=
  rendered ev (handler_of g).

(** The book panel shows the list of the open tab, the chapter panel the
    numbers of the current book. *)
Definition offered (v : view) (g : gesture) : Prop :=
  let s := ui (page v) in
  match g with
  | PickBook book =>
      book ∈ match bookTab s with
             | old => oldTestamentBooks s
             | new => newTestamentBooks s
             end
  | PickChapter num =>
      ∃ current, currentBook s = Some current ∧ num ∈ chapter_numbers current
  | PrevChapter | NextChapter => True
  end.

(** The chapter shown is a chapter of the book shown. *)
Definition placed (s : screen) : Prop :=
  match currentBook s with
  | Some current => 1 ≤ currentChapter s ≤ ChapterNumber current
  | None => True
  end.

(** *** The selection *)

(** Selection mode is on exactly while some verse is selected, and a
    verse is selected once. *)
Definition selecting (s : screen) : Prop :=
  NoDup (selectedVersesForAction s) ∧
  (isSelectionMode s = true ↔ selectedVersesForAction s ≠ []).

(** What touches the selection. *)
Inductive touch :=
  | Press (verse : BibleVerse)
  | LongPress (verse : BibleVerse)
  | Highlight (ev : env)
  | Cancel.

Definition handle_touch (t : touch) : M app unit :=
  match t with
  | Press verse => onVersePress verse
  | LongPress verse => onVerseLongPress verse
  | Highlight ev => handleHighlightSelected ev
  | Cancel => exitSelectionMode
  end.

(** The screen with another selection. *)
Definition with_selection (mode : bool) (sel : list Z) (a : app) : app :=
  exec (setIsSelectionMode mode;; setSelectedVersesForAction sel) a.

(** *** Copying the selection *)

Definition translationLabel (version : BibleVersionKey) : string :=
  match version with
  | cuv => "和合本"
  | cnv => "新译本"
  | asv => "ASV"
  end.

Definition line_feed : string := String "010" EmptyString.

(** [a || b] on strings. *)
Definition or_else (a b : string) : string :=
  if String.eqb a EmptyString then b else a.

Section Copy.

(** [String.prototype.trim] *)
Variable trim : string → string.

(** The text handed to the clipboard: the selected verses that are on the
    screen, then the reference built from the sorted selection. *)
Definition formatted (s : screen) (sortedSNs : list Z) : string :=
  let selectedVerseObjects :=
    filter (λ v, VerseSN v ∈ selectedVersesForAction s) (verses s) in
  let textContent := String.concat line_feed ((λ v, trim (Lection v)) <$> selectedVerseObjects) in
  let bookLabel :=
    match currentBook s with
    | Some current => or_else (or_else (ShortName current) (FullName current)) EmptyString
    | None => EmptyString
    end in
  let versionLabel := translationLabel (translation s) in
  let reference :=
    match sortedSNs with
    | [only] =>
        "【" +:+ bookLabel +:+ " " +:+ template_num (currentChapter s) +:+ ":"
        +:+ template_num only +:+ " " +:+ versionLabel +:+ "】"
    | _ =>
        let min := hd 0 sortedSNs in
        let max := List.last sortedSNs 0 in
        "【" +:+ bookLabel +:+ " " +:+ template_num (currentChapter s) +:+ ":"
        +:+ template_num min +:+ "-" +:+ template_num max +:+ " " +:+ versionLabel +:+ "】"
    end in
  textContent +:+ line_feed +:+ reference.

(** [handleCopySelected]; its value is the text the clipboard took, if it
    took one. *)
Definition handleCopySelected (clipboard_ok : bool) : M app (option string) :=
  try_catch
    (selected ← use selectedVersesForAction;
     let sortedSNs := merge_sort Z.le selected in
     match sortedSNs with
     | [] => mret None
     | _ =>
         s ← use id;
         let text := formatted s sortedSNs in
         (if clipboard_ok then mret tt else throw (Rejected "setStringAsync"));;
         Alert "已复制";;
         exitSelectionMode;;
         mret (Some text)
     end)
    (λ _, Alert "复制失败";; mret None).

End Copy.

End Reader.

Export Reader.

(* ===================================================================== *)
(** ** A small installation, for running the handlers                     *)
(* ===================================================================== *)

Module Sample.

Definition calm : env :=
  {| getInfo_ok := true; mkdir_ok := true; download_ok := true;
     localUri := Some "file:///cache/asset.db"%string; copy_ok := true;
     open_ok := true; close_ok := true; getItem_ok := true; setItem_ok := true;
     now := 1700000000000 |}.

(** [downloadAsync] leaves the asset without a local URI. *)
Definition no_local_uri : env :=
  {| getInfo_ok := true; mkdir_ok := true; download_ok := true;
     localUri := None; copy_ok := true;
     open_ok := true; close_ok := true; getItem_ok := true; setItem_ok := true;
     now := 1700000000000 |}.

(** [closeAsync] is rejected. *)
Definition close_fails : env :=
  {| getInfo_ok := true; mkdir_ok := true; download_ok := true;
     localUri := Some "file:///cache/asset.db"%string; copy_ok := true;
     open_ok := true; close_ok := false; getItem_ok := true; setItem_ok := true;
     now := 1700000000000 |}.

Definition genesis : BibleBook :=
  {| SN := 1; FullName := "Genesis"; ShortName := "Gen"; NewOrOld := 0;
     ChapterNumber := 50 |}.

Definition psalms : BibleBook :=
  {| SN := 19; FullName := "Psalms"; ShortName := "Ps"; NewOrOld := 0;
     ChapterNumber := 150 |}.

Definition gen_1_1 : BibleVerse :=
  {| ID := 1; VolumeSN := 1; ChapterSN := 1; VerseSN := 1; Lection := "In the beginning" |}.

Definition gen_1_2 : BibleVerse :=
  {| ID := 2; VolumeSN := 1; ChapterSN := 1; VerseSN := 2; Lection := "And the earth" |}.

Definition ps_5_1 : BibleVerse :=
  {| ID := 3; VolumeSN := 19; ChapterSN := 5; VerseSN := 1; Lection := "Give ear" |}.

Definition cuv_db : database :=
  {| BibleID := Some [psalms; genesis];
     Bible := Some [gen_1_2; ps_5_1; gen_1_1];
     ASV_books := None; ASV_verses := None |}.

(** A file that lists Genesis only. *)
Definition cnv_db : database :=
  {| BibleID := Some [genesis];
     Bible := Some [gen_1_1];
     ASV_books := None; ASV_verses := None |}.

(** A file whose Psalms stop at chapter 3. *)
Definition asv_db : database :=
  {| BibleID := None; Bible := None;
     ASV_books := Some [ {| b_id := 1; b_name := "Genesis" |};
                         {| b_id := 19; b_name := "Psalms" |} ];
     ASV_verses := Some [
       {| v_id := 1; v_book_id := 1; v_chapter := 1; v_verse := 1; v_text := " In the beginning " |};
       {| v_id := 2; v_book_id := 1; v_chapter := 50; v_verse := 1; v_text := "And Joseph" |};
       {| v_id := 3; v_book_id := 19; v_chapter := 3; v_verse := 1; v_text := "Jehovah, how" |} ] |}.

Definition packaged (asset : string) : database :=
  if String.eqb asset "../assets/ASV.db" then asv_db
  else if String.eqb asset "../assets/bible_cnv.db" then cnv_db
  else cuv_db.

(** A fresh installation: nothing provisioned, nothing stored. *)
Definition installed : world :=
  {| documentDirectory := "file:///data/"; bundle := packaged; files := ∅;
     copies := []; connections := []; next_hid := 0; close_rejected := [];
     queried := []; AsyncStorage := ∅; activeVersion := cuv; db := None |}.



Definition launched : app := {| sys := installed; ui := initial_screen |}.

(** The screen after its first effects, then at Psalms 5. *)
Definition reading : app := exec (init calm) launched.

Definition reading_psalms_5 : app :=
  exec (setCurrentBook (Some psalms);; setCurrentChapter 5) reading.

(** The same installation with something else under a progress key. *)
Definition damaged_progress : world :=
  set_AsyncStorage (λ kv, <["reading_progress_7"%string := Raw "abc"]> kv) installed.

(** The web store before its first query. *)
Definition web_start : WebBible.web :=
  {| WebBible.databases := ∅; WebBible.initPromises := ∅;
     WebBible.served := λ path, if String.eqb path "/ASV.db" then asv_db else cuv_db;
     WebBible.fetched := [] |}.

Definition web_calm : WebBible.web_env :=
  {| WebBible.initSqlJs_ok := true; WebBible.fetch_ok := true;
     WebBible.construct_ok := true |}.

(** The server cannot be reached. *)
Definition offline : WebBible.web_env :=
  {| WebBible.initSqlJs_ok := true; WebBible.fetch_ok := false;
     WebBible.construct_ok := true |}.

(** The ASV translation is open. *)
Definition installed_asv : world := exec (setActiveBibleVersion calm asv) installed.

(** Two verses of Genesis 1 are selected. *)
Definition selecting_two : app :=
  exec (onVersePress gen_1_2)
    (exec (onVerseLongPress gen_1_1) (exec (loadVerses calm 1 1) reading)).

End Sample.

(* ===================================================================== *)
(** ** Proofs                                                             *)
(* ===================================================================== *)

Import Sample.

(** Unfolds the monad, so that a handler becomes a case analysis. *)
Ltac run :=
  unfold mbind, M_bind, mret, M_ret, throw, try_catch, try_finally, gets,
    modify, pure, lift, on_ui, use in *.

Lemma filter_all {A} (P : A → Prop) `{∀ x, Decision (P x)} (l : list A) :
  Forall P l → filter P l = l.
Proof.
  induction 1 as [|x l Hx _ IH]; [done|].
  rewrite filter_cons_True by done. by rewrite IH.
Qed.

(** *** The store *)

Lemma setActiveBibleVersion_active ev w :
  setActiveBibleVersion ev (activeVersion w) w = (Ok tt, w).
Proof.
  unfold setActiveBibleVersion. run. cbn.
  rewrite bool_decide_eq_true_2 by done. done.
Qed.

(** C9.  [setActiveBibleVersion] called with the key that is active
    returns at once and leaves the whole state as it was: the active key,
    the connection held, the open connections, and every file; and the
    screen's handler called with the translation shown only closes the
    picker, without reaching the store. *)
Theorem setActiveBibleVersion_same_key ev w :
  setActiveBibleVersion ev (activeVersion w) w = (Ok tt, w) ∧
  (∀ a, (exec (handleTranslationChange ev (translation (ui a))) a =
           exec (setShowTranslationModal false) a) ∧
        sys (exec (handleTranslationChange ev (translation (ui a))) a) = sys a).
Proof.
  split; [apply setActiveBibleVersion_active|].
  intros a. unfold exec, handleTranslationChange. run. cbn.
  by rewrite bool_decide_eq_true_2 by done.
Qed.

Lemma ensureDatabaseReady_existing ev version w :
  getInfo_ok ev = true →
  is_Some (files w !! target_path w version) →
  ensureDatabaseReady ev version w = (Ok (target_path w version), w).
Proof.
  intros Hg Hf. unfold ensureDatabaseReady, getInfoAsync. run. rewrite Hg. cbn.
  unfold target_path, sqlite_path in Hf.
  rewrite bool_decide_eq_true_2 by done. done.
Qed.

(** C6.  [ensureDatabaseReady] copies the packaged database at most once:
    when the first call returns, it returns the target path; a second call
    made right after it returns the same path and changes nothing, so it
    copies nothing; and the first call made exactly one copy when there was
    no file at the target path, and changed nothing when there was one. *)
Theorem ensureDatabaseReady_idempotent version ev1 ev2 w path w1 :
  ensureDatabaseReady ev1 version w = (Ok path, w1) →
  getInfo_ok ev2 = true →
  path = target_path w version ∧
  ensureDatabaseReady ev2 version w1 = (Ok path, w1) ∧
  (files w !! path = None → length (copies w1) = S (length (copies w))) ∧
  (is_Some (files w !! path) → w1 = w).
Proof.
  intros Hrun Hg.
  assert (path = target_path w version ∧ documentDirectory w1 = documentDirectory w
          ∧ is_Some (files w1 !! path)
          ∧ (files w !! path = None → length (copies w1) = S (length (copies w)))
          ∧ (is_Some (files w !! path) → w1 = w))
    as (-> & Hdd & Hsome & Hone & Hnone).
  { revert Hrun.
    unfold ensureDatabaseReady, getInfoAsync, makeDirectoryAsync, downloadAsync, copyAsync.
    run. unfold target_path, sqlite_path.
    destruct (getInfo_ok ev1); cbn; [|done].
    destruct (bool_decide (is_Some (files w !! _))) eqn:Hex; cbn.
    - intros [= <- <-]. apply bool_decide_eq_true_1 in Hex.
      split_and!; [done|done|done| |done].
      intros Hn. rewrite Hn in Hex. by destruct Hex.
    - apply bool_decide_eq_false_1 in Hex.
      repeat (case_match; cbn in *; simplify_eq; try done);
        intros [= <- <-]; cbn; (split_and!; [done|done| |done|done]);
        by rewrite lookup_insert_eq. }
  split; [done|]. split; [|done].
  replace (target_path w version) with (target_path w1 version) in *
    by (unfold target_path, sqlite_path; by rewrite Hdd).
  by apply ensureDatabaseReady_existing.
Qed.

Lemma ensureDatabaseReady_idempotent_witness :
  let w1 := exec (ensureDatabaseReady calm cuv) installed in
  ensureDatabaseReady calm cuv w1 = (Ok "file:///data/SQLite/bible_cuv.db"%string, w1)
  ∧ length (copies w1) = 1%nat.
Proof.
  intros w1.
  destruct (ensureDatabaseReady_idempotent cuv calm calm installed
              "file:///data/SQLite/bible_cuv.db" w1) as (_ & H2 & H3 & _).
  - vm_compute. reflexivity.
  - reflexivity.
  - split; [exact H2|]. rewrite H3; reflexivity.
Defined.

Lemma initDatabase_outcome ev w :
  match initDatabase ev w with
  | (Ok h, w') =>
      activeVersion w' = activeVersion w ∧ close_rejected w' = close_rejected w ∧
      queried w' = queried w ∧ db w' = Some h ∧
      ((db w = Some h ∧ w' = w) ∨
       (db w = None ∧ h = opened_as w ∧ connections w' = h :: connections w ∧
        next_hid w' = S (next_hid w)))
  | (Throw _, w') =>
      activeVersion w' = activeVersion w ∧ close_rejected w' = close_rejected w ∧
      queried w' = queried w ∧ db w = None ∧ db w' = None ∧
      connections w' = connections w ∧ next_hid w' = next_hid w
  end.
Proof.
  unfold initDatabase, ensureDatabaseReady, getInfoAsync, makeDirectoryAsync,
    downloadAsync, copyAsync, openDatabaseAsync, opened_as. run.
  destruct (db w) as [h|] eqn:Hdb; cbn; [rewrite Hdb; naive_solver|].
  rewrite ?Hdb.
  repeat (case_match; cbn in *; simplify_eq; try done); rewrite ?Hdb; naive_solver.
Qed.


Lemma setActiveBibleVersion_unfold ev v w :
  v ≠ activeVersion w →
  setActiveBibleVersion ev v w =
    match initDatabase ev (set_activeVersion v (released ev w)) with
    | (Ok _, w') => (Ok tt, w')
    | (Throw e, w') => (Throw e, w')
    end.
Proof.
  intros Hne. unfold setActiveBibleVersion, closeAsync, released. run. cbn -[initDatabase].
  rewrite bool_decide_eq_false_2 by done.
  destruct (db w) as [h|]; cbn -[initDatabase];
    [destruct (close_ok ev); cbn -[initDatabase]|];
    by destruct (initDatabase ev _) as [[?|?] ?].
Qed.


Lemma tidy_initDatabase ev w : tidy w → tidy (exec (initDatabase ev) w).
Proof.
  intros (Hc & Hnd & Hlt & Hnm). unfold exec.
  pose proof (initDatabase_outcome ev w) as H.
  destruct (initDatabase ev w) as [[h|e] w']; cbn.
  - destruct H as (Hav & Hcr & _ & Hdb & [[Hold ->]|(Hnone & -> & Hconn & Hnext)]).
    + done.
    + unfold tidy. rewrite Hconn, Hdb, Hcr, Hnext, Hav. rewrite Hnone in Hc. cbn in *.
      split_and!.
      * by rewrite Hc.
      * apply NoDup_cons. split; [|done].
        intros Hin. eapply Forall_forall in Hlt; [|exact Hin]. cbn in Hlt. lia.
      * constructor; [cbn; lia|]. eapply Forall_impl; [exact Hlt|]. cbn. lia.
      * intros ? [= <-]. done.
  - destruct H as (Hav & Hcr & _ & Hnone & Hdb & Hconn & Hnext).
    unfold tidy. rewrite Hconn, Hdb, Hcr, Hnext. rewrite Hnone in Hc. split_and!; try done.
Qed.

Lemma tidy_released ev v w : tidy w → tidy (set_activeVersion v (released ev w)).
Proof.
  intros (Hc & Hnd & Hlt & Hnm). unfold released, tidy.
  destruct (db w) as [h|] eqn:Hdb; simpl in *.
  - destruct (close_ok ev); simpl.
    + rewrite Hc in *. rewrite filter_cons_False by naive_solver.
      apply NoDup_cons in Hnd as [Hnin Hnd].
      rewrite !filter_all by (apply Forall_forall; intros x Hx ->; done).
      split_and!; try done. by inversion Hlt.
    + rewrite Hc in *. split_and!; done.
  - rewrite Hdb. simpl. split_and!; done.
Qed.

Lemma tidy_setActiveBibleVersion ev v w : tidy w → tidy (exec (setActiveBibleVersion ev v) w).
Proof.
  intros Ht. destruct (decide (v = activeVersion w)) as [->|Hne].
  - unfold exec. by rewrite setActiveBibleVersion_active.
  - unfold exec. rewrite setActiveBibleVersion_unfold by done.
    pose proof (tidy_initDatabase ev _ (tidy_released ev v w Ht)) as H. unfold exec in H.
    by destruct (initDatabase ev _) as [[?|?] ?].
Qed.

(** *** Queries *)

#[local] Instance by_VerseSN_total : Total by_VerseSN.
Proof. intros x y. unfold by_VerseSN. lia. Qed.
#[local] Instance by_VerseSN_trans : Transitive by_VerseSN.
Proof. intros x y z. unfold by_VerseSN. lia. Qed.

Lemma getVerses_unfold ev b c w :
  getVerses ev b c w =
    match initDatabase ev w with
    | (Ok h, w1) =>
        match database_of w1 h with
        | Ok d =>
            match run_verses (versesQuery (VERSION_CONFIG (activeVersion w1))) d b c with
            | Some rows => (Ok rows, log_query h w1)
            | None => (Throw (Error "no such table"), log_query h w1)
            end
        | Throw e => (Throw e, w1)
        end
    | (Throw e, w1) => (Throw e, w1)
    end.
Proof.
  unfold getVerses, getAllAsync_verses. run. cbn -[initDatabase].
  destruct (initDatabase ev w) as [[h|e] w1]; [|done]. cbn.
  destruct (database_of w1 h); [|done]. cbn.
  by destruct (run_verses _ _ _ _).
Qed.








(** *** The connections the store holds *)

Lemma getBooks_unfold ev w :
  getBooks ev w =
    match initDatabase ev w with
    | (Ok h, w1) =>
        match database_of w1 h with
        | Ok d =>
            match run_books (booksQuery (VERSION_CONFIG (activeVersion w1))) d with
            | Some rows => (Ok rows, log_query h w1)
            | None => (Throw (Error "no such table"), log_query h w1)
            end
        | Throw e => (Throw e, w1)
        end
    | (Throw e, w1) => (Throw e, w1)
    end.
Proof.
  unfold getBooks, getAllAsync_books. run. cbn -[initDatabase].
  destruct (initDatabase ev w) as [[h|e] w1]; [|done]. cbn.
  destruct (database_of w1 h); [|done]. cbn.
  by destruct (run_books _ _).
Qed.

Lemma tidy_log_query h w : tidy w → tidy (log_query h w).
Proof. done. Qed.

Lemma tidy_getBooks ev w : tidy w → tidy (exec (getBooks ev) w).
Proof.
  intros Ht. unfold exec. rewrite getBooks_unfold.
  pose proof (tidy_initDatabase ev w Ht) as H. unfold exec in H.
  destruct (initDatabase ev w) as [[h|e] w1]; [|done].
  destruct (database_of w1 h); [|done].
  by destruct (run_books _ _).
Qed.

Lemma tidy_getVerses ev b c w : tidy w → tidy (exec (getVerses ev b c) w).
Proof.
  intros Ht. unfold exec. rewrite getVerses_unfold.
  pose proof (tidy_initDatabase ev w Ht) as H. unfold exec in H.
  destruct (initDatabase ev w) as [[h|e] w1]; [|done].
  destruct (database_of w1 h); [|done].
  by destruct (run_verses _ _ _ _).
Qed.

Lemma exec_then_unit {S A} (m : M S A) (s : S) : exec (m;; mret tt) s = exec m s.
Proof. unfold exec. run. by destruct (m s) as [[?|?] ?]. Qed.

Lemma tidy_serve ev r w : tidy w → tidy (exec (serve ev r) w).
Proof.
  destruct r; cbn [serve]; rewrite ?exec_then_unit.
  - apply tidy_initDatabase.
  - apply tidy_setActiveBibleVersion.
  - apply tidy_getBooks.
  - apply tidy_getVerses.
Qed.

Lemma tidy_started w : started w → tidy w.
Proof.
  intros (Hav & Hdb & Hc & Hr). unfold tidy. rewrite Hc, Hdb, Hr.
  split_and!; [done|constructor|constructor|done].
Qed.

Lemma tidy_reachable w0 w : started w0 → reachable w0 w → tidy w.
Proof.
  intros Hs. induction 1 as [|w ev r _ IH]; [by apply tidy_started|by apply tidy_serve].
Qed.

(** A statement runs on the connection the module holds. *)
Lemma query_on_held_connection ev w :
  (∀ rows w', getBooks ev w = (Ok rows, w') →
     ∃ h, db w' = Some h ∧ queried w' = h :: queried w) ∧
  (∀ b c rows w', getVerses ev b c w = (Ok rows, w') →
     ∃ h, db w' = Some h ∧ queried w' = h :: queried w).
Proof.
  pose proof (initDatabase_outcome ev w) as Hi.
  split; [intros rows w'; rewrite getBooks_unfold
         |intros b c rows w'; rewrite getVerses_unfold].
  all: destruct (initDatabase ev w) as [[h|e] w1]; [|done].
  all: destruct Hi as (_ & _ & Hq & Hdb & _).
  all: destruct (database_of w1 h); [|done].
  - destruct (run_books _ _); [|done]. intros [= <- <-]. exists h. cbn. by rewrite Hq.
  - destruct (run_verses _ _ _ _); [|done]. intros [= <- <-]. exists h. cbn. by rewrite Hq.
Qed.

(** C2, as the store has it.  In every state the module reaches by serving
    requests one after the other, the open connections are the one the
    module holds, if it holds one, followed by the connections whose
    [closeAsync] was rejected while switching; the connection held was
    opened under the file name of the active translation; so when no close
    was rejected at most one connection is open; and a statement of
    [getBooks] or [getVerses] runs on the connection held. *)
Theorem store_connections w0 w :
  started w0 → reachable w0 w →
  connections w = option_list (db w) ++ close_rejected w ∧
  (∀ h, db w = Some h → hname h = dbName (VERSION_CONFIG (activeVersion w))) ∧
  (close_rejected w = [] → (length (connections w) ≤ 1)%nat) ∧
  (∀ ev rows w', getBooks ev w = (Ok rows, w') →
     ∃ h, db w' = Some h ∧ queried w' = h :: queried w) ∧
  (∀ ev b c rows w', getVerses ev b c w = (Ok rows, w') →
     ∃ h, db w' = Some h ∧ queried w' = h :: queried w).
Proof.
  intros Hs Hr. destruct (tidy_reachable w0 w Hs Hr) as (Hc & _ & _ & Hn).
  split_and!; [done|done| | |].
  - intros Hnil. rewrite Hc, Hnil. destruct (db w); cbn; lia.
  - intros ev. apply (query_on_held_connection ev w).
  - intros ev. apply (query_on_held_connection ev w).
Qed.

Lemma installed_started : started installed.
Proof. by split_and!. Qed.

Lemma store_connections_witness :
  let w := exec (serve calm (Switch asv)) (exec (serve calm Books) installed) in
  connections w = [ {| hid := 1; hname := "ASV.db" |} ] ∧
  db w = Some {| hid := 1; hname := "ASV.db" |}.
Proof.
  intros w.
  destruct (store_connections installed w installed_started) as (Hc & _).
  - apply reach_serve, reach_serve, reach_start.
  - rewrite Hc. vm_compute. split; reflexivity.
Defined.

(** C2, as stated, fails: when [closeAsync] is rejected during a switch,
    the connection to the old translation stays open next to the new one. *)
Lemma two_translations_open_after_rejected_close :
  ¬ (∀ w0 w, started w0 → reachable w0 w →
       ∀ h1 h2, h1 ∈ connections w → h2 ∈ connections w → hname h1 = hname h2).
Proof.
  intros H.
  pose (w := exec (serve close_fails (Switch asv)) (exec (serve calm Books) installed)).
  assert (connections w =
          [ {| hid := 1; hname := "ASV.db" |}; {| hid := 0; hname := "bible_cuv.db" |} ])
    as Hc by (vm_compute; reflexivity).
  specialize (H installed w installed_started
                (reach_serve _ _ _ _ (reach_serve _ _ _ _ (reach_start _)))
                {| hid := 1; hname := "ASV.db" |} {| hid := 0; hname := "bible_cuv.db" |}).
  rewrite Hc in H. cbn in H.
  discriminate H; [apply list_elem_of_here|apply list_elem_of_further, list_elem_of_here].
Qed.

(** *** Switching translations *)

Lemma setActiveBibleVersion_failure ev version w e w' :
  setActiveBibleVersion ev version w = (Throw e, w') →
  activeVersion w' = version ∧ db w' = None.
Proof.
  destruct (decide (version = activeVersion w)) as [->|Hne].
  - by rewrite setActiveBibleVersion_active.
  - rewrite setActiveBibleVersion_unfold by done.
    pose proof (initDatabase_outcome ev (set_activeVersion version (released ev w))) as Hi.
    destruct (initDatabase ev _) as [[h|e'] w1]; [done|].
    intros [= <- <-]. by destruct Hi as (-> & _ & _ & _ & -> & _).
Qed.

Lemma handleTranslationChange_unfold ev version a :
  version ≠ translation (ui a) →
  handleTranslationChange ev version a =
    let preferredBookSN := SN <$> currentBook (ui a) in
    let preferredChapter := currentChapter (ui a) in
    let previousTranslation := translation (ui a) in
    let a1 := exec (setShowTranslationModal false;; setLoading true;; setVerses []) a in
    match setActiveBibleVersion ev version (sys a1) with
    | (Ok _, w2) =>
        let a2 := exec (setTranslation version) {| sys := w2; ui := ui a1 |} in
        match loadBooks ev preferredBookSN (Some preferredChapter) a2 with
        | (Ok (Some b), a3) =>
            (Ok tt, exec (setBookTab (if NewOrOld b =? 0 then old else new)) a3)
        | (Ok None, a3) => (Ok tt, exec (setLoading false) a3)
        | (Throw _, a3) =>
            (Ok tt, exec (setTranslation previousTranslation;; Alert "切换失败";;
                          setLoading false) a3)
        end
    | (Throw _, w2) =>
        (Ok tt, exec (setTranslation previousTranslation;; Alert "切换失败";;
                      setLoading false) {| sys := w2; ui := ui a1 |})
    end.
Proof.
  intros Hne. unfold handleTranslationChange. run.
  cbn -[setActiveBibleVersion loadBooks].
  rewrite bool_decide_eq_false_2 by done.
  cbn -[setActiveBibleVersion loadBooks].
  destruct (setActiveBibleVersion ev version (sys a)) as [[[]|e] w2];
    cbn -[setActiveBibleVersion loadBooks]; [|done].
  match goal with
  | |- context [loadBooks ?v ?x ?y ?s] => destruct (loadBooks v x y s) as [[[b|]|err] a3]
  end; cbn; done.
Qed.

(** C1 fails on the code.  When [setActiveBibleVersion] throws during a
    switch, the screen goes back to the previous translation but the module
    keeps the new key as [activeVersion], with no connection. *)
Theorem failed_switch_keeps_new_key ev version a e w' :
  version ≠ translation (ui a) →
  setActiveBibleVersion ev version (sys a) = (Throw e, w') →
  let a' := exec (handleTranslationChange ev version) a in
  translation (ui a') = translation (ui a) ∧
  eval getActiveBibleVersion (sys a') = Ok version ∧
  db (sys a') = None.
Proof.
  intros Hne Hfail a'.
  assert (a' = exec (setTranslation (translation (ui a));; Alert "切换失败";;
                     setLoading false)
                 {| sys := w';
                    ui := ui (exec (setShowTranslationModal false;; setLoading true;;
                                    setVerses []) a) |}) as ->.
  { subst a'. unfold exec at 1. rewrite handleTranslationChange_unfold by done.
    cbn zeta. change (sys (exec _ a)) with (sys a). by rewrite Hfail. }
  apply setActiveBibleVersion_failure in Hfail as [<- Hdb].
  by rewrite <- Hdb.
Qed.

Lemma failed_switch_keeps_new_key_witness :
  let a' := exec (handleTranslationChange no_local_uri asv) reading in
  eval getActiveBibleVersion (sys reading) = Ok cuv ∧
  translation (ui a') = cuv ∧
  eval getActiveBibleVersion (sys a') = Ok asv ∧
  db (sys a') = None.
Proof.
  intros a'.
  destruct (failed_switch_keeps_new_key no_local_uri asv reading
              (Error "Failed to get local URI for database asset: ASV.db")
              (exec (setActiveBibleVersion no_local_uri asv) (sys reading)))
    as (H1 & H2 & H3).
  - discriminate.
  - vm_compute. reflexivity.
  - split; [reflexivity|]. split; [exact H1|]. split; [exact H2|exact H3].
Defined.

(** After the failed switch the next query reads the new translation's
    file while the screen shows the previous translation, and choosing the
    previous translation again is skipped by the screen, so the module
    stays on the new key. *)
Lemma query_after_failed_switch :
  let a' := exec (handleTranslationChange no_local_uri asv) reading in
  let w := exec (getVerses calm 1 1) (sys a') in
  let a'' := exec (handleTranslationChange calm cuv) a' in
  translation (ui a') = cuv ∧
  hname <$> head (queried w) = Some "ASV.db"%string ∧
  translation (ui a'') = cuv ∧ activeVersion (sys a'') = asv.
Proof. vm_compute. split_and!; reflexivity. Qed.

(** What [loadBooks] selects from a list of books, and the chapter it sets. *)
Lemma loadBooks_outcome ev sn chapter a :
  sn ≠ 0 → chapter ≠ 0 →
  match loadBooks ev (Some sn) (Some chapter) a with
  | (Throw _, a') => ui a' = ui a
  | (Ok r, a') =>
      translation (ui a') = translation (ui a) ∧
      match find (λ b, SN b =? sn) (books (ui a')), books (ui a') with
      | Some matched, _ =>
          r = Some matched ∧ currentBook (ui a') = Some matched ∧
          currentChapter (ui a') = Z.min chapter (ChapterNumber matched)
      | None, first :: _ =>
          r = Some first ∧ currentBook (ui a') = Some first ∧
          currentChapter (ui a') = Z.min chapter (ChapterNumber first)
      | None, [] =>
          r = None ∧ currentBook (ui a') = None ∧
          currentChapter (ui a') = currentChapter (ui a)
      end
  end.
Proof.
  intros Hsn Hch. unfold loadBooks. run. cbn -[getBooks].
  apply Z.eqb_neq in Hsn, Hch.
  destruct (getBooks ev (sys a)) as [[data|e] w]; cbn; [|done].
  rewrite ?Hsn, ?Hch.
  destruct data as [|first rest]; cbn; rewrite ?Hsn, ?Hch; cbn; [done|].
  split; [done|].
  destruct (SN first =? sn) eqn:Hf; cbn; [done|].
  by destruct (find _ rest).
Qed.

(** C3, as the screen has it.  After a switch that went through, made at
    a book of non-zero serial number and at a non-zero chapter: when the
    new translation lists a book of that serial number the reader is at
    that book, at the old chapter or at the book's last chapter if that is
    less; when it lists none the reader is at the first book listed, again
    at the old chapter or at that book's last chapter if that is less; and
    when it lists no book there is no current book. *)
Theorem switch_keeps_position ev version a book :
  version ≠ translation (ui a) →
  currentBook (ui a) = Some book → SN book ≠ 0 → currentChapter (ui a) ≠ 0 →
  let a' := exec (handleTranslationChange ev version) a in
  translation (ui a') = version →
  match find (λ b, SN b =? SN book) (books (ui a')), books (ui a') with
  | Some matched, _ =>
      SN matched = SN book ∧ currentBook (ui a') = Some matched ∧
      currentChapter (ui a') = Z.min (currentChapter (ui a)) (ChapterNumber matched)
  | None, first :: _ =>
      currentBook (ui a') = Some first ∧
      currentChapter (ui a') = Z.min (currentChapter (ui a)) (ChapterNumber first)
  | None, [] =>
      currentBook (ui a') = None ∧ currentChapter (ui a') = currentChapter (ui a)
  end.
Proof.
  intros Hne Hbook Hsn Hch a'. subst a'. unfold exec.
  rewrite handleTranslationChange_unfold by done. cbn zeta.
  destruct (setActiveBibleVersion ev version _) as [[[]|e] w2];
    [|intros Heq; exfalso; apply Hne; rewrite <- Heq; reflexivity].
  rewrite Hbook. cbn [fmap option_fmap option_map].
  match goal with
  | |- context [loadBooks ?v ?x ?y ?s] =>
      pose proof (loadBooks_outcome v (SN book) (currentChapter (ui a)) s Hsn Hch) as Hl;
      destruct (loadBooks v x y s) as [[r|err] a3]
  end.
  - destruct Hl as [_ Hl].
    assert (∀ t, books (ui (exec (setBookTab t) a3)) = books (ui a3)
                 ∧ currentBook (ui (exec (setBookTab t) a3)) = currentBook (ui a3)
                 ∧ currentChapter (ui (exec (setBookTab t) a3)) = currentChapter (ui a3)) as Ht
      by done.
    assert (books (ui (exec (setLoading false) a3)) = books (ui a3)
            ∧ currentBook (ui (exec (setLoading false) a3)) = currentBook (ui a3)
            ∧ currentChapter (ui (exec (setLoading false) a3)) = currentChapter (ui a3))
      as Hf by done.
    intros _. destruct r as [b|]; cbn [snd].
    + destruct (Ht (if NewOrOld b =? 0 then old else new)) as (-> & -> & ->).
      destruct (find _ (books (ui a3))) as [matched|] eqn:Hfind.
      * destruct Hl as (_ & ? & ?). split_and!; [|done|done].
        apply find_some in Hfind as [_ Hm]. by apply Z.eqb_eq.
      * destruct (books (ui a3)); destruct Hl as (_ & ? & ?); done.
    + destruct Hf as (-> & -> & ->).
      destruct (find _ (books (ui a3))) as [matched|] eqn:Hfind.
      * destruct Hl as (_ & ? & ?). split_and!; [|done|done].
        apply find_some in Hfind as [_ Hm]. by apply Z.eqb_eq.
      * destruct (books (ui a3)); destruct Hl as (_ & ? & ?); done.
  - intros Heq. exfalso. apply Hne. rewrite <- Heq. reflexivity.
Qed.

Lemma switch_keeps_position_witness :
  let a' := exec (handleTranslationChange calm asv) reading_psalms_5 in
  SN <$> currentBook (ui a') = Some 19 ∧ currentChapter (ui a') = 3.
Proof.
  intros a'.
  pose proof (switch_keeps_position calm asv reading_psalms_5 psalms) as H.
  assert (find (λ b, SN b =? SN psalms) (books (ui a')) =
          Some {| SN := 19; FullName := "Psalms"; ShortName := "Psalms"; NewOrOld := 0;
                  ChapterNumber := 3 |}) as Hfind by (vm_compute; reflexivity).
  cbv zeta in H. fold a' in H. rewrite Hfind in H.
  destruct H as (_ & -> & ->).
  - discriminate.
  - reflexivity.
  - discriminate.
  - discriminate.
  - vm_compute. reflexivity.
  - split; reflexivity.
Defined.

(** C3, as stated, fails: when the new translation lists no book of the
    reader's serial number the chapter is not reset to 1.  From Psalms 5,
    a switch to a translation that lists Genesis only ends at Genesis 5. *)
Lemma fallback_keeps_old_chapter :
  ¬ (∀ ev version a book,
       version ≠ translation (ui a) → currentBook (ui a) = Some book →
       let a' := exec (handleTranslationChange ev version) a in
       translation (ui a') = version →
       find (λ b, SN b =? SN book) (books (ui a')) = None →
       currentBook (ui a') = head (books (ui a')) ∧ currentChapter (ui a') = 1).
Proof.
  intros H.
  specialize (H calm cnv reading_psalms_5 psalms).
  assert (currentChapter (ui (exec (handleTranslationChange calm cnv) reading_psalms_5)) = 5)
    as Hc by (vm_compute; reflexivity).
  destruct H as [_ H1].
  - discriminate.
  - reflexivity.
  - vm_compute. reflexivity.
  - vm_compute. reflexivity.
  - rewrite Hc in H1. discriminate.
Qed.

(** *** Reading history *)

Lemma same_position_entry sn ch x :
  same_position sn ch (entry_json x) = Ok (bool_decide (position x = (sn, ch))).
Proof.
  unfold same_position, entry_json, history_item, position. cbn [prop].
  assert (∀ a b c d,
    (<["bookSN" := a]> (<["chapter" := b]> (<["bookName" := c]>
       (<["timestamp" := d]> ∅))) : gmap string json) !! "bookSN"%string = Some a)
    as -> by reflexivity.
  assert (∀ a b c d,
    (<["bookSN" := a]> (<["chapter" := b]> (<["bookName" := c]>
       (<["timestamp" := d]> ∅))) : gmap string json) !! "chapter"%string = Some b)
    as -> by reflexivity.
  cbn. destruct (bookSN x =? sn) eqn:H1.
  - apply Z.eqb_eq in H1. destruct (chapter x =? ch) eqn:H2.
    + apply Z.eqb_eq in H2. rewrite bool_decide_eq_true_2; [done|congruence].
    + apply Z.eqb_neq in H2. rewrite bool_decide_eq_false_2; [done|congruence].
  - apply Z.eqb_neq in H1. rewrite bool_decide_eq_false_2; [done|congruence].
Qed.

Lemma filter_other_positions_entries sn ch log :
  filter_other_positions sn ch (entry_json <$> log) =
    Ok (entry_json <$> filter (λ x, position x ≠ (sn, ch)) log).
Proof.
  induction log as [|x log IH]; [done|].
  rewrite fmap_cons. cbn [filter_other_positions].
  rewrite same_position_entry, IH.
  destruct (decide (position x = (sn, ch))) as [Heq|Hne].
  - rewrite bool_decide_eq_true_2 by done. by rewrite filter_cons_False by naive_solver.
  - rewrite bool_decide_eq_false_2 by done. by rewrite filter_cons_True by done.
Qed.

Lemma truncate_20 {A} (l : list A) :
  (if (20 <? length l)%nat then take 20 l else l) = take 20 l.
Proof.
  destruct (20 <? length l)%nat eqn:H; [done|].
  apply Nat.ltb_ge in H. by rewrite take_ge.
Qed.

(** [saveHistory] implements [recordVisit] on the stored history. *)
Lemma saveHistory_recordVisit ev a book log :
  storage_ok ev →
  currentBook (ui a) = Some book → currentChapter (ui a) ≠ 0 →
  holds_history (AsyncStorage (sys a)) log →
  let log' := recordVisit (entry_of ev book (currentChapter (ui a))) log in
  let a' := exec (saveHistory ev) a in
  readingHistory (ui a') = entry_json <$> log' ∧
  holds_history (AsyncStorage (sys a')) log'.
Proof.
  intros [Hget Hset] Hbook Hch Hlog log' a'. subst log' a'.
  unfold exec, saveHistory, getItem, setItem, holds_history in *. run.
  cbn -[Nat.ltb firstn]. rewrite Hbook, Hget. apply Z.eqb_neq in Hch. rewrite Hch.
  cbn -[Nat.ltb firstn].
  set (e := entry_of ev book (currentChapter (ui a))).
  assert (∀ l, (if (20 <? length (entry_json e :: l))%nat
                then take 20 (entry_json e :: l) else entry_json e :: l)
               = take 20 (entry_json e :: l)) as Htr by (intros; apply truncate_20).
  destruct (AsyncStorage (sys a) !! READING_HISTORY_KEY) as [t|] eqn:Hkv.
  - subst t. cbn -[Nat.ltb firstn].
    rewrite filter_other_positions_entries. cbn -[Nat.ltb firstn]. rewrite Hset.
    cbn -[Nat.ltb firstn].
    change (history_item (SN book) (currentChapter (ui a)) (FullName book) (now ev))
      with (entry_json e).
    cbn [length] in Htr. rewrite Htr. unfold recordVisit. rewrite fmap_take, fmap_cons.
    change (position e) with (SN book, currentChapter (ui a)).
    split; [done|]. by rewrite lookup_insert_eq.
  - subst log. cbn. rewrite Hset. cbn.
    split; [done|]. by rewrite lookup_insert_eq.
Qed.

Lemma recordVisit_length e log : (length (recordVisit e log) ≤ 20)%nat.
Proof. unfold recordVisit. rewrite length_take. lia. Qed.

Lemma recordVisit_head e log : head (recordVisit e log) = Some e.
Proof. done. Qed.

Lemma recordVisit_NoDup e log :
  NoDup (position <$> log) → NoDup (position <$> recordVisit e log).
Proof.
  intros Hnd. unfold recordVisit. rewrite fmap_take.
  eapply sublist_NoDup; [|apply sublist_take].
  rewrite fmap_cons. apply NoDup_cons. split.
  - intros Hin. apply list_elem_of_fmap in Hin as (x & Hx & Hin).
    apply list_elem_of_filter in Hin as [Hne _]. by apply Hne.
  - eapply sublist_NoDup; [exact Hnd|]. apply fmap_sublist, sublist_filter.
Qed.

Lemma recordVisit_revisit e log :
  position e ∈ position <$> log → (length (recordVisit e log) ≤ length log)%nat.
Proof.
  intros Hin. apply list_elem_of_fmap in Hin as (x & Hx & Hin).
  unfold recordVisit. rewrite length_take. cbn [length].
  assert (length (filter (λ y, position y ≠ position e) log) < length log)%nat; [|lia].
  apply (length_filter_lt _ _ x); [done|]. naive_solver.
Qed.

Lemma try_catch_unit_returns {S} (m : M S unit) (s : S) :
  eval (try_catch m (λ _, mret tt)) s = Ok tt.
Proof. unfold eval, try_catch. by destruct (m s) as [[[]|e] s']. Qed.

Lemma saveHistory_returns ev a : eval (saveHistory ev) a = Ok tt.
Proof.
  unfold saveHistory, use, gets, eval. unfold mbind at 1 2, M_bind at 1 2.
  cbn -[try_catch].
  destruct (currentBook (ui a)); [|done].
  destruct (negb _); [|done].
  apply try_catch_unit_returns.
Qed.

Lemma visit_step ev book ch a :
  ∃ a1, sys a1 = sys a ∧ currentBook (ui a1) = Some book ∧ currentChapter (ui a1) = ch ∧
        visit ev book ch a = (Ok tt, exec (saveHistory ev) a1).
Proof.
  exists (exec (setCurrentBook (Some book);; setCurrentChapter ch) a).
  split_and!; [reflexivity..|].
  unfold visit, setCurrentBook, setCurrentChapter. run. cbn -[saveHistory].
  match goal with
  | |- context [saveHistory ev ?s] =>
      pose proof (saveHistory_returns ev s) as Hr; unfold eval, exec in *;
      destruct (saveHistory ev s) as [r s']
  end.
  cbn in *. by subst.
Qed.

Lemma visit_all_cons ev book ch vs a :
  ∃ a1, sys a1 = sys a ∧ currentBook (ui a1) = Some book ∧ currentChapter (ui a1) = ch ∧
        exec (visit_all ((ev, book, ch) :: vs)) a =
          exec (visit_all vs) (exec (saveHistory ev) a1).
Proof.
  destruct (visit_step ev book ch a) as (a1 & Hsys & Hb & Hc & Hv).
  exists a1. split_and!; [done..|].
  cbn [visit_all]. unfold exec at 1. run. by rewrite Hv.
Qed.

Lemma visit_all_log vs : ∀ a log,
  Forall visit_ok vs →
  holds_history (AsyncStorage (sys a)) log →
  let log' := foldl (λ l v, recordVisit (visit_entry v) l) log vs in
  let a' := exec (visit_all vs) a in
  holds_history (AsyncStorage (sys a')) log' ∧
  (vs ≠ [] → readingHistory (ui a') = entry_json <$> log').
Proof.
  induction vs as [|[[ev book] ch] vs IH]; intros a log Hok Hlog; [done|].
  apply Forall_cons in Hok as [(Hget & Hset & Hch) Hok]. cbn in Hget, Hset, Hch.
  destruct (visit_all_cons ev book ch vs a) as (a1 & Hsys & Hb & Hc & Hv).
  rewrite <- Hsys in Hlog. rewrite <- Hc in Hch.
  destruct (saveHistory_recordVisit ev a1 book log (conj Hget Hset) Hb Hch Hlog)
    as [Hrh Hkv]. rewrite Hc in Hrh, Hkv.
  cbn [foldl]. cbv zeta. rewrite Hv.
  change (visit_entry (ev, book, ch)) with (entry_of ev book ch).
  destruct (IH (exec (saveHistory ev) a1) _ Hok Hkv) as [IH1 IH2].
  split; [exact IH1|]. intros _.
  destruct vs as [|v vs]; [exact Hrh|]. by apply IH2.
Qed.

(** Visits of distinct positions pile up at the head, latest first. *)
Lemma distinct_visits es : ∀ log,
  NoDup (position <$> es) → es ≠ [] →
  ∃ rest, foldl (λ l e, recordVisit e l) log es = take 20 (reverse es ++ rest).
Proof.
  induction es as [|e es IH] using rev_ind; intros log Hnd Hne; [by destruct Hne|].
  rewrite foldl_snoc, reverse_snoc.
  destruct es as [|e0 es0].
  { cbn. by eexists. }
  rewrite fmap_app in Hnd. apply NoDup_app in Hnd as (Hnd & Hfresh & _).
  destruct (IH log Hnd) as [rest ->]; [done|].
  set (A := reverse (e0 :: es0)).
  assert (Forall (λ x, position x ≠ position e) A) as HF.
  { apply Forall_forall. intros x Hx Heq.
    apply (Hfresh (position x)).
    - apply list_elem_of_fmap_2. unfold A in Hx. by rewrite elem_of_reverse in Hx.
    - rewrite Heq. cbn. apply list_elem_of_here. }
  unfold recordVisit. rewrite take_app, filter_app.
  rewrite (filter_all _ (take 20 A)) by by apply Forall_take.
  destruct (decide (length A ≤ 20)%nat) as [Hle|Hgt].
  - rewrite (take_ge A) by done.
    eexists. rewrite <- app_comm_cons. reflexivity.
  - replace (20 - length A)%nat with 0%nat by lia. rewrite take_0, filter_nil, app_nil_r.
    exists []. rewrite app_nil_r.
    cbn [take]. by rewrite take_take.
Qed.

Lemma last_21_visits es log :
  NoDup (position <$> es) → length es = 21%nat →
  let log' := take 20 (reverse es) in
  foldl (λ l e, recordVisit e l) log es = log' ∧
  length log' = 20%nat ∧ head log' = last es ∧
  (∀ e0, head es = Some e0 → e0 ∉ log').
Proof.
  intros Hnd Hlen log'. subst log'.
  destruct (distinct_visits es log Hnd) as [rest ->]; [by destruct es|].
  split_and!.
  - rewrite take_app_le; [done|]. rewrite length_reverse. lia.
  - rewrite length_take, length_reverse. lia.
  - rewrite <- head_reverse. destruct (reverse es) eqn:Hr; [|done].
    apply (f_equal length) in Hr. rewrite length_reverse in Hr. cbn in Hr. lia.
  - intros e0 Hhead. destruct es as [|e1 es]; [done|]. injection Hhead as ->.
    rewrite reverse_cons, take_app_le by (rewrite length_reverse; cbn in Hlen; lia).
    rewrite take_ge by (rewrite length_reverse; cbn in Hlen; lia).
    rewrite elem_of_reverse. rewrite fmap_cons in Hnd. apply NoDup_cons in Hnd as [Hnin _].
    intros Hin. apply Hnin. by apply list_elem_of_fmap_2.
Qed.

(** C4.  A visit recorded over a stored history [log] leaves, on the screen
    and in storage, the new entry followed by the entries of [log] for
    other positions, cut to 20 entries; so the log has at most 20 entries
    and the new entry is first, a log in which each (bookSN, chapter) occurs
    once stays so, and a visit to a position already in the log does not
    make the log longer; and 21 visits of distinct positions in a row leave
    exactly the last 20 of them, latest first, the first of them gone. *)
Theorem saveHistory_log ev a book log :
  storage_ok ev →
  currentBook (ui a) = Some book → currentChapter (ui a) ≠ 0 →
  holds_history (AsyncStorage (sys a)) log →
  let e := entry_of ev book (currentChapter (ui a)) in
  let log' := take 20 (e :: filter (λ x, position x ≠ position e) log) in
  let a' := exec (saveHistory ev) a in
  readingHistory (ui a') = entry_json <$> log' ∧
  holds_history (AsyncStorage (sys a')) log' ∧
  (length log' ≤ 20)%nat ∧
  head log' = Some e ∧
  (NoDup (position <$> log) → NoDup (position <$> log')) ∧
  (position e ∈ position <$> log → (length log' ≤ length log)%nat) ∧
  (∀ vs,
     Forall visit_ok vs → NoDup (position <$> (visit_entry <$> vs)) →
     length vs = 21%nat →
     let log21 := take 20 (reverse (visit_entry <$> vs)) in
     let a21 := exec (visit_all vs) a in
     readingHistory (ui a21) = entry_json <$> log21 ∧
     holds_history (AsyncStorage (sys a21)) log21 ∧
     length log21 = 20%nat ∧
     head log21 = last (visit_entry <$> vs) ∧
     (∀ e0, head (visit_entry <$> vs) = Some e0 → e0 ∉ log21)).
Proof.
  intros Hst Hbook Hch Hlog e log' a'.
  destruct (saveHistory_recordVisit ev a book log Hst Hbook Hch Hlog) as [H1 H2].
  split_and!.
  - exact H1.
  - exact H2.
  - apply recordVisit_length.
  - done.
  - apply recordVisit_NoDup.
  - apply recordVisit_revisit.
  - intros vs Hok Hnd Hlen log21 a21.
    destruct (visit_all_log vs a log Hok Hlog) as [Hkv Hrh].
    rewrite <- (foldl_fmap (λ l e, recordVisit e l) log vs visit_entry) in Hkv, Hrh.
    destruct (last_21_visits (visit_entry <$> vs) log Hnd) as (Heq & Hl & Hh & He);
      [by rewrite length_fmap|].
    rewrite Heq in Hkv, Hrh.
    split_and!; [|done..]. apply Hrh. by destruct vs.
Qed.

Lemma saveHistory_log_witness :
  readingHistory (ui (exec (saveHistory calm) reading)) =
    [entry_json {| bookSN := 1; chapter := 1; timestamp := 1700000000000;
                   bookName := "Genesis" |}].
Proof.
  destruct (saveHistory_log calm reading genesis []) as [H _].
  - split; reflexivity.
  - vm_compute. reflexivity.
  - vm_compute. discriminate.
  - vm_compute. reflexivity.
  - rewrite H. reflexivity.
Defined.

(** *** Highlights *)

Lemma highlight_verse_once ev a verse m :
  isSelectionMode (ui a) = false →
  highlightedVerses (ui a) = JObj m →
  find (λ v, VerseSN v =? VerseSN verse) (verses (ui a)) = Some verse →
  let a' := exec (highlight_verse ev verse) a in
  highlightedVerses (ui a') = JObj (toggled m (getVerseKey verse)) ∧
  isSelectionMode (ui a') = false ∧
  verses (ui a') = verses (ui a).
Proof.
  intros Hmode Hm Hfind a'. subst a'.
  unfold exec, highlight_verse, onVerseLongPress, handleHighlightSelected,
    persistHighlights, exitSelectionMode, setItem, toggled. run.
  cbn -[getVerseKey]. rewrite Hmode. cbn -[getVerseKey]. rewrite Hm, Hfind.
  cbn -[getVerseKey].
  destruct (unset m (getVerseKey verse)); cbn -[getVerseKey]; rewrite ?Hfind;
    destruct (setItem_ok ev); done.
Qed.

Lemma toggled_flag m key : isHighlighted (toggled m key) key = negb (isHighlighted m key).
Proof.
  unfold toggled, isHighlighted. destruct (unset m key) eqn:Hu; cbn.
  - unfold unset. by rewrite lookup_insert_eq.
  - unfold unset. by rewrite lookup_delete_eq.
Qed.

Lemma toggled_other m key k : k ≠ key → toggled m key !! k = m !! k.
Proof.
  intros Hne. unfold toggled. destruct (unset m key).
  - by rewrite lookup_insert_ne.
  - by rewrite lookup_delete_ne.
Qed.

Lemma toggled_absent m key :
  m !! key = None →
  toggled m key !! key = Some (JBool true) ∧ toggled (toggled m key) key = m.
Proof.
  intros Hn.
  assert (toggled m key = <[key := JBool true]> m) as ->
    by (unfold toggled, unset; by rewrite Hn).
  split; [by rewrite lookup_insert_eq|].
  unfold toggled, unset. rewrite lookup_insert_eq. cbn.
  by rewrite delete_insert_id.
Qed.

Lemma toggled_present m key v :
  m !! key = Some v → truthy v = true →
  toggled m key !! key = None ∧
  toggled (toggled m key) key = <[key := JBool true]> m.
Proof.
  intros Hs Ht.
  assert (toggled m key = delete key m) as ->
    by (unfold toggled, unset; by rewrite Hs, Ht).
  split; [by rewrite lookup_delete_eq|].
  unfold toggled, unset. rewrite lookup_delete_eq. by rewrite insert_delete_eq.
Qed.

(** C7.  Pressing the highlight button twice on the same single verse
    brings the flag of its key back: the flag seen by the renderer is
    inverted by the first press and restored by the second, a key that was
    absent is set to [true] and then is absent again with the whole map as
    it was, a key that was present and set is removed and then set again,
    and no other key changes. *)
Theorem highlight_twice ev1 ev2 a verse m :
  isSelectionMode (ui a) = false →
  highlightedVerses (ui a) = JObj m →
  find (λ v, VerseSN v =? VerseSN verse) (verses (ui a)) = Some verse →
  let key := getVerseKey verse in
  let a1 := exec (highlight_verse ev1 verse) a in
  let a2 := exec (highlight_verse ev2 verse) a1 in
  ∃ m1 m2,
    highlightedVerses (ui a1) = JObj m1 ∧
    highlightedVerses (ui a2) = JObj m2 ∧
    isHighlighted m1 key = negb (isHighlighted m key) ∧
    isHighlighted m2 key = isHighlighted m key ∧
    (m !! key = None → m1 !! key = Some (JBool true) ∧ m2 = m) ∧
    (∀ v, m !! key = Some v → truthy v = true →
          m1 !! key = None ∧ m2 !! key = Some (JBool true)) ∧
    (m !! key = Some (JBool true) → m2 = m) ∧
    (∀ k, k ≠ key → m1 !! k = m !! k ∧ m2 !! k = m !! k).
Proof.
  intros Hmode Hm Hfind key a1 a2.
  destruct (highlight_verse_once ev1 a verse m Hmode Hm Hfind) as (H1 & Hmode1 & Hv1).
  fold a1 in H1, Hmode1, Hv1. rewrite <- Hv1 in Hfind.
  destruct (highlight_verse_once ev2 a1 verse _ Hmode1 H1 Hfind) as (H2 & _ & _).
  fold a2 in H2. fold key in H1, H2.
  exists (toggled m key), (toggled (toggled m key) key).
  split_and!; [done|done|apply toggled_flag| | | | |].
  - rewrite !toggled_flag. apply negb_involutive.
  - apply toggled_absent.
  - intros v Hs Ht. destruct (toggled_present m key v Hs Ht) as [? ->].
    split; [done|]. by rewrite lookup_insert_eq.
  - intros Hs. destruct (toggled_present m key _ Hs eq_refl) as [_ ->].
    by apply insert_id.
  - intros k Hne. by rewrite !toggled_other.
Qed.

Lemma highlight_twice_witness :
  let a1 := exec (highlight_verse calm gen_1_1) (exec (loadVerses calm 1 1) reading) in
  let a2 := exec (highlight_verse calm gen_1_1) a1 in
  highlightedVerses (ui a1) = JObj {[ "1-1-1"%string := JBool true ]} ∧
  highlightedVerses (ui a2) = JObj ∅.
Proof.
  intros a1 a2.
  destruct (highlight_twice calm calm (exec (loadVerses calm 1 1) reading) gen_1_1 ∅)
    as (m1 & m2 & H1 & H2 & _ & _ & Habs & _).
  - vm_compute. reflexivity.
  - vm_compute. reflexivity.
  - vm_compute. reflexivity.
  - fold a1 in H1. fold a2 in H2. destruct Habs as [_ ->]; [reflexivity|].
    split; [|exact H2]. vm_compute. reflexivity.
Defined.

(** The button with any selection: what the two passes do, key by key. *)

Lemma set_flag_unset m ch key :
  unset m key = true → set_flag (m, ch) key = (<[key := JBool true]> m, true).
Proof. intros H. unfold set_flag. simpl. by rewrite H. Qed.

Lemma set_flag_set m ch key : unset m key = false → set_flag (m, ch) key = (m, ch).
Proof. intros H. unfold set_flag. simpl. by rewrite H. Qed.

Lemma unset_insert_true (m : gmap string json) key : unset (<[key := JBool true]> m) key = false.
Proof. unfold unset. by rewrite lookup_insert_eq. Qed.


Lemma highlight_pass_keys vs sel : ∀ acc,
  foldl
    (λ '(nextState, hasChanges) sn,
       match find (λ v, VerseSN v =? sn) vs with
       | Some verse =>
           let key := getVerseKey verse in
           if unset nextState key
           then (<[key := JBool true]> nextState, true)
           else (nextState, hasChanges)
       | None => (nextState, hasChanges)
       end) acc sel
  = foldl set_flag acc (selected_keys vs sel).
Proof.
  induction sel as [|sn sel IH]; intros [m ch]; [done|].
  unfold selected_keys. cbn [foldl omap list_omap]. fold (selected_keys vs sel).
  destruct (find _ vs) as [verse|]; cbn [fmap option_fmap option_map foldl].
  - rewrite IH. f_equal.
  - apply IH.
Qed.

Lemma unhighlight_pass_keys vs sel : ∀ m,
  unhighlight_pass vs sel m = foldl (λ st key, delete key st) m (selected_keys vs sel).
Proof.
  unfold unhighlight_pass.
  induction sel as [|sn sel IH]; intros m; [done|].
  unfold selected_keys. cbn [foldl omap list_omap]. fold (selected_keys vs sel).
  destruct (find _ vs) as [verse|]; cbn [fmap option_fmap option_map foldl]; apply IH.
Qed.

Lemma set_flag_keeps m ch key k :
  unset m k = false →
  unset (set_flag (m, ch) key).1 k = false ∧ (set_flag (m, ch) key).1 !! k = m !! k.
Proof.
  intros Hk. destruct (unset m key) eqn:Hu.
  - rewrite set_flag_unset by done. simpl.
    destruct (decide (key = k)) as [->|Hne]; [congruence|].
    unfold unset in *. by rewrite lookup_insert_ne.
  - by rewrite set_flag_set.
Qed.

Lemma set_flags_keep ks : ∀ m ch k,
  unset m k = false →
  unset (foldl set_flag (m, ch) ks).1 k = false ∧ (foldl set_flag (m, ch) ks).1 !! k = m !! k.
Proof.
  induction ks as [|key ks IH]; intros m ch k Hk; [done|]. cbn [foldl].
  destruct (set_flag_keeps m ch key k Hk) as [H1 H2].
  destruct (set_flag (m, ch) key) as [m' ch']. simpl in H1, H2.
  destruct (IH m' ch' k H1) as [H3 H4]. split; [done|]. by rewrite H4.
Qed.

Lemma set_flags_changed ks : ∀ m, (foldl set_flag (m, true) ks).2 = true.
Proof.
  induction ks as [|key ks IH]; intros m; [done|]. cbn [foldl].
  destruct (unset m key) eqn:Hu; [rewrite set_flag_unset by done|rewrite set_flag_set by done];
    apply IH.
Qed.

(** After the first pass every selected key is set; one that was not set
    before is now [true] and the pass reports a change. *)
Lemma set_flags_all ks : ∀ m ch k,
  k ∈ ks →
  unset (foldl set_flag (m, ch) ks).1 k = false ∧
  (unset m k = true →
   (foldl set_flag (m, ch) ks).2 = true ∧
   (foldl set_flag (m, ch) ks).1 !! k = Some (JBool true)).
Proof.
  induction ks as [|key ks IH]; intros m ch k Hin; [by apply elem_of_nil in Hin|].
  cbn [foldl].
  destruct (unset m key) eqn:Hkey.
  - rewrite set_flag_unset by done.
    destruct (decide (k = key)) as [->|Hne].
    + destruct (set_flags_keep ks (<[key := JBool true]> m) true key
                  (unset_insert_true m key)) as [H1 H2].
      split; [done|]. intros _. split; [apply set_flags_changed|].
      rewrite H2. by rewrite lookup_insert_eq.
    + apply elem_of_cons in Hin as [->|Hin]; [done|].
      destruct (IH (<[key := JBool true]> m) true k Hin) as [H1 H2]. split; [done|].
      intros Hu. apply H2. unfold unset in *. by rewrite lookup_insert_ne.
  - rewrite set_flag_set by done.
    apply elem_of_cons in Hin as [->|Hin].
    + destruct (set_flags_keep ks m ch key Hkey) as [H1 _]. split; [done|]. congruence.
    + by apply IH.
Qed.

Lemma set_flags_fixed ks : ∀ m,
  (∀ k, k ∈ ks → unset m k = false) → foldl set_flag (m, false) ks = (m, false).
Proof.
  induction ks as [|key ks IH]; intros m Hall; [done|]. cbn [foldl].
  rewrite set_flag_set by (apply Hall, list_elem_of_here).
  apply IH. intros k Hk. apply Hall. by apply list_elem_of_further.
Qed.

Lemma delete_all_absent ks : ∀ (m : gmap string json) k,
  k ∈ ks ∨ m !! k = None → foldl (λ st key, delete key st) m ks !! k = None.
Proof.
  induction ks as [|key ks IH]; intros m k H.
  - destruct H as [H|H]; [by apply elem_of_nil in H|done].
  - cbn [foldl]. apply IH. destruct H as [H|H].
    + apply elem_of_cons in H as [->|H]; [right; apply lookup_delete_eq|by left].
    + right. destruct (decide (key = k)) as [->|Hne]; [apply lookup_delete_eq|].
      by rewrite lookup_delete_ne.
Qed.

Lemma handleHighlightSelected_outcome ev a m :
  highlightedVerses (ui a) = JObj m →
  let ks := selected_keys (verses (ui a)) (selectedVersesForAction (ui a)) in
  let a' := exec (handleHighlightSelected ev) a in
  highlightedVerses (ui a') =
    JObj (if (foldl set_flag (m, false) ks).2 then (foldl set_flag (m, false) ks).1
          else foldl (λ st key, delete key st) (foldl set_flag (m, false) ks).1 ks) ∧
  verses (ui a') = verses (ui a).
Proof.
  intros Hm ks a'. subst ks a'.
  unfold exec, handleHighlightSelected, persistHighlights, exitSelectionMode, setItem,
    highlight_pass. run.
  cbn -[getVerseKey foldl]. rewrite Hm. cbn [spread].
  rewrite highlight_pass_keys.
  destruct (foldl set_flag (m, false) _) as [m1 changed] eqn:Hp.
  cbn -[getVerseKey foldl].
  destruct changed; cbn -[getVerseKey foldl]; rewrite ?unhighlight_pass_keys;
    destruct (setItem_ok ev); done.
Qed.

(** With any selection, pressed twice: a selected verse that was not
    highlighted is highlighted by the first press and has no entry after
    the second. *)
Lemma highlight_selection_twice ev1 ev2 a b m key :
  highlightedVerses (ui a) = JObj m →
  key ∈ selected_keys (verses (ui a)) (selectedVersesForAction (ui a)) →
  unset m key = true →
  let a1 := exec (handleHighlightSelected ev1) a in
  verses (ui b) = verses (ui a) →
  selectedVersesForAction (ui b) = selectedVersesForAction (ui a) →
  highlightedVerses (ui b) = highlightedVerses (ui a1) →
  let a2 := exec (handleHighlightSelected ev2) b in
  ∃ m1 m2,
    highlightedVerses (ui a1) = JObj m1 ∧ m1 !! key = Some (JBool true) ∧
    highlightedVerses (ui a2) = JObj m2 ∧ m2 !! key = None.
Proof.
  intros Hm Hin Hu a1 Hv Hs Hh a2.
  destruct (handleHighlightSelected_outcome ev1 a m Hm) as [H1 _]. fold a1 in H1.
  set (ks := selected_keys (verses (ui a)) (selectedVersesForAction (ui a))) in *.
  destruct (set_flags_all ks m false key Hin) as [_ Hset].
  destruct (Hset Hu) as [Hch Hkey].
  rewrite Hch in H1. rewrite H1 in Hh.
  destruct (handleHighlightSelected_outcome ev2 b _ Hh) as [H2 _]. fold a2 in H2.
  rewrite Hv, Hs in H2. fold ks in H2.
  rewrite set_flags_fixed in H2
    by (intros k Hk; by apply (set_flags_all ks m false k Hk)).
  simpl in H2.
  eexists _, _. split_and!; [exact H1|exact Hkey|exact H2|].
  apply delete_all_absent. by left.
Qed.

(** *** Loading the overlay *)

Lemma try_catch_returns {S A} (m : M S A) (d : A) (s : S) :
  ∃ v, eval (try_catch m (λ _, mret d)) s = Ok v.
Proof. unfold eval, try_catch. destruct (m s) as [[v|e] s']; by eexists. Qed.

(** The three loaders return whatever storage holds or does. *)
Lemma loaders_return ev :
  (∀ a, ∃ v, eval (loadStoredData ev) a = Ok v) ∧
  (∀ a, ∃ v, eval (init_preferred ev) a = Ok v) ∧
  (∀ w, ∃ v, eval (getReadPostIds ev) w = Ok v) ∧
  (∀ postId w, ∃ v, eval (getReadingProgress ev postId) w = Ok v).
Proof.
  split_and!; intros; apply try_catch_returns.
Qed.

(** No entry, an empty entry or an entry that is not JSON text leaves the
    highlights and the history as they were and gives no preferred
    position; so does storage that rejects the read. *)
Lemma loaders_fail_open ev a :
  (getItem_ok ev = false ∨
   ∀ key, match AsyncStorage (sys a) !! key with
          | None => True
          | Some t => ∃ s, t = Raw s
          end) →
  ui (exec (loadStoredData ev) a) = ui a ∧
  init_preferred ev a = (Ok (None, None), a) ∧
  eval (getReadPostIds ev) (sys a) = Ok (JArr []).
Proof.
  intros H.
  assert (getItem_ok ev = true →
          ∀ key, AsyncStorage (sys a) !! key = None
                 ∨ ∃ s, AsyncStorage (sys a) !! key = Some (Raw s)) as Hkv.
  { intros Hok key. destruct H as [H|H]; [congruence|]. specialize (H key).
    destruct (AsyncStorage (sys a) !! key) as [t|]; [|by left].
    destruct H as [s ->]. right. by exists s. }
  clear H. destruct a as [w u]. cbn [sys] in Hkv.
  unfold exec, eval, loadStoredData, init_preferred, getReadPostIds, getItem. run.
  destruct (getItem_ok ev); cbn; [|done].
  split_and!.
  - destruct (Hkv eq_refl HIGHLIGHT_STORAGE_KEY) as [->|[s ->]]; cbn; [done|].
    by destruct (String.eqb s EmptyString).
  - destruct (Hkv eq_refl READING_HISTORY_KEY) as [->|[s ->]]; cbn; [done|].
    by destruct (String.eqb s EmptyString).
  - destruct (Hkv eq_refl READ_POSTS_KEY) as [->|[s ->]]; cbn; [done|].
    by destruct (String.eqb s EmptyString).
Qed.

Lemma getReadingProgress_never_saved ev postId w :
  getItem_ok ev = false ∨
  AsyncStorage w !! (PROGRESS_PREFIX +:+ template_num postId) = None →
  eval (getReadingProgress ev postId) w = Ok (of_Z 0).
Proof.
  intros H. unfold eval, getReadingProgress, getItem. run.
  destruct (getItem_ok ev); cbn; [|done].
  destruct H as [H|H]; [done|]. by rewrite H.
Qed.

(** C8 fails on the code at a progress entry that cannot be parsed:
    [parseFloat] does not throw on it, so the [catch] that returns 0 is not
    reached and [getReadingProgress] returns [NaN]. *)
Theorem getReadingProgress_unparsable ev postId w s :
  getItem_ok ev = true →
  AsyncStorage w !! (PROGRESS_PREFIX +:+ template_num postId) = Some (Raw s) →
  s ≠ EmptyString → parseFloat s = NaN →
  eval (getReadingProgress ev postId) w = Ok NaN ∧ NaN ≠ of_Z 0.
Proof.
  intros Hget Hkv Hs Hnan. unfold eval, getReadingProgress, getItem. run.
  rewrite Hget. cbn. rewrite Hkv. cbn.
  apply String.eqb_neq in Hs. rewrite Hs. cbn. by rewrite Hnan.
Qed.

Lemma getReadingProgress_unparsable_witness :
  eval (getReadingProgress calm 7) damaged_progress = Ok NaN ∧ NaN ≠ of_Z 0.
Proof.
  apply (getReadingProgress_unparsable calm 7 damaged_progress "abc").
  - reflexivity.
  - vm_compute. reflexivity.
  - discriminate.
  - reflexivity.
Defined.

(** *** Reading progress at integer offsets *)

Lemma digit_of_char d : (d < 10)%N → digit_of (pretty_N_char d) = Some d.
Proof.
  intros H.
  assert (d = 0 ∨ d = 1 ∨ d = 2 ∨ d = 3 ∨ d = 4 ∨ d = 5 ∨ d = 6 ∨ d = 7 ∨ d = 8 ∨ d = 9)%N
    as Hd by lia.
  repeat (destruct Hd as [->|Hd]; [reflexivity|]). by subst.
Qed.

Lemma read_digits_pretty x : ∀ s acc count,
  ∃ p k, read_digits (pretty_N_go x s) acc count = read_digits s (acc * p + x)%N (count + k)%nat
         ∧ ((0 < x)%N → (0 < k)%nat).
Proof.
  induction (N.lt_wf_0 x) as [x _ IH]. intros s acc count.
  assert (x = 0 ∨ 0 < x)%N as [->|Hpos] by lia.
  - exists 1%N, 0%nat. rewrite pretty_N_go_0. split; [|lia].
    replace (acc * 1 + 0)%N with acc by lia.
    by replace (count + 0)%nat with count by lia.
  - rewrite pretty_N_go_step by done.
    destruct (IH (x `div` 10)%N (N.div_lt x 10 Hpos eq_refl)
                (String (pretty_N_char (x `mod` 10)) s) acc count) as (p & k & -> & _).
    cbn [read_digits]. rewrite digit_of_char by (apply N.mod_lt; lia).
    exists (10 * p)%N, (S k). split; [|lia].
    replace (10 * (acc * p + x `div` 10) + x `mod` 10)%N with (acc * (10 * p) + x)%N
      by (pose proof (N.div_mod x 10); lia).
    by replace (count + S k)%nat with (S (count + k)) by lia.
Qed.

Lemma pretty_N_go_head x : ∀ s,
  (0 < x)%N → ∃ d r, (d < 10)%N ∧ pretty_N_go x s = String (pretty_N_char d) r.
Proof.
  induction (N.lt_wf_0 x) as [x _ IH]. intros s Hpos.
  rewrite pretty_N_go_step by done.
  destruct (decide (x `div` 10 = 0)%N) as [->|Hd].
  - rewrite pretty_N_go_0. eexists _, _. split; [|done]. by apply N.mod_lt.
  - apply IH; [by apply N.div_lt|]. by apply N.neq_0_lt_0.
Qed.

(** [parseFloat] on a string that starts with a digit, with or without a
    minus sign before it. *)
Lemma parseFloat_digits (neg : bool) d r :
  (d < 10)%N →
  parseFloat ((if neg then "-" else EmptyString) +:+ String (pretty_N_char d) r) =
    let '(ip, n1, s2) := read_digits (String (pretty_N_char d) r) 0%N 0%nat in
    let '(m, n2, s3) :=
      match s2 with
      | String "." r => read_digits r ip 0%nat
      | _ => (ip, 0%nat, s2)
      end in
    match (n1 + n2)%nat with
    | O => NaN
    | _ => Decimal neg m (read_exponent s3 - Z.of_nat n2)
    end.
Proof.
  intros H.
  assert (d = 0 ∨ d = 1 ∨ d = 2 ∨ d = 3 ∨ d = 4 ∨ d = 5 ∨ d = 6 ∨ d = 7 ∨ d = 8 ∨ d = 9)%N
    as Hd by lia.
  destruct neg; (repeat (destruct Hd as [->|Hd]; [reflexivity|])); by subst.
Qed.




(** *** Numbers and their decimal strings *)

Section Binary64_strings.

Import Binary64.

(** A rational that is a finite value rounds to it. *)
Lemma round_ratio_exact a b x :
  canonical x → 0 < b →
  a * 2 ^ 1074 = mant x * 2 ^ (expo x + 1074) * b →
  round_ratio a b = Some x.
Proof.
  intros (Hm & He & Hsub) Hb Heq. destruct x as [M E]. cbn [mant expo] in *.
  unfold round_ratio. rewrite Heq.
  rewrite Z.div_mul, Z.mod_mul by lia.
  set (T := E + 1074) in *.
  assert (0 ≤ T) as HT by lia.
  assert (Z.max (Z.log2 (M * 2 ^ T) - 52) 0 = T) as ->.
  { destruct (decide (M = 0)) as [->|HM0].
    - rewrite Z.mul_0_l. cbn. lia.
    - rewrite Z.log2_mul_pow2 by lia.
      destruct (decide (M < 2 ^ 52)) as [Hs|Hn].
      + assert (Z.log2 M < 52) by (apply Z.log2_lt_pow2; lia). lia.
      + assert (Z.log2 M = 52) as -> by (apply Z.log2_unique; lia). lia. }
  assert (0 < 2 ^ T) as HpT by (apply Z.pow_pos_nonneg; lia).
  rewrite Z.div_mul, Z.mod_mul by lia.
  rewrite Z.mul_0_l, Z.add_0_l, Z.mul_0_r.
  assert ((0 <? 2 ^ T * b) = true) as -> by (apply Z.ltb_lt; nia).
  assert ((M =? 2 ^ 53) = false) as -> by (apply Z.eqb_neq; lia).
  assert ((971 <? T - 1074) = false) as -> by (apply Z.ltb_ge; lia).
  do 2 f_equal. lia.
Qed.

Lemma number_of_app l1 l2 :
  number_of (l1 ++ l2) = foldl (λ acc d, 10 * acc + d)%N (number_of l1) l2.
Proof. unfold number_of. by rewrite foldl_app. Qed.

Lemma foldl_digits_shift l : ∀ acc,
  foldl (λ acc d, 10 * acc + d)%N acc l = (acc * 10 ^ N.of_nat (length l) + number_of l)%N.
Proof.
  unfold number_of. induction l as [|d l IH]; intros acc.
  - cbn [foldl length]. change (N.of_nat 0) with 0%N. rewrite N.pow_0_r. lia.
  - cbn [foldl length]. rewrite IH, (IH (10 * 0 + d)%N).
    rewrite Nat2N.inj_succ, N.pow_succ_r'. lia.
Qed.

Lemma digits_go_spec fuel : ∀ n acc,
  (n < 2 ^ N.of_nat fuel)%N →
  number_of (digits_go fuel n acc) = (n * 10 ^ N.of_nat (length acc) + number_of acc)%N ∧
  (Forall (λ d, d < 10)%N acc → Forall (λ d, d < 10)%N (digits_go fuel n acc)) ∧
  (acc ≠ [] ∨ n ≠ 0%N → digits_go fuel n acc ≠ []).
Proof.
  induction fuel as [|fuel IH]; intros n acc Hn.
  - change (N.of_nat 0) with 0%N in Hn. rewrite N.pow_0_r in Hn.
    assert (n = 0%N) as -> by lia. cbn [digits_go].
    split_and!; [by rewrite N.mul_0_l, N.add_0_l|done|]. intros [?|?]; done.
  - cbn [digits_go]. destruct (N.eqb_spec n 0) as [->|Hn0].
    + split_and!; [by rewrite N.mul_0_l, N.add_0_l|done|]. intros [?|?]; done.
    + assert (n `div` 10 < 2 ^ N.of_nat fuel)%N as Hd.
      { rewrite Nat2N.inj_succ, N.pow_succ_r' in Hn.
        apply N.Div0.div_lt_upper_bound. lia. }
      destruct (IH (n `div` 10)%N ((n `mod` 10)%N :: acc) Hd) as (I1 & I2 & I3).
      split_and!.
      * rewrite I1. cbn [length]. rewrite Nat2N.inj_succ, N.pow_succ_r'.
        change (number_of ((n `mod` 10)%N :: acc))
          with (foldl (λ acc d, 10 * acc + d)%N (10 * 0 + n `mod` 10)%N acc).
        rewrite foldl_digits_shift. pose proof (N.div_mod n 10). lia.
      * intros Hacc. apply I2. constructor; [|done]. apply N.mod_lt. lia.
      * intros _. apply I3. by left.
Qed.

Lemma digits_spec n :
  number_of (digits n) = n ∧ Forall (λ d, d < 10)%N (digits n) ∧ (n ≠ 0%N → digits n ≠ []).
Proof.
  unfold digits.
  assert (n < 2 ^ N.of_nat (S (N.to_nat (N.log2 n))))%N as Hn.
  { rewrite Nat2N.inj_succ, N2Nat.id.
    destruct (N.eq_dec n 0%N) as [->|H0]; [done|].
    apply N.log2_spec. lia. }
  destruct (digits_go_spec _ n [] Hn) as (I1 & I2 & I3).
  split_and!.
  - rewrite I1. cbn. lia.
  - by apply I2.
  - intros H0. apply I3. by right.
Qed.

(** The exact digits of a finite value name it. *)
Lemma exact_decimal_names x :
  canonical x → 0 < mant x →
  names x (exact_decimal x).1 (exact_decimal x).2 = true ∧
  (exact_decimal x).1 ≠ [] ∧ Forall (λ d, d < 10)%N (exact_decimal x).1.
Proof.
  intros Hc Hpos. pose proof Hc as (Hm & He & Hsub).
  unfold exact_decimal. cbn [fst snd].
  set (s := if 0 <=? expo x then mant x * 2 ^ expo x else mant x * 5 ^ (- expo x)).
  assert (0 < s) as Hs.
  { unfold s. destruct (0 <=? expo x) eqn:E.
    - apply Z.mul_pos_pos; [done|]. apply Z.pow_pos_nonneg; lia.
    - apply Z.mul_pos_pos; [done|]. apply Z.pow_pos_nonneg; lia. }
  destruct (digits_spec (Z.to_N s)) as (D1 & D2 & D3).
  split_and!; [|apply D3; lia|done].
  unfold names. apply bool_decide_eq_true_2. rewrite D1.
  replace (Z.of_nat (length (digits (Z.to_N s))) + (if 0 <=? expo x then 0 else expo x)
           - Z.of_nat (length (digits (Z.to_N s))))
    with (if 0 <=? expo x then 0 else expo x) by lia.
  unfold round_decimal. rewrite Z2N.id by lia. unfold s.
  destruct (Z.leb_spec 0 (expo x)) as [E|E].
  - cbn [Z.leb]. apply round_ratio_exact; [done|lia|].
    rewrite Z.pow_0_r, Z.pow_add_r by lia. lia.
  - assert ((0 <=? expo x) = false) as -> by (apply Z.leb_gt; lia).
    apply round_ratio_exact; [done|apply Z.pow_pos_nonneg; lia|].
    replace 10 with (2 * 5) by done. rewrite Z.pow_mul_l.
    replace (2 ^ 1074) with (2 ^ (expo x + 1074) * 2 ^ (- expo x))
      by (rewrite <- Z.pow_add_r by lia; f_equal; lia).
    lia.
Qed.

(** Whatever digits the search ends with name the value. *)
Lemma shortest_names x exact n fuel : ∀ k,
  (0 < k)%nat → exact ≠ [] → Forall (λ d, d < 10)%N exact → names x exact n = true →
  names x (shortest x exact n fuel k).1 (shortest x exact n fuel k).2 = true ∧
  (shortest x exact n fuel k).1 ≠ [] ∧
  Forall (λ d, d < 10)%N (shortest x exact n fuel k).1.
Proof.
  induction fuel as [|fuel IH]; intros k Hk Hne Hd Hn; [done|].
  cbn [shortest].
  set (lo := take k exact).
  set (above := digits (number_of lo + 1)).
  set (hi := if (k <? length above)%nat then (take k above, n + 1) else (above, n)).
  assert (lo ≠ [] ∧ Forall (λ d, d < 10)%N lo) as [Hlo1 Hlo2].
  { unfold lo. split; [|by apply Forall_take].
    destruct exact; [done|]. destruct k; [lia|done]. }
  destruct (digits_spec (number_of lo + 1)) as (_ & A2 & A3).
  assert (above ≠ []) as Ha by (apply A3; lia).
  assert (hi.1 ≠ [] ∧ Forall (λ d, d < 10)%N hi.1) as [Hhi1 Hhi2].
  { unfold hi. destruct (k <? length above)%nat; cbn [fst].
    - split; [|by apply Forall_take]. fold above in Ha.
      destruct above; [done|]. destruct k; [lia|done].
    - done. }
  destruct (names x lo n) eqn:Nlo, (names x hi.1 hi.2) eqn:Nhi.
  - repeat case_match; done.
  - done.
  - by destruct hi.
  - apply IH; [lia|done..].
Qed.

Lemma read_digits_string_of_digits ds : ∀ rest acc count,
  Forall (λ d, d < 10)%N ds →
  read_digits (string_of_digits ds +:+ rest) acc count =
  read_digits rest (foldl (λ acc d, 10 * acc + d)%N acc ds) (count + length ds)%nat.
Proof.
  induction ds as [|d ds IH]; intros rest acc count Hd.
  - cbn. by rewrite Nat.add_0_r.
  - apply Forall_cons in Hd as [Hd Hds].
    cbn [string_of_digits length foldl].
    change (String (pretty_N_char d) (string_of_digits ds) +:+ rest)
      with (String (pretty_N_char d) (string_of_digits ds +:+ rest)).
    cbn [read_digits]. rewrite digit_of_char by done. rewrite IH by done.
    by rewrite Nat.add_succ_r.
Qed.

Lemma string_append_empty s : s +:+ EmptyString = s.
Proof.
  induction s as [|c s IH]; [done|].
  change (String c (s +:+ EmptyString) = String c s). by rewrite IH.
Qed.

Lemma read_digits_only ds acc count :
  Forall (λ d, d < 10)%N ds →
  read_digits (string_of_digits ds) acc count =
  (foldl (λ acc d, 10 * acc + d)%N acc ds, (count + length ds)%nat, EmptyString).
Proof.
  intros Hd. rewrite <- (string_append_empty (string_of_digits ds)).
  by rewrite read_digits_string_of_digits.
Qed.

Lemma number_of_zeros_after ds z :
  number_of (ds ++ replicate z 0%N) = (number_of ds * 10 ^ N.of_nat z)%N.
Proof.
  rewrite number_of_app, foldl_digits_shift, length_replicate.
  assert (number_of (replicate z 0%N) = 0%N) as ->; [|lia].
  unfold number_of. induction z as [|z IH]; [done|]. cbn [replicate foldl]. exact IH.
Qed.

Lemma number_of_zeros_before ds z :
  number_of (replicate z 0%N ++ ds) = number_of ds.
Proof.
  unfold number_of. rewrite foldl_app.
  assert (foldl (λ acc d, 10 * acc + d)%N 0%N (replicate z 0%N) = 0%N) as ->; [|done].
  induction z as [|z IH]; [done|]. cbn [replicate foldl]. exact IH.
Qed.

Lemma append_String c s t : String c s +:+ t = String c (s +:+ t).
Proof. done. Qed.

Lemma append_Empty t : EmptyString +:+ t = t.
Proof. done. Qed.

Lemma read_digits_step d r acc count :
  (d < 10)%N →
  read_digits (String (pretty_N_char d) r) acc count =
  read_digits r (10 * acc + d)%N (S count).
Proof. intros H. cbn [read_digits]. by rewrite digit_of_char. Qed.

Lemma read_digits_stop c r acc count :
  digit_of c = None → read_digits (String c r) acc count = (acc, count, String c r).
Proof. intros H. cbn [read_digits]. by rewrite H. Qed.

(** The exponent part that [format] writes is read back. *)
Lemma read_exponent_written e :
  e ≠ 0 →
  read_exponent
    (String "e" ((if 0 <=? e then "+" else "-") +:+ string_of_digits (digits (Z.abs_N e))))
  = e.
Proof.
  intros He. destruct (digits_spec (Z.abs_N e)) as (D1 & D2 & D3).
  assert (digits (Z.abs_N e) ≠ []) as Hne by (apply D3; lia).
  destruct (Z.leb_spec 0 e) as [Hs|Hs]; rewrite !append_String, !append_Empty;
    cbn [read_exponent Ascii.eqb Bool.eqb andb orb read_sign];
    rewrite read_digits_only by done; fold (number_of (digits (Z.abs_N e))); rewrite D1;
    (destruct (digits (Z.abs_N e)) as [|d l]; [done|]); cbn [length Nat.add]; lia.
Qed.

Lemma parseFloat_led d r :
  (d < 10)%N →
  parseFloat (String (pretty_N_char d) r) =
    let '(ip, n1, s2) := read_digits (String (pretty_N_char d) r) 0%N 0%nat in
    let '(m, n2, s3) :=
      match s2 with
      | String "." r => read_digits r ip 0%nat
      | _ => (ip, 0%nat, s2)
      end in
    match (n1 + n2)%nat with
    | O => NaN
    | _ => Decimal false m (read_exponent s3 - Z.of_nat n2)
    end.
Proof. intros H. exact (parseFloat_digits false d r H). Qed.

(** What [parseFloat] reads from the string of the digits [ds] with the
    exponent [n] has the Number value for [0.ds * 10^n]. *)
Lemma parseFloat_format ds n :
  ds ≠ [] → Forall (λ d, d < 10)%N ds →
  Number_value (parseFloat (format ds n)) =
    match round_decimal (number_of ds) (n - Z.of_nat (length ds)) with
    | Some x => Finite64 false x
    | None => Infinity64 false
    end.
Proof.
  intros Hne Hd. destruct ds as [|d ds]; [done|]. clear Hne.
  pose proof Hd as Hd'. apply Forall_cons in Hd' as [Hd0 Hds].
  unfold format. set (k := Z.of_nat (length (d :: ds))).
  assert (k = Z.of_nat (length ds) + 1) as Hk by (unfold k; cbn [length]; lia).
  destruct ((k <=? n) && (n <=? 21)) eqn:C1.
  { apply andb_true_iff in C1 as [C1 _]. apply Z.leb_le in C1.
    rewrite <- app_comm_cons. cbn [string_of_digits].
    rewrite (parseFloat_led d _ Hd0).
    change (String (pretty_N_char d) (string_of_digits (ds ++ replicate (Z.to_nat (n - k)) 0%N)))
      with (string_of_digits (d :: ds ++ replicate (Z.to_nat (n - k)) 0%N)).
    rewrite app_comm_cons.
    rewrite read_digits_only.
    2: { apply Forall_app. split; [done|]. apply Forall_replicate. lia. }
    fold (number_of ((d :: ds) ++ replicate (Z.to_nat (n - k)) 0%N)).
    rewrite <- app_comm_cons. cbn [length Nat.add]. rewrite app_comm_cons.
    rewrite number_of_zeros_after. cbn [read_exponent].
    unfold Number_value, round_decimal.
    assert ((0 <=? 0 - Z.of_nat 0) = true) as -> by done.
    assert ((0 <=? n - k) = true) as -> by (apply Z.leb_le; lia).
    replace (Z.of_N (number_of (d :: ds) * 10 ^ N.of_nat (Z.to_nat (n - k))) *
             10 ^ (0 - Z.of_nat 0))
      with (Z.of_N (number_of (d :: ds)) * 10 ^ (n - k)); [done|].
    rewrite N2Z.inj_mul, N2Z.inj_pow, nat_N_Z, Z2Nat.id by lia.
    change (0 - Z.of_nat 0) with 0. rewrite Z.pow_0_r. change (Z.of_N 10) with 10. lia. }
  destruct ((0 <? n) && (n <=? 21)) eqn:C2.
  { apply andb_true_iff in C2 as [C2 C2']. apply Z.ltb_lt in C2. apply Z.leb_le in C2'.
    apply andb_false_iff in C1 as [C1|C1]; [apply Z.leb_gt in C1|apply Z.leb_gt in C1; lia].
    destruct (Z.to_nat n) as [|m] eqn:Hm; [lia|].
    cbn [take drop string_of_digits]. rewrite !append_String, !append_Empty.
    rewrite (parseFloat_led d _ Hd0).
    change (String (pretty_N_char d) (string_of_digits (take m ds) +:+
              String "." (string_of_digits (drop m ds))))
      with (string_of_digits (d :: take m ds) +:+ String "." (string_of_digits (drop m ds))).
    rewrite read_digits_string_of_digits by (constructor; [done|by apply Forall_take]).
    rewrite read_digits_stop by done.
    rewrite read_digits_only by (by apply Forall_drop).
    rewrite <- foldl_app. rewrite <- app_comm_cons, take_drop.
    fold (number_of (d :: ds)). cbn [length Nat.add].
    rewrite ?length_take, ?length_drop. cbn [read_exponent].
    unfold Number_value.
    replace (0 - Z.of_nat (length ds - m)) with (n - k) by lia.
    done. }
  destruct ((-6 <? n) && (n <=? 0)) eqn:C3.
  { apply andb_true_iff in C3 as [C3 C3']. apply Z.ltb_lt in C3. apply Z.leb_le in C3'.
    rewrite !append_String, !append_Empty.
    change (String "0" ?r) with (String (pretty_N_char 0) r).
    rewrite (parseFloat_led 0 _ eq_refl).
    rewrite (read_digits_step 0) by done.
    rewrite read_digits_stop by done.
    rewrite read_digits_only.
    2: { apply Forall_app. split; [apply Forall_replicate; lia|done]. }
    change (10 * 0 + 0)%N with 0%N.
    fold (number_of (replicate (Z.to_nat (- n)) 0%N ++ d :: ds)).
    rewrite number_of_zeros_before, length_app, length_replicate.
    cbn [length Nat.add read_exponent]. unfold Number_value.
    replace (0 - Z.of_nat (Z.to_nat (- n) + S (length ds))) with (n - k) by lia.
    done. }
  assert (n - 1 ≠ 0) as He.
  { apply andb_false_iff in C2, C3.
    destruct C2 as [C2|C2], C3 as [C3|C3];
      rewrite ?Z.ltb_ge, ?Z.leb_gt in C2; rewrite ?Z.ltb_ge, ?Z.leb_gt in C3; lia. }
  cbv zeta. destruct ds as [|d' rest].
  - cbn [string_of_digits]. rewrite !append_String, !append_Empty.
    rewrite (parseFloat_led d _ Hd0).
    rewrite (read_digits_step d) by done.
    rewrite read_digits_stop by done.
    rewrite read_exponent_written by done. cbn [Nat.add]. unfold Number_value.
    change (number_of [d]) with (10 * 0 + d)%N.
    replace (n - 1 - Z.of_nat 0) with (n - k) by (rewrite Hk; cbn [length]; lia). done.
  - cbn [string_of_digits]. rewrite !append_String, !append_Empty.
    rewrite (parseFloat_led d _ Hd0).
    rewrite (read_digits_step d) by done.
    rewrite read_digits_stop by done.
    change (String (pretty_N_char d') (string_of_digits rest +:+ ?r))
      with (string_of_digits (d' :: rest) +:+ r).
    rewrite read_digits_string_of_digits by done.
    rewrite read_digits_stop by done.
    rewrite read_exponent_written by done. cbn [Nat.add]. unfold Number_value.
    change (foldl (λ acc d, 10 * acc + d)%N (10 * 0 + d)%N (d' :: rest))
      with (number_of (d :: d' :: rest)).
    replace (n - 1 - Z.of_nat (length (d' :: rest))) with (n - k)
      by (rewrite Hk; cbn [length]; lia).
    done.
Qed.

(** The string [toString] writes for a finite value that is not negative
    is read back by [parseFloat] as that value. *)
Lemma toString_read_back y :
  canonical y → Number_value (parseFloat (Binary64.toString y)) = Finite64 false y.
Proof.
  intros Hc. unfold Binary64.toString. destruct (Z.eqb_spec (mant y) 0) as [H0|H0].
  - assert (y = zero) as ->.
    { destruct Hc as (_ & _ & Hsub). destruct y as [m e]. cbn [mant expo] in *.
      subst m. unfold zero. f_equal. apply Hsub. done. }
    vm_compute. reflexivity.
  - assert (0 < mant y) as Hpos by (destruct Hc as ([? ?] & _); lia).
    destruct (exact_decimal_names y Hc Hpos) as (E1 & E2 & E3).
    unfold shortest_digits. destruct (exact_decimal y) as [exact n]. cbn [fst snd] in *.
    destruct (shortest_names y exact n (length exact - 1) 1) as (S1 & S2 & S3);
      [lia|done..|].
    destruct (shortest y exact n (length exact - 1) 1) as [ds n']. cbn [fst snd] in *.
    rewrite parseFloat_format by done.
    unfold names in S1. apply bool_decide_eq_true_1 in S1. by rewrite S1.
Qed.

(** C10.  For every post and every finite offset that is not negative,
    the offset saved is the offset read back when storage takes the write
    and answers the read: [saveReadingProgress] stores the decimal string
    [toString] makes of the offset, the shortest digits whose Number value
    is the offset, and [getReadingProgress] returns what [parseFloat] reads
    from it, whose Number value is the offset again. *)
Theorem reading_progress_round_trip_binary64 ev1 ev2 postId y w :
  canonical y → setItem_ok ev1 = true → getItem_ok ev2 = true →
  ∃ d,
    eval (getReadingProgress ev2 postId)
      (exec (Binary64.saveReadingProgress ev1 postId y) w) = Ok d ∧
    Number_value d = Finite64 false y.
Proof.
  intros Hc Hset Hget. pose proof (toString_read_back y Hc) as Hback.
  exists (parseFloat (Binary64.toString y)). split; [|done].
  unfold eval, exec, getReadingProgress, Binary64.saveReadingProgress, getItem, setItem. run.
  rewrite Hset, Hget. cbn -[Binary64.toString parseFloat]. rewrite lookup_insert_eq.
  cbn -[Binary64.toString parseFloat].
  destruct (String.eqb (Binary64.toString y) EmptyString) eqn:He; [|done].
  apply String.eqb_eq in He. rewrite He in Hback. discriminate Hback.
Qed.

Lemma reading_progress_round_trip_binary64_witness :
  let y := {| mant := 2501 * 2 ^ 41; expo := -42 |} in
  Binary64.toString y = "1250.5"%string ∧
  ∃ d,
    eval (getReadingProgress calm 7) (exec (Binary64.saveReadingProgress calm 7 y) installed)
      = Ok d ∧
    Number_value d = Finite64 false y.
Proof.
  intros y. split; [vm_compute; reflexivity|].
  apply (reading_progress_round_trip_binary64 calm calm 7 y installed).
  - unfold canonical. vm_compute. repeat split; discriminate.
  - reflexivity.
  - reflexivity.
Defined.

End Binary64_strings.

(** *** The web store *)

(** Once [initDB] has returned for a translation, calling it again returns
    at once: nothing is fetched and nothing changes. *)
Lemma web_initDB_again ev1 ev2 version w w1 :
  WebBible.initDB ev1 version w = (Ok tt, w1) →
  WebBible.initDB ev2 version w1 = (Ok tt, w1).
Proof.
  unfold WebBible.initDB, WebBible.load. run. cbn.
  destruct (WebBible.databases w !! WebBible.version_key version) as [d|] eqn:Hd.
  { intros [= <-]. by rewrite Hd. }
  destruct (WebBible.initPromises w !! WebBible.version_key version) as [[|e]|] eqn:Hp.
  { intros [= <-]. by rewrite Hd, Hp. }
  { done. }
  destruct (WebBible.initSqlJs_ok ev1), (WebBible.fetch_ok ev1),
    (WebBible.construct_ok ev1); cbn; try done.
  intros [= <-]. cbn. by rewrite lookup_insert_eq.
Qed.

(** The first call for a translation fetches its file once. *)
Lemma web_initDB_fetches_once ev version w w1 :
  WebBible.databases w !! WebBible.version_key version = None →
  WebBible.initPromises w !! WebBible.version_key version = None →
  WebBible.initDB ev version w = (Ok tt, w1) →
  WebBible.fetched w1 = WebBible.DB_file version :: WebBible.fetched w.
Proof.
  intros Hd Hp. unfold WebBible.initDB, WebBible.load. run. cbn. rewrite Hd, Hp.
  destruct (WebBible.initSqlJs_ok ev), (WebBible.fetch_ok ev),
    (WebBible.construct_ok ev); cbn; try done.
  by intros [= <-].
Qed.

(** The web store keeps one database per translation and closes none, so
    after a query of each translation both are held. *)
Lemma web_holds_both_translations :
  let w := exec (WebBible.initDB web_calm WebBible.web_asv)
             (exec (WebBible.initDB web_calm WebBible.web_cuv) web_start) in
  WebBible.databases w !! "cuv"%string = Some cuv_db ∧
  WebBible.databases w !! "asv"%string = Some asv_db.
Proof. vm_compute. split; reflexivity. Qed.

(* ===================================================================== *)
(** ** Further properties of the store, the services and the screen       *)
(* ===================================================================== *)

Ltac run_view := unfold on_page, on_panel in *; run; unfold gets, modify in *.

(** *** Opening the database *)

(** X1. [initDatabase] opens the database once: after a call that
    returned a connection, every later call returns the same connection and
    changes nothing, whatever the platform does then. *)
Theorem initDatabase_once ev1 ev2 w h w1 :
  initDatabase ev1 w = (Ok h, w1) →
  initDatabase ev2 w1 = (Ok h, w1) ∧ db w1 = Some h.
Proof.
  intros H. pose proof (initDatabase_outcome ev1 w) as O. rewrite H in O.
  destruct O as (_ & _ & _ & Hdb & _). split; [|done].
  unfold initDatabase. run. by rewrite Hdb.
Qed.

Lemma initDatabase_once_witness :
  let w1 := exec (initDatabase calm) installed in
  initDatabase no_local_uri w1 = (Ok {| hid := 0; hname := "bible_cuv.db" |}, w1).
Proof.
  intros w1.
  apply (initDatabase_once calm no_local_uri installed _ w1). vm_compute. reflexivity.
Defined.

Lemma append_nonempty_neq (s t : string) : t ≠ EmptyString → s +:+ t ≠ s.
Proof.
  intros Ht H. apply Ht.
  induction s as [|c s IH]; simpl in H; [done|]. injection H as H. by apply IH.
Qed.

Lemma target_path_not_empty w version : target_path w version ≠ EmptyString.
Proof.
  unfold target_path, sqlite_path. destruct (documentDirectory w); simpl; discriminate.
Qed.

Lemma target_path_not_directory w version :
  target_path w version ≠ documentDirectory w +:+ "SQLite".
Proof.
  unfold target_path, sqlite_path. apply append_nonempty_neq. discriminate.
Qed.

(** On a path that holds no file yet and under a platform that answers,
    [ensureDatabaseReady] leaves the packaged database of the translation
    at the path and touches nothing of the module. *)
Lemma ensureDatabaseReady_fresh ev version w :
  cooperative ev = true →
  files w !! target_path w version = None →
  ∃ w', ensureDatabaseReady ev version w = (Ok (target_path w version), w') ∧
    files w' !! target_path w version =
      Some (DbFile (bundle w (asset (VERSION_CONFIG version)))) ∧
    documentDirectory w' = documentDirectory w ∧ bundle w' = bundle w ∧
    connections w' = connections w ∧ next_hid w' = next_hid w ∧
    close_rejected w' = close_rejected w ∧ queried w' = queried w ∧
    AsyncStorage w' = AsyncStorage w ∧ activeVersion w' = activeVersion w ∧
    db w' = db w ∧ (∃ from, copies w' = (from, target_path w version) :: copies w).
Proof.
  unfold cooperative. intros C Hnone.
  destruct (getInfo_ok ev) eqn:E1, (mkdir_ok ev) eqn:E2, (download_ok ev) eqn:E3,
    (copy_ok ev) eqn:E4, (open_ok ev) eqn:E5, (localUri ev) as [uri|] eqn:Huri;
    try done.
  simpl in C. apply negb_true_iff in C.
  unfold ensureDatabaseReady, getInfoAsync, makeDirectoryAsync, downloadAsync, copyAsync.
  unfold target_path, sqlite_path in *.
  rewrite E1, E2, E3, E4, Huri. run. simpl.
  rewrite Hnone, C. rewrite bool_decide_eq_false_2 by (by intros [? ?]). simpl.
  destruct (bool_decide _) eqn:Hdir; simpl; rewrite lookup_insert_eq;
    (eexists; split; [reflexivity|]); simpl; rewrite lookup_insert_eq;
    repeat split; eauto.
Qed.

Lemma cooperative_open ev : cooperative ev = true → open_ok ev = true.
Proof.
  unfold cooperative. intros C.
  destruct (getInfo_ok ev), (mkdir_ok ev), (download_ok ev), (copy_ok ev), (open_ok ev);
    done.
Qed.

Lemma initDatabase_fresh ev w :
  cooperative ev = true →
  db w = None →
  files w !! target_path w (activeVersion w) = None →
  let packaged := bundle w (asset (VERSION_CONFIG (activeVersion w))) in
  ∃ w2, initDatabase ev w = (Ok (opened_as w), w2) ∧
    database_of w2 (opened_as w) = Ok packaged ∧
    files w2 !! target_path w (activeVersion w) = Some (DbFile packaged) ∧
    connections w2 = opened_as w :: connections w ∧
    activeVersion w2 = activeVersion w ∧ db w2 = Some (opened_as w) ∧
    queried w2 = queried w.
Proof.
  intros C Hdb Hnone packaged.
  destruct (ensureDatabaseReady_fresh ev (activeVersion w) w C Hnone)
    as (w1 & Hens & Hfile & Hdd & Hb & Hc & Hn & Hcr & Hq & Hst & Hav & Hdb1 & _).
  unfold initDatabase. run. rewrite Hdb, Hens.
  unfold openDatabaseAsync. rewrite (cooperative_open _ C). run. simpl.
  unfold target_path, sqlite_path in *. rewrite Hdd, Hfile.
  rewrite bool_decide_eq_true_2 by eauto. simpl.
  unfold opened_as. rewrite Hn.
  eexists; split; [reflexivity|].
  unfold database_of, sqlite_path; simpl.
  rewrite Hdd, Hfile, Hc, Hav, Hq.
  rewrite bool_decide_eq_true_2 by (apply elem_of_cons; by left). done.
Qed.

(** X2. On a fresh installation (no connection held, no database file for
    the active translation) and under a platform that answers every call,
    the first [getVerses] installs the packaged database of the active
    translation, opens one connection to it, and returns what the
    translation's verse statement selects from that packaged database. *)
Theorem first_query_reads_packaged_database ev w bookId chapter :
  cooperative ev = true →
  db w = None →
  files w !! target_path w (activeVersion w) = None →
  let cfg := VERSION_CONFIG (activeVersion w) in
  let w' := exec (getVerses ev bookId chapter) w in
  files w' !! target_path w (activeVersion w) = Some (DbFile (bundle w (asset cfg))) ∧
  eval (getVerses ev bookId chapter) w =
    match run_verses (versesQuery cfg) (bundle w (asset cfg)) bookId chapter with
    | Some rows => Ok rows
    | None => Throw (Error "no such table")
    end ∧
  db w' = Some (opened_as w) ∧ connections w' = opened_as w :: connections w.
Proof.
  intros C Hdb Hnone cfg w'.
  destruct (initDatabase_fresh ev w C Hdb Hnone)
    as (w2 & Hinit & Hd & Hfile & Hc & Hav & Hdb2 & Hq).
  unfold w', exec, eval. rewrite getVerses_unfold, Hinit, Hd, Hav. fold cfg.
  destruct (run_verses _ _ _ _); simpl; done.
Qed.

Lemma first_query_reads_packaged_database_witness :
  eval (getVerses calm 1 1) installed = Ok [gen_1_1; gen_1_2].
Proof.
  pose proof (first_query_reads_packaged_database calm installed 1 1) as H.
  simpl in H. destruct H as (_ & H & _); [reflexivity..|]. rewrite H. reflexivity.
Defined.

(** X3. When the asset has no local URI after the download, [initDatabase]
    throws "Failed to get local URI for database asset: <file name>", holds
    no connection, and has neither copied anything nor created the database
    file; a later call under a platform that answers then succeeds. *)
Theorem initDatabase_without_local_uri ev ev' w :
  getInfo_ok ev = true → mkdir_ok ev = true → download_ok ev = true →
  localUri ev = None ∨ localUri ev = Some EmptyString →
  db w = None →
  files w !! target_path w (activeVersion w) = None →
  let name := dbName (VERSION_CONFIG (activeVersion w)) in
  let w' := exec (initDatabase ev) w in
  eval (initDatabase ev) w =
    Throw (Error ("Failed to get local URI for database asset: " +:+ name)) ∧
  db w' = None ∧ connections w' = connections w ∧ copies w' = copies w ∧
  files w' !! target_path w (activeVersion w) = None ∧
  (cooperative ev' = true → eval (initDatabase ev') w' = Ok (opened_as w)).
Proof.
  intros E1 E2 E3 Huri Hdb Hnone name w'.
  assert (∃ w1, initDatabase ev w =
            (Throw (Error ("Failed to get local URI for database asset: " +:+ name)), w1) ∧
          db w1 = None ∧ connections w1 = connections w ∧ copies w1 = copies w ∧
          files w1 !! target_path w (activeVersion w) = None ∧
          documentDirectory w1 = documentDirectory w ∧
          activeVersion w1 = activeVersion w ∧ next_hid w1 = next_hid w) as (w1 & Hrun & R).
  { pose proof (target_path_not_empty w (activeVersion w)) as N1.
    pose proof (target_path_not_directory w (activeVersion w)) as N2.
    unfold initDatabase, ensureDatabaseReady, getInfoAsync, makeDirectoryAsync,
      downloadAsync, copyAsync.
    unfold target_path, sqlite_path in *.
    rewrite E1, E2, E3. run. simpl. rewrite Hdb, Hnone.
    rewrite bool_decide_eq_false_2 by (by intros [? ?]). simpl.
    destruct Huri as [-> | ->]; destruct (bool_decide _) eqn:Hdir; simpl;
      (eexists; split; [reflexivity|]); simpl;
      rewrite ?lookup_insert_ne by done; done. }
  unfold w', eval, exec. rewrite Hrun. simpl.
  destruct R as (Hdb1 & Hc & Hcp & Hfile & Hdd & Hav & Hn).
  repeat split; try done.
  intros C.
  assert (target_path w1 (activeVersion w1) = target_path w (activeVersion w)) as Ht
    by (unfold target_path, sqlite_path; by rewrite Hdd, Hav).
  destruct (initDatabase_fresh ev' w1 C Hdb1) as (w2 & Hinit & _).
  { by rewrite Ht. }
  rewrite Hinit. simpl. unfold opened_as. by rewrite Hn, Hav.
Qed.

Lemma initDatabase_without_local_uri_witness :
  eval (initDatabase no_local_uri) installed =
    Throw (Error "Failed to get local URI for database asset: bible_cuv.db") ∧
  eval (initDatabase calm) (exec (initDatabase no_local_uri) installed) =
    Ok {| hid := 0; hname := "bible_cuv.db" |}.
Proof.
  pose proof (initDatabase_without_local_uri no_local_uri calm installed) as H.
  simpl in H. destruct H as (H1 & _ & _ & _ & _ & H2); try reflexivity.
  - by left.
  - split; [exact H1 | apply H2; reflexivity].
Defined.

(** *** Changing the translation *)

(** X4. A call of [setActiveBibleVersion] for another translation that
    returns leaves that translation active and holds a new, open connection
    under its file name; the connection held before is no longer open when
    its close was accepted, and the next [getBooks] runs on the new
    connection. *)
Theorem setActiveBibleVersion_switches ev version w w' :
  tidy w → version ≠ activeVersion w →
  setActiveBibleVersion ev version w = (Ok tt, w') →
  let h := {| hid := next_hid w; hname := dbName (VERSION_CONFIG version) |} in
  activeVersion w' = version ∧ db w' = Some h ∧ h ∈ connections w' ∧
  (∀ h0, db w = Some h0 → close_ok ev = true → h0 ∉ connections w') ∧
  (∀ ev2 rows w2, getBooks ev2 w' = (Ok rows, w2) → head (queried w2) = Some h).
Proof.
  intros T Hne Hrun h.
  rewrite setActiveBibleVersion_unfold in Hrun by done.
  set (w0 := set_activeVersion version (released ev w)) in *.
  pose proof (initDatabase_outcome ev w0) as O.
  destruct (initDatabase ev w0) as [[h1|e] w1] eqn:Hinit; simpl in Hrun; [|discriminate Hrun].
  injection Hrun as <-.
  destruct O as (Hav & _ & _ & Hdb & O).
  assert (db w0 = None) as Hdb0.
  { unfold w0, released. destruct (db w) eqn:E; [|done]. destruct (close_ok ev); done. }
  destruct O as [[O _]|(_ & Hh & Hc & _)]; [congruence|].
  assert (next_hid w0 = next_hid w ∧ activeVersion w0 = version) as [Hn Hv].
  { unfold w0, released. destruct (db w) eqn:E; [|done]. destruct (close_ok ev); done. }
  assert (h1 = h) as -> by (rewrite Hh; unfold opened_as, h; by rewrite Hn, Hv).
  split; [congruence|]. split; [done|].
  split; [rewrite Hc; apply elem_of_cons; by left|].
  split.
  - intros h0 Hh0 Hclose. rewrite Hc.
    destruct T as (Tc & _ & Tn & _).
    assert (h0 ∈ connections w) as Hin
      by (rewrite Tc, Hh0; cbn; apply elem_of_cons; by left).
    rewrite Forall_forall in Tn. apply Tn in Hin.
    apply not_elem_of_cons; split.
    + intros ->. simpl in Hin. lia.
    + unfold w0, released. rewrite Hh0, Hclose. simpl.
      rewrite list_elem_of_filter. tauto.
  - intros ev2 rows w2 Hq.
    destruct (query_on_held_connection ev2 w1) as [Q _].
    destruct (Q _ _ Hq) as (h2 & Hdb2 & Hq2).
    rewrite Hq2. simpl. rewrite <- Hdb2.
    rewrite getBooks_unfold in Hq.
    pose proof (initDatabase_outcome ev2 w1) as O2.
    destruct (initDatabase ev2 w1) as [[h3|e] w3]; simpl in Hq; [|discriminate Hq].
    destruct O2 as (_ & _ & _ & Hdb3 & [[Hsome ->]|[Hnone _]]); [|congruence].
    destruct (database_of w1 h3); [|discriminate Hq].
    destruct (run_books _ _); [|discriminate Hq].
    injection Hq as _ <-. simpl. congruence.
Qed.

Lemma setActiveBibleVersion_switches_witness :
  activeVersion installed_asv = asv ∧
  db installed_asv = Some {| hid := 0; hname := "ASV.db" |}.
Proof.
  destruct (setActiveBibleVersion_switches calm asv installed installed_asv)
    as (H1 & H2 & _).
  - apply tidy_started. repeat split; reflexivity.
  - discriminate.
  - vm_compute. reflexivity.
  - split; [exact H1|exact H2].
Defined.

(** *** The book list *)

#[local] Instance by_SN_total : Total by_SN.
Proof. intros x y. unfold by_SN. lia. Qed.

#[local] Instance by_SN_trans : Transitive by_SN.
Proof. intros x y z. unfold by_SN. lia. Qed.

Lemma run_books_sorted q d rows : run_books q d = Some rows → StronglySorted by_SN rows.
Proof.
  unfold run_books. destruct q.
  - destruct (BibleID d); simpl; [|done]. intros [= <-].
    apply (StronglySorted_merge_sort _).
  - destruct (ASV_books d); simpl; [|done]. destruct (ASV_verses d); simpl; [|done].
    intros [= <-]. apply (StronglySorted_merge_sort _).
Qed.

Lemma books_strictly_sorted (l : list BibleBook) :
  StronglySorted by_SN l → NoDup (SN <$> l) → Sorted (λ x y, SN x < SN y) l.
Proof.
  induction 1 as [|x l Hl IH Hx]; [constructor|].
  rewrite fmap_cons, NoDup_cons. intros [Hnot Hnd]. constructor; [by apply IH|].
  destruct l as [|y l']; constructor.
  apply Forall_cons in Hx as [Hxy _]. unfold by_SN in Hxy.
  assert (SN x ≠ SN y)
    by (intros E; apply Hnot; rewrite E, fmap_cons; apply elem_of_cons; by left).
  lia.
Qed.

Lemma getBooks_outcome ev w rows w' :
  getBooks ev w = (Ok rows, w') →
  ∃ h w1 d,
    initDatabase ev w = (Ok h, w1) ∧ w' = log_query h w1 ∧
    database_of w1 h = Ok d ∧
    run_books (booksQuery (VERSION_CONFIG (activeVersion w1))) d = Some rows.
Proof.
  rewrite getBooks_unfold.
  destruct (initDatabase ev w) as [[h|e] w1]; [|discriminate].
  destruct (database_of w1 h) as [d|e] eqn:Hd; [|discriminate].
  destruct (run_books _ d) as [rs|] eqn:Hr; [|discriminate].
  intros [= <- <-]. by exists h, w1, d.
Qed.

(** X5. The books [getBooks] returns are in ascending order of serial
    number, strictly when no serial number repeats; for the CUV and CNV
    files they are the rows of the [BibleID] table of the database the
    module holds, rearranged. *)
Theorem getBooks_ordered ev w rows w' :
  getBooks ev w = (Ok rows, w') →
  Sorted by_SN rows ∧
  (NoDup (SN <$> rows) → Sorted (λ x y, SN x < SN y) rows) ∧
  (activeVersion w ≠ asv →
   ∃ h d stored, db w' = Some h ∧ database_of w' h = Ok d ∧
     BibleID d = Some stored ∧ rows ≡ₚ stored).
Proof.
  intros H. destruct (getBooks_outcome _ _ _ _ H) as (h & w1 & d & Hinit & -> & Hd & Hr).
  pose proof (run_books_sorted _ _ _ Hr) as S.
  split; [by apply StronglySorted_Sorted|]. split; [by apply books_strictly_sorted|].
  intros Hv. pose proof (initDatabase_outcome ev w) as O. rewrite Hinit in O.
  destruct O as (Hav & _ & _ & Hdb & _).
  exists h, d. rewrite Hav in Hr.
  assert (booksQuery (VERSION_CONFIG (activeVersion w)) = SELECT_BibleID) as Hq
    by (by destruct (activeVersion w)).
  rewrite Hq in Hr. simpl in Hr. destruct (BibleID d) as [stored|] eqn:Hst; [|done].
  injection Hr as <-. exists stored. repeat split; try done.
  apply merge_sort_Permutation.
Qed.

Lemma getBooks_ordered_witness :
  Sorted by_SN [genesis; psalms] ∧ eval (getBooks calm) installed = Ok [genesis; psalms].
Proof.
  assert (getBooks calm installed =
            (Ok [genesis; psalms], exec (getBooks calm) installed)) as H
    by (vm_compute; reflexivity).
  split; [exact (proj1 (getBooks_ordered _ _ _ _ H))|].
  unfold eval. by rewrite H.
Defined.

Lemma max_of_chapters c cs :
  foldr Z.max c cs ∈ c :: cs ∧ Forall (λ x, x ≤ foldr Z.max c cs) (c :: cs).
Proof.
  induction cs as [|x cs [IHin IHle]]; simpl.
  - split; [apply elem_of_cons; by left|]. repeat constructor. lia.
  - apply Forall_cons in IHle as [Hc Hcs]. split.
    + destruct (Z.max_spec x (foldr Z.max c cs)) as [[_ ->]|[_ ->]].
      * apply elem_of_cons in IHin as [E|E]; apply elem_of_cons; [by left|right].
        apply elem_of_cons. by right.
      * apply elem_of_cons. right. apply elem_of_cons. by left.
    + repeat constructor; try lia.
      eapply Forall_impl; [exact Hcs|]. simpl. lia.
Qed.

Lemma asv_book_row_spec vs a b :
  asv_book_row vs a = Some b →
  SN b = b_id a ∧ FullName b = b_name a ∧ ShortName b = b_name a ∧
  NewOrOld b = (if b_id a <=? 39 then 0 else 1) ∧
  (∃ v, v ∈ vs ∧ v_book_id v = b_id a ∧ v_chapter v = ChapterNumber b) ∧
  (∀ v, v ∈ vs → v_book_id v = b_id a → v_chapter v ≤ ChapterNumber b).
Proof.
  unfold asv_book_row.
  destruct (v_chapter <$> filter _ vs) as [|c cs] eqn:E; [done|].
  intros [= <-]. simpl. repeat split; try done.
  - destruct (max_of_chapters c cs) as [Hin _]. rewrite <- E in Hin.
    apply list_elem_of_fmap in Hin as (v & Hv & Hin).
    apply list_elem_of_filter in Hin as [? ?]. by exists v.
  - intros v Hv Hid. destruct (max_of_chapters c cs) as [_ Hle]. rewrite <- E in Hle.
    rewrite Forall_forall in Hle. apply Hle.
    apply list_elem_of_fmap. exists v. split; [done|]. by apply list_elem_of_filter.
Qed.

Lemma group_by_id_spec bs : ∀ seen,
  NoDup (b_id <$> group_by_id bs seen) ∧
  (∀ a, a ∈ group_by_id bs seen → a ∈ bs ∧ b_id a ∉ seen) ∧
  (∀ a, a ∈ bs → b_id a ∉ seen → b_id a ∈ b_id <$> group_by_id bs seen).
Proof.
  induction bs as [|b bs IH]; intros seen; simpl.
  - split; [constructor|]. split; intros a Ha; by apply elem_of_nil in Ha.
  - case_bool_decide as Hb.
    + destruct (IH seen) as (N & S1 & S2). split; [done|]. split.
      * intros a Ha. destruct (S1 a Ha). split; [apply elem_of_cons; by right|done].
      * intros a Ha Hs. apply elem_of_cons in Ha as [->|Ha]; [done|]. by apply S2.
    + destruct (IH (b_id b :: seen)) as (N & S1 & S2). split; [|split].
      * rewrite fmap_cons. constructor; [|done].
        intros Hin. apply list_elem_of_fmap in Hin as (a & Ea & Ha).
        destruct (S1 a Ha) as [_ Hn]. apply Hn. rewrite <- Ea. apply elem_of_cons. by left.
      * intros a Ha. apply elem_of_cons in Ha as [->|Ha].
        { split; [apply elem_of_cons; by left|done]. }
        destruct (S1 a Ha) as [? Hn]. split; [apply elem_of_cons; by right|].
        intros Hs. apply Hn. apply elem_of_cons. by right.
      * intros a Ha Hs. rewrite fmap_cons.
        destruct (decide (b_id a = b_id b)) as [E|E].
        { rewrite E. apply elem_of_cons. by left. }
        apply elem_of_cons in Ha as [->|Ha]; [done|].
        apply elem_of_cons. right. apply S2; [done|]. by apply not_elem_of_cons.
Qed.

Lemma omap_rows_sublist vs l :
  SN <$> omap (asv_book_row vs) l `sublist_of` b_id <$> l.
Proof.
  induction l as [|a l IH]; simpl; [constructor|].
  destruct (asv_book_row vs a) as [b|] eqn:E; simpl.
  - destruct (asv_book_row_spec _ _ _ E) as [-> _]. by constructor.
  - by constructor.
Qed.

(** X6. For the ASV translation [getBooks] derives the book list from the
    verses: each book that has a verse is listed once, under the name of
    its row in [ASV_books], in the Old Testament exactly when its id is at
    most 39, and with the largest chapter number among its verses as its
    number of chapters; a book without a verse is not listed. *)
Theorem getBooks_asv ev w rows w' :
  activeVersion w = asv →
  getBooks ev w = (Ok rows, w') →
  ∃ h d bs vs,
    db w' = Some h ∧ database_of w' h = Ok d ∧
    ASV_books d = Some bs ∧ ASV_verses d = Some vs ∧
    NoDup (SN <$> rows) ∧
    Forall (λ b,
      (∃ a, a ∈ bs ∧ b_id a = SN b ∧ b_name a = FullName b ∧ b_name a = ShortName b) ∧
      NewOrOld b = (if SN b <=? 39 then 0 else 1) ∧
      (∃ v, v ∈ vs ∧ v_book_id v = SN b ∧ v_chapter v = ChapterNumber b) ∧
      (∀ v, v ∈ vs → v_book_id v = SN b → v_chapter v ≤ ChapterNumber b)) rows ∧
    (∀ a v, a ∈ bs → v ∈ vs → v_book_id v = b_id a → b_id a ∈ SN <$> rows).
Proof.
  intros Hv H. destruct (getBooks_outcome _ _ _ _ H) as (h & w1 & d & Hinit & -> & Hd & Hr).
  pose proof (initDatabase_outcome ev w) as O. rewrite Hinit in O.
  destruct O as (Hav & _ & _ & Hdb & _).
  rewrite Hav, Hv in Hr. simpl in Hr.
  destruct (ASV_books d) as [bs|] eqn:Hbs; [|done].
  destruct (ASV_verses d) as [vs|] eqn:Hvs; [|done].
  assert (rows = merge_sort by_SN (omap (asv_book_row vs) (group_by_id bs []))) as ->
    by (simpl in Hr; congruence).
  clear Hr. exists h, d, bs, vs. repeat split; try done.
  - rewrite merge_sort_Permutation.
    eapply sublist_NoDup; [|apply omap_rows_sublist].
    apply (group_by_id_spec bs []).
  - rewrite merge_sort_Permutation. apply Forall_forall. intros b Hb.
    apply list_elem_of_omap in Hb as (a & Ha & E).
    destruct (asv_book_row_spec _ _ _ E) as (E1 & E2 & E3 & E4 & E5 & E6).
    rewrite E1. repeat split; try done.
    exists a. split; [|done]. by apply (group_by_id_spec bs []).
  - intros a v Ha Hv' Hid. rewrite merge_sort_Permutation.
    destruct (group_by_id_spec bs []) as (_ & _ & S2).
    specialize (S2 a Ha (not_elem_of_nil _)).
    apply list_elem_of_fmap in S2 as (a' & Ea & Ha').
    destruct (asv_book_row vs a') as [b|] eqn:E.
    + destruct (asv_book_row_spec _ _ _ E) as (E1 & _).
      apply list_elem_of_fmap. exists b. split; [congruence|].
      apply list_elem_of_omap. by exists a'.
    + exfalso. unfold asv_book_row in E.
      destruct (v_chapter <$> filter _ vs) as [|c cs] eqn:F; [|done].
      apply fmap_nil_inv in F.
      assert (v ∈ filter (λ v, v_book_id v = b_id a') vs) as Hin
        by (apply list_elem_of_filter; split; [congruence|done]).
      rewrite F in Hin. by apply elem_of_nil in Hin.
Qed.

Lemma getBooks_asv_witness :
  ∃ rows, eval (getBooks calm) installed_asv = Ok rows ∧
          (ChapterNumber <$> rows) = [50; 3] ∧ NoDup (SN <$> rows).
Proof.
  set (rows := [ {| SN := 1; FullName := "Genesis"; ShortName := "Genesis";
                    NewOrOld := 0; ChapterNumber := 50 |};
                 {| SN := 19; FullName := "Psalms"; ShortName := "Psalms";
                    NewOrOld := 0; ChapterNumber := 3 |} ]).
  assert (getBooks calm installed_asv = (Ok rows, exec (getBooks calm) installed_asv)) as H
    by (vm_compute; reflexivity).
  exists rows. split; [unfold eval; by rewrite H|]. split; [reflexivity|].
  destruct (getBooks_asv calm installed_asv rows _ eq_refl H)
    as (h & d & bs & vs & _ & _ & _ & _ & N & _).
  exact N.
Defined.

(** X7. [getBook] does what [getBooks] does to the store and fails as it
    fails; it returns a listed book whose serial number is the one asked
    for, and null exactly when no listed book has that serial number. *)
Theorem getBook_by_serial ev bookId w :
  exec (getBook ev bookId) w = exec (getBooks ev) w ∧
  match eval (getBook ev bookId) w with
  | Ok (Some b) =>
      SN b = bookId ∧ ∃ rows, eval (getBooks ev) w = Ok rows ∧ b ∈ rows
  | Ok None =>
      ∃ rows, eval (getBooks ev) w = Ok rows ∧ Forall (λ b, SN b ≠ bookId) rows
  | Throw e => eval (getBooks ev) w = Throw e
  end.
Proof.
  unfold getBook, exec, eval. run.
  destruct (getBooks ev w) as [[rows|e] w1]; simpl; [|done].
  split; [done|].
  destruct (find _ rows) as [b|] eqn:F.
  - apply find_some in F as [Hin Hsn]. split; [lia|].
    exists rows. split; [done|]. by apply list_elem_of_In.
  - exists rows. split; [done|]. apply Forall_forall. intros b Hb.
    apply list_elem_of_In in Hb.
    pose proof (find_none _ _ F b Hb) as N. simpl in N. lia.
Qed.

(** *** Posts that were read *)

Lemma includes_numbers ids postId :
  includes (JArr (JNum <$> ids)) postId = Ok (bool_decide (postId ∈ ids)).
Proof.
  unfold includes. f_equal. induction ids as [|x ids IH].
  { rewrite bool_decide_eq_false_2 by apply not_elem_of_nil. done. }
  rewrite fmap_cons. cbn [existsb]. rewrite IH. destruct (Z.eqb_spec x postId) as [->|N].
  - simpl. symmetry. apply bool_decide_eq_true_2. apply elem_of_cons. by left.
  - simpl. apply bool_decide_ext. rewrite elem_of_cons. intuition congruence.
Qed.

(** What [markPostAsRead] does when storage answers and holds a list of ids. *)
Lemma markPostAsRead_outcome ev postId w ids :
  storage_ok ev → holds_read_posts (AsyncStorage w) ids →
  markPostAsRead ev postId w =
    (Ok tt,
     if bool_decide (postId ∈ ids) then w
     else set_AsyncStorage
            (λ kv, <[READ_POSTS_KEY := Doc (JArr (JNum <$> (ids ++ [postId])))]> kv) w).
Proof.
  intros [Hget Hset] Hkv. unfold holds_read_posts in Hkv.
  unfold markPostAsRead, getItem, setItem. run. rewrite Hget, Hset.
  destruct (AsyncStorage w !! READ_POSTS_KEY) as [t|] eqn:E.
  - subst t. cbn -[includes]. rewrite includes_numbers.
    case_bool_decide; cbn; [done|]. by rewrite fmap_app.
  - subst ids. cbn. done.
Qed.

Lemma getReadPostIds_numbers ev w ids :
  getItem_ok ev = true → holds_read_posts (AsyncStorage w) ids →
  eval (getReadPostIds ev) w = Ok (JArr (JNum <$> ids)).
Proof.
  intros Hget Hkv. unfold holds_read_posts in Hkv.
  unfold eval, getReadPostIds, getItem. run. rewrite Hget.
  destruct (AsyncStorage w !! READ_POSTS_KEY) as [t|]; subst; done.
Qed.

(** X8. When storage answers and holds a list of post ids,
    [markPostAsRead] leaves the list with the post in it: the id is
    appended when it was absent, the ids already there keep their order,
    no id is entered twice, and [getReadPostIds] then returns this list. *)
Theorem markPostAsRead_marks ev postId w ids :
  storage_ok ev → holds_read_posts (AsyncStorage w) ids →
  let w' := exec (markPostAsRead ev postId) w in
  let ids' := if bool_decide (postId ∈ ids) then ids else ids ++ [postId] in
  holds_read_posts (AsyncStorage w') ids' ∧
  (∀ ev2, getItem_ok ev2 = true →
          eval (getReadPostIds ev2) w' = Ok (JArr (JNum <$> ids'))) ∧
  postId ∈ ids' ∧
  (NoDup ids → NoDup ids').
Proof.
  intros Hok Hkv w' ids'.
  assert (holds_read_posts (AsyncStorage w') ids') as Hkv'.
  { unfold w', ids', exec. rewrite (markPostAsRead_outcome _ _ _ _ Hok Hkv).
    case_bool_decide; [done|]. unfold holds_read_posts. cbn.
    by rewrite lookup_insert_eq. }
  split; [done|]. split; [intros ev2 H2; by apply getReadPostIds_numbers|].
  unfold ids'. case_bool_decide as Hin.
  - done.
  - split; [apply elem_of_app; right; by apply list_elem_of_singleton|].
    intros N. apply NoDup_app. split; [done|]. split; [|apply NoDup_singleton].
    intros x Hx Hx'. apply list_elem_of_singleton in Hx'. by subst.
Qed.

Lemma markPostAsRead_marks_witness :
  eval (getReadPostIds calm) (exec (markPostAsRead calm 7) installed) = Ok (JArr [JNum 7]).
Proof.
  apply (markPostAsRead_marks calm 7 installed []); [by split|reflexivity..].
Defined.

(** X9. Marking a post as read a second time changes nothing, whatever
    storage does at the second call; and marking a post that is in the
    stored list changes nothing at all. *)
Theorem markPostAsRead_once ev1 ev2 postId w ids :
  storage_ok ev1 → holds_read_posts (AsyncStorage w) ids →
  let w1 := exec (markPostAsRead ev1 postId) w in
  exec (markPostAsRead ev2 postId) w1 = w1 ∧
  (postId ∈ ids → w1 = w).
Proof.
  intros Hok Hkv w1.
  set (ids' := if bool_decide (postId ∈ ids) then ids else ids ++ [postId]).
  assert (holds_read_posts (AsyncStorage w1) ids' ∧ postId ∈ ids') as [Hkv' Hin].
  { unfold w1, ids', exec. rewrite (markPostAsRead_outcome _ _ _ _ Hok Hkv).
    case_bool_decide; [done|]. split.
    - unfold holds_read_posts. cbn. by rewrite lookup_insert_eq.
    - apply elem_of_app; right. by apply list_elem_of_singleton. }
  split.
  - unfold holds_read_posts in Hkv'.
    unfold exec, markPostAsRead, getItem, setItem. run.
    destruct (getItem_ok ev2); [|done].
    destruct (AsyncStorage w1 !! READ_POSTS_KEY) as [t|] eqn:E.
    + subst t. cbn -[includes]. rewrite includes_numbers.
      by rewrite bool_decide_eq_true_2.
    + subst ids'. rewrite Hkv' in Hin. by apply elem_of_nil in Hin.
  - intros Hin0. unfold w1, exec. rewrite (markPostAsRead_outcome _ _ _ _ Hok Hkv).
    by rewrite bool_decide_eq_true_2.
Qed.

Lemma markPostAsRead_once_witness :
  let w1 := exec (markPostAsRead calm 7) installed in
  exec (markPostAsRead calm 7) w1 = w1.
Proof.
  apply (markPostAsRead_once calm calm 7 installed []); [by split|reflexivity].
Defined.

(** X10. [markPostAsRead] never throws.  It leaves storage as it was when
    the read or the write is rejected, and also when the stored text is not
    empty and does not parse to an array: what it cannot read it does not
    overwrite. *)
Theorem markPostAsRead_quiet ev postId w :
  eval (markPostAsRead ev postId) w = Ok tt ∧
  (getItem_ok ev = false ∨ setItem_ok ev = false → exec (markPostAsRead ev postId) w = w) ∧
  (∀ t, AsyncStorage w !! READ_POSTS_KEY = Some t → text_truthy t = true →
        (∀ l, JSON_parse t ≠ Ok (JArr l)) →
        exec (markPostAsRead ev postId) w = w).
Proof.
  split; [apply try_catch_unit_returns|]. split.
  - intros H. unfold exec, markPostAsRead, getItem, setItem. run.
    destruct (getItem_ok ev); [|done]. destruct H as [H|H]; [done|]. rewrite H.
    destruct (AsyncStorage w !! READ_POSTS_KEY) as [t|]; cbn -[includes push].
    + destruct (text_truthy t); cbn -[includes push].
      * destruct (JSON_parse t) as [j|e]; cbn -[includes push]; [|done].
        destruct (includes j postId) as [[]|]; cbn -[push]; try done.
        by destruct (push j postId).
      * done.
    + done.
  - intros t Ht Htrue Hparse. unfold exec, markPostAsRead, getItem, setItem. run.
    destruct (getItem_ok ev); [|done]. rewrite Ht, Htrue. cbn -[includes push].
    destruct (JSON_parse t) as [j|e]; cbn -[includes push]; [|done].
    destruct j; cbn; try done.
    + by destruct (String.index _ _ _).
    + by specialize (Hparse l).
Qed.

(** *** Reading progress *)

Lemma progress_key_inj p q :
  PROGRESS_PREFIX +:+ template_num p = PROGRESS_PREFIX +:+ template_num q → p = q.
Proof.
  intros H. apply (inj (String.append PROGRESS_PREFIX)) in H. unfold template_num in H.
  by apply (inj pretty) in H.
Qed.



(** X12. Saving the progress of one post changes no other entry of
    storage: the progress read for any other post and the list of read
    posts are what they were. *)
Theorem reading_progress_per_post ev1 ev2 postId other y w :
  other ≠ postId →
  let w' := exec (saveReadingProgress ev1 postId y) w in
  eval (getReadingProgress ev2 other) w' = eval (getReadingProgress ev2 other) w ∧
  (∀ key, key ≠ PROGRESS_PREFIX +:+ template_num postId →
          AsyncStorage w' !! key = AsyncStorage w !! key) ∧
  eval (getReadPostIds ev2) w' = eval (getReadPostIds ev2) w.
Proof.
  intros Hne w'.
  assert (∀ key, key ≠ PROGRESS_PREFIX +:+ template_num postId →
                 AsyncStorage w' !! key = AsyncStorage w !! key) as Hframe.
  { intros key Hkey. unfold w', exec, saveReadingProgress, setItem. run.
    destruct (setItem_ok ev1); [|done]. cbn. by rewrite lookup_insert_ne. }
  split; [|split; [done|]].
  - unfold eval, getReadingProgress, getItem. run.
    destruct (getItem_ok ev2); [|done]. cbn -[parseFloat_text].
    rewrite Hframe by (intros E; by apply progress_key_inj in E).
    destruct (AsyncStorage w !! _) as [t|]; [destruct (text_truthy t)|]; done.
  - unfold eval, getReadPostIds, getItem. run.
    destruct (getItem_ok ev2); [|done]. cbn. rewrite Hframe by done.
    destruct (AsyncStorage w !! _) as [t|]; [destruct (text_truthy t)|]; try done.
    by destruct (JSON_parse t).
Qed.

Lemma reading_progress_per_post_witness :
  eval (getReadingProgress calm 8) (exec (saveReadingProgress calm 7 1250) installed)
    = Ok (of_Z 0).
Proof.
  destruct (reading_progress_per_post calm calm 7 8 1250 installed) as [H _]; [lia|].
  rewrite H. reflexivity.
Defined.

(** X13. [saveReadingProgress] never throws and stores nothing when the
    write is rejected; [getReadingProgress] is 0 when the read is rejected,
    when nothing was saved for the post and when the saved string is
    empty. *)
Theorem reading_progress_defaults ev ev2 postId y w :
  eval (saveReadingProgress ev postId y) w = Ok tt ∧
  (setItem_ok ev = false → exec (saveReadingProgress ev postId y) w = w) ∧
  (getItem_ok ev2 = false ∨
   AsyncStorage w !! (PROGRESS_PREFIX +:+ template_num postId) = None →
   eval (getReadingProgress ev2 postId) w = Ok (of_Z 0)) ∧
  (AsyncStorage w !! (PROGRESS_PREFIX +:+ template_num postId) = Some (Raw EmptyString) →
   eval (getReadingProgress ev2 postId) w = Ok (of_Z 0)).
Proof.
  split; [apply try_catch_unit_returns|]. split; [|split].
  - intros H. unfold exec, saveReadingProgress, setItem. run. by rewrite H.
  - apply getReadingProgress_never_saved.
  - intros H. unfold eval, getReadingProgress, getItem. run.
    destruct (getItem_ok ev2); [|done]. cbn. by rewrite H.
Qed.

(** *** Highlight keys *)

Lemma string_append_assoc (a b c : string) : (a +:+ b) +:+ c = a +:+ (b +:+ c).
Proof.
  induction a as [|x a IH]; [done|].
  change (String x ((a +:+ b) +:+ c) = String x (a +:+ (b +:+ c))). by f_equal.
Qed.

Lemma pretty_N_go_append x : ∀ s, pretty_N_go x s = pretty_N_go x EmptyString +:+ s.
Proof.
  induction (N.lt_wf_0 x) as [x _ IH]. intros s.
  assert (x = 0 ∨ 0 < x)%N as [->|Hpos] by lia.
  - by rewrite !pretty_N_go_0.
  - rewrite (pretty_N_go_step x s), (pretty_N_go_step x EmptyString) by done.
    rewrite (IH (x `div` 10)%N (N.div_lt x 10 Hpos eq_refl) (String _ s)).
    rewrite (IH (x `div` 10)%N (N.div_lt x 10 Hpos eq_refl) (String _ EmptyString)).
    by rewrite string_append_assoc.
Qed.

Lemma leading_number_digits (neg : bool) x r :
  (0 < x)%N →
  leading_number ((if neg then "-" else EmptyString) +:+ pretty_N_go x (String "-" r))
    = (neg, x, String "-" r).
Proof.
  intros Hpos. unfold leading_number.
  destruct (pretty_N_go_head x (String "-" r) Hpos) as (d & t & Hd & Heq).
  assert (read_sign ((if neg then "-" else EmptyString) +:+ pretty_N_go x (String "-" r))
          = (neg, pretty_N_go x (String "-" r))) as ->.
  { rewrite Heq.
    assert (d = 0 ∨ d = 1 ∨ d = 2 ∨ d = 3 ∨ d = 4 ∨ d = 5 ∨ d = 6 ∨ d = 7 ∨ d = 8 ∨ d = 9)%N
      as Hc by lia.
    destruct neg; (repeat (destruct Hc as [->|Hc]; [reflexivity|])); by subst. }
  destruct (read_digits_pretty x (String "-" r) 0%N 0%nat) as (p & k & -> & _).
  cbn. by rewrite N.add_0_l.
Qed.

Lemma leading_number_pretty (z : Z) r :
  leading_number (pretty z +:+ String "-" r) = (z <? 0, Z.abs_N z, String "-" r).
Proof.
  unfold pretty, pretty_Z. destruct z as [|p|p]; [done| |].
  - unfold pretty, pretty_positive, pretty, pretty_N. rewrite decide_False by done.
    rewrite <- pretty_N_go_append. by apply (leading_number_digits false).
  - unfold pretty, pretty_positive, pretty, pretty_N. rewrite decide_False by done.
    rewrite string_append_assoc, <- pretty_N_go_append.
    by apply (leading_number_digits true).
Qed.

Lemma number_then_dash_inj (z1 z2 : Z) r1 r2 :
  pretty z1 +:+ String "-" r1 = pretty z2 +:+ String "-" r2 → z1 = z2 ∧ r1 = r2.
Proof.
  intros H. apply (f_equal leading_number) in H.
  rewrite !leading_number_pretty in H. injection H as Hs Ha Hr.
  split; [|done].
  destruct (Z.ltb_spec z1 0), (Z.ltb_spec z2 0); try done; lia.
Qed.

(** X14. Two verses have the same highlight key exactly when they have
    the same book, chapter and verse numbers: no two places of the text
    share a key. *)
Theorem getVerseKey_inj v1 v2 :
  getVerseKey v1 = getVerseKey v2 ↔
  VolumeSN v1 = VolumeSN v2 ∧ ChapterSN v1 = ChapterSN v2 ∧ VerseSN v1 = VerseSN v2.
Proof.
  unfold getVerseKey, template_num. split.
  - intros H. change ("-" +:+ ?x) with (String "-" x) in H.
    apply number_then_dash_inj in H as [H1 H].
    change ("-" +:+ ?x) with (String "-" x) in H.
    apply number_then_dash_inj in H as [H2 H].
    apply (inj pretty) in H. done.
  - by intros (-> & -> & ->).
Qed.

(** *** Moving between chapters *)

Lemma handleNextChapter_unfold a :
  handleNextChapter a =
    (Ok tt,
     match currentBook (ui a) with
     | Some current =>
         if currentChapter (ui a) <? ChapterNumber current
         then exec (setCurrentChapter (currentChapter (ui a) + 1)) a
         else if SN current <? 66 then
           match find (λ b, SN b =? SN current + 1) (books (ui a)) with
           | Some nextBook =>
               exec (setCurrentBook (Some nextBook);; setCurrentChapter 1) a
           | None => a
           end
         else a
     | None => a
     end).
Proof.
  unfold handleNextChapter, exec, setCurrentChapter, setCurrentBook. run. unfold modify.
  destruct a as [w [bs cb ch vs ld bt st tr hv rh sm sel al]]. cbn.
  destruct cb as [b|]; cbn; [|done].
  destruct (ch <? ChapterNumber b); cbn; [done|].
  destruct (SN b <? 66); cbn; [|done].
  by destruct (find _ bs).
Qed.

Lemma handlePrevChapter_unfold a :
  handlePrevChapter a =
    (Ok tt,
     if 1 <? currentChapter (ui a)
     then exec (setCurrentChapter (currentChapter (ui a) - 1)) a
     else
       match currentBook (ui a) with
       | Some current =>
           if 1 <? SN current then
             match find (λ b, SN b =? SN current - 1) (books (ui a)) with
             | Some prevBook =>
                 exec (setCurrentBook (Some prevBook);;
                       setCurrentChapter (ChapterNumber prevBook)) a
             | None => a
             end
           else a
       | None => a
       end).
Proof.
  unfold handlePrevChapter, exec, setCurrentChapter, setCurrentBook. run. unfold modify.
  destruct a as [w [bs cb ch vs ld bt st tr hv rh sm sel al]]. cbn.
  destruct (1 <? ch); cbn; [done|].
  destruct cb as [b|]; cbn; [|done].
  destruct (1 <? SN b); cbn; [|done].
  by destruct (find _ bs).
Qed.

Lemma find_by_SN sn bs b :
  find (λ x : BibleBook, SN x =? sn) bs = Some b → SN b = sn ∧ b ∈ bs.
Proof.
  intros F. apply find_some in F as [Hin Hsn]. split; [lia|]. by apply list_elem_of_In.
Qed.

(** *** The effects of a change of position *)

(** The history effect changes neither the position nor the book list. *)
Lemma saveHistory_frame ev a :
  let a' := exec (saveHistory ev) a in
  currentBook (ui a') = currentBook (ui a) ∧
  currentChapter (ui a') = currentChapter (ui a) ∧
  books (ui a') = books (ui a).
Proof.
  destruct a as [w s].
  unfold exec, saveHistory, getItem, setItem, setReadingHistory. run. unfold gets, modify.
  cbn [fst snd ui sys].
  destruct (currentBook s) as [b|] eqn:Hb; [|by cbn].
  destruct (negb (currentChapter s =? 0)); [|by cbn].
  destruct (getItem_ok ev); [|by cbn].
  cbn -[Nat.ltb take filter_other_positions].
  repeat (first [ match goal with
                  | |- context [Nat.ltb ?x ?y] => destruct (Nat.ltb x y)
                  end
                | case_match ];
          cbn -[Nat.ltb take filter_other_positions]; try done).
  all: by simplify_eq.
Qed.

Lemma loadVerses_frame ev bookId chapter a :
  let a' := exec (loadVerses ev bookId chapter) a in
  eval (loadVerses ev bookId chapter) a = Ok tt ∧
  currentBook (ui a') = currentBook (ui a) ∧
  currentChapter (ui a') = currentChapter (ui a) ∧
  books (ui a') = books (ui a).
Proof.
  unfold exec, eval, loadVerses, setLoading, setVerses. run. unfold modify.
  cbn [fst snd sys ui].
  destruct (getVerses ev bookId chapter (sys a)) as [[rows|e] w']; cbn; done.
Qed.

Lemma position_effects_frame ev a :
  let a' := exec (position_effects ev) a in
  eval (position_effects ev) a = Ok tt ∧
  currentBook (ui a') = currentBook (ui a) ∧
  currentChapter (ui a') = currentChapter (ui a) ∧
  books (ui a') = books (ui a).
Proof.
  pose proof (saveHistory_returns ev a) as R.
  pose proof (saveHistory_frame ev a) as (F1 & F2 & F3).
  unfold exec, eval in *. unfold position_effects. run. unfold gets.
  destruct (saveHistory ev a) as [r a1]. cbn [fst snd] in *. subst r.
  destruct (currentBook (ui a1)) as [b|] eqn:Hb.
  - pose proof (loadVerses_frame ev (SN b) (currentChapter (ui a1)) a1) as (L0 & L1 & L2 & L3).
    unfold exec, eval in *.
    destruct (loadVerses ev (SN b) (currentChapter (ui a1)) a1) as [r a2].
    cbn [fst snd] in *. subst r. split; [done|]. split_and!; congruence.
  - cbn [fst snd]. split; [done|]. split_and!; congruence.
Qed.

(** A handler that returns, then the render: the effects leave the position
    the handler set and the book list. *)
Lemma rendered_position ev handler v :
  eval handler v = Ok tt →
  let v1 := exec handler v in
  let v' := exec (rendered ev handler) v in
  eval (rendered ev handler) v = Ok tt ∧
  position_shown (ui (page v')) = position_shown (ui (page v1)) ∧
  books (ui (page v')) = books (ui (page v1)) ∧
  panel v' = panel v1 ∧
  (position_shown (ui (page v1)) = position_shown (ui (page v)) → v' = v1).
Proof.
  unfold eval, exec, rendered. run. unfold gets. cbn [fst snd].
  destruct (handler v) as [r v1]. cbn [fst snd]. intros ->.
  unfold position_shown. case_bool_decide as Hsame; cbn [fst snd].
  - done.
  - pose proof (position_effects_frame ev (page v1)) as (E0 & E1 & E2 & E3).
    unfold eval, exec, on_page in *.
    destruct (position_effects ev (page v1)) as [r a']. cbn [fst snd page panel] in *.
    subst r. split_and!; try done; [congruence|].
    intros [= ? ?]. by destruct Hsame.
Qed.

(** The two handlers undo each other. *)
Lemma handlers_next_then_prev a book :
  currentBook (ui a) = Some book →
  find (λ x, SN x =? SN book) (books (ui a)) = Some book →
  1 ≤ SN book ≤ 66 →
  1 ≤ currentChapter (ui a) ≤ ChapterNumber book →
  (ui (exec handleNextChapter a) ≠ ui a →
   exec handlePrevChapter (exec handleNextChapter a) = a) ∧
  (ui (exec handlePrevChapter a) ≠ ui a →
   exec handleNextChapter (exec handlePrevChapter a) = a).
Proof.
  intros Hb Hlisted Hsn Hch. destruct a as [w s]. cbn [ui] in *. split.
  - unfold exec at 1 3. rewrite handleNextChapter_unfold. cbn [snd ui]. rewrite Hb.
    destruct (Z.ltb_spec (currentChapter s) (ChapterNumber book)) as [Hlt|Hge].
    + intros _. unfold exec. rewrite handlePrevChapter_unfold.
      unfold setCurrentChapter, exec. run. unfold modify. cbn.
      destruct (Z.ltb_spec 1 (currentChapter s + 1)); [|lia].
      destruct s; cbn in *. f_equal. f_equal; first [lia|congruence].
    + destruct (Z.ltb_spec (SN book) 66) as [H66|H66]; [|done].
      destruct (find (λ b, SN b =? SN book + 1) (books s)) as [nb|] eqn:F; [|done].
      intros _. apply find_by_SN in F as [Hn _].
      unfold exec. rewrite handlePrevChapter_unfold.
      unfold setCurrentChapter, setCurrentBook, exec. run. unfold modify. cbn.
      destruct (Z.ltb_spec 1 (SN nb)); [|lia].
      replace (SN nb - 1) with (SN book) by lia. rewrite Hlisted.
      destruct s; cbn in *. f_equal. f_equal; first [lia|congruence].
  - unfold exec at 1 3. rewrite handlePrevChapter_unfold. cbn [snd ui]. rewrite Hb.
    destruct (Z.ltb_spec 1 (currentChapter s)) as [Hgt|Hle].
    + intros _. unfold exec. rewrite handleNextChapter_unfold.
      unfold setCurrentChapter, exec. run. unfold modify. cbn. rewrite Hb.
      destruct (Z.ltb_spec (currentChapter s - 1) (ChapterNumber book)); [|lia].
      destruct s; cbn in *. f_equal. f_equal; first [lia|congruence].
    + destruct (Z.ltb_spec 1 (SN book)) as [H1|H1]; [|done].
      destruct (find (λ b, SN b =? SN book - 1) (books s)) as [pb|] eqn:F; [|done].
      intros _. apply find_by_SN in F as [Hn _].
      unfold exec. rewrite handleNextChapter_unfold.
      unfold setCurrentChapter, setCurrentBook, exec. run. unfold modify. cbn.
      rewrite Z.ltb_irrefl.
      destruct (Z.ltb_spec (SN pb) 66); [|lia].
      replace (SN pb + 1) with (SN book) by lia. rewrite Hlisted.
      destruct s; cbn in *. f_equal. f_equal; first [lia|congruence].
Qed.


Lemma chapter_numbers_range book num :
  num ∈ chapter_numbers book ↔ 1 ≤ num ≤ ChapterNumber book.
Proof.
  unfold chapter_numbers. rewrite list_elem_of_fmap. split.
  - intros (i & -> & Hi). apply elem_of_seq in Hi. lia.
  - intros H. exists (Z.to_nat (num - 1)). split; [lia|]. apply elem_of_seq. lia.
Qed.

(** The handlers keep the chapter within the book. *)
Lemma handlers_keep_chapter_in_book v g :
  Forall (λ b, 1 ≤ ChapterNumber b) (books (ui (page v))) →
  placed (ui (page v)) →
  offered v g →
  let v' := exec (handler_of g) v in
  placed (ui (page v')) ∧
  books (ui (page v')) = books (ui (page v)) ∧
  sys (page v') = sys (page v).
Proof.
  intros Hbooks Hplaced Hoff. rewrite Forall_forall in Hbooks.
  destruct v as [a p]. cbn [page ui] in *. unfold placed in *.
  destruct g as [| |book|num]; cbn [handler_of].
  - unfold exec, on_page. cbn [page]. rewrite handlePrevChapter_unfold. cbn [snd page].
    destruct (Z.ltb_spec 1 (currentChapter (ui a))) as [Hgt|Hle].
    { unfold exec, setCurrentChapter. run. unfold modify. cbn.
      destruct (currentBook (ui a)); [|done]. split; [lia|done]. }
    destruct (currentBook (ui a)) as [b|] eqn:Hb; [|by rewrite Hb].
    destruct (1 <? SN b); [|by rewrite Hb].
    destruct (find _ (books (ui a))) as [pb|] eqn:F; [|by rewrite Hb].
    apply find_by_SN in F as [_ Hin]. apply Hbooks in Hin.
    unfold exec, setCurrentChapter, setCurrentBook. run. unfold modify. cbn.
    split; [lia|done].
  - unfold exec, on_page. cbn [page]. rewrite handleNextChapter_unfold. cbn [snd page].
    destruct (currentBook (ui a)) as [b|] eqn:Hb; [|by rewrite Hb].
    destruct (Z.ltb_spec (currentChapter (ui a)) (ChapterNumber b)) as [Hlt|Hge].
    { unfold exec, setCurrentChapter. run. unfold modify. cbn. rewrite Hb.
      split; [lia|done]. }
    destruct (SN b <? 66); [|by rewrite Hb].
    destruct (find _ (books (ui a))) as [nb|] eqn:F; [|by rewrite Hb].
    apply find_by_SN in F as [_ Hin]. apply Hbooks in Hin.
    unfold exec, setCurrentChapter, setCurrentBook. run. unfold modify. cbn.
    split; [lia|done].
  - assert (book ∈ books (ui a)) as Hin.
    { cbn in Hoff. unfold oldTestamentBooks, newTestamentBooks in Hoff.
      destruct (bookTab (ui a)); apply list_elem_of_filter in Hoff as [_ ?]; done. }
    apply Hbooks in Hin.
    unfold exec, pressBook, setShowBookModal, setCurrentBook, setCurrentChapter, setBookTab.
    run_view. cbn. split; [lia|done].
  - destruct Hoff as (b & Hb & Hnum). cbn [page ui] in Hb.
    apply chapter_numbers_range in Hnum.
    unfold exec, pressChapter, setShowChapterModal, setCurrentChapter.
    run_view. cbn. rewrite Hb. done.
Qed.

Lemma handlePrevChapter_cells a b :
  books (ui a) = books (ui b) →
  position_shown (ui a) = position_shown (ui b) →
  position_shown (ui (exec handlePrevChapter a)) =
  position_shown (ui (exec handlePrevChapter b)).
Proof.
  unfold position_shown. intros Hbooks [= Hb Hc].
  unfold exec. rewrite !handlePrevChapter_unfold. cbn [snd]. rewrite Hbooks, Hb, Hc.
  destruct (1 <? currentChapter (ui b)).
  { unfold exec, setCurrentChapter. run. unfold modify. cbn. congruence. }
  destruct (currentBook (ui b)) as [cur|] eqn:E; [|by rewrite Hb, Hc, E].
  destruct (1 <? SN cur); [|by rewrite Hb, Hc, E].
  destruct (find _ (books (ui b))); [|by rewrite Hb, Hc, E].
  unfold exec, setCurrentChapter, setCurrentBook. run. unfold modify. by cbn.
Qed.

Lemma handleNextChapter_cells a b :
  books (ui a) = books (ui b) →
  position_shown (ui a) = position_shown (ui b) →
  position_shown (ui (exec handleNextChapter a)) =
  position_shown (ui (exec handleNextChapter b)).
Proof.
  unfold position_shown. intros Hbooks [= Hb Hc].
  unfold exec. rewrite !handleNextChapter_unfold. cbn [snd]. rewrite Hbooks, Hb, Hc.
  destruct (currentBook (ui b)) as [cur|] eqn:E; [|by rewrite Hb, Hc, E].
  destruct (currentChapter (ui b) <? ChapterNumber cur).
  { unfold exec, setCurrentChapter. run. unfold modify. cbn. congruence. }
  destruct (SN cur <? 66); [|by rewrite Hb, Hc, E].
  destruct (find _ (books (ui b))); [|by rewrite Hb, Hc, E].
  unfold exec, setCurrentChapter, setCurrentBook. run. unfold modify. by cbn.
Qed.

Lemma handler_of_returns g v : eval (handler_of g) v = Ok tt.
Proof.
  unfold eval. destruct g as [| |book|num]; cbn [handler_of].
  - unfold on_page. by rewrite handlePrevChapter_unfold.
  - unfold on_page. by rewrite handleNextChapter_unfold.
  - done.
  - done.
Qed.

Lemma handlers_keep_books g v :
  books (ui (page (exec (handler_of g) v))) = books (ui (page v)).
Proof.
  unfold exec. destruct g as [| |book|num]; cbn [handler_of].
  - unfold on_page. rewrite handlePrevChapter_unfold. cbn [snd page].
    destruct (1 <? _); [done|]. destruct (currentBook _) as [cur|]; [|done].
    destruct (1 <? _); [|done]. by destruct (find _ _).
  - unfold on_page. rewrite handleNextChapter_unfold. cbn [snd page].
    destruct (currentBook _) as [cur|]; [|done]. destruct (_ <? _); [done|].
    destruct (_ <? _); [|done]. by destruct (find _ _).
  - done.
  - done.
Qed.

(** X15. While the book shown is the listed book of its serial number
    (between 1 and 66) and the chapter shown is one of its chapters: when
    the Next button moves the reader, the Prev button brings the reader
    back to the book and chapter shown before, and the other way round,
    within a book and across the boundary of two books, whatever the
    history and loading effects in between met; the book list is what it
    was. *)
Theorem next_then_prev ev1 ev2 v book :
  currentBook (ui (page v)) = Some book →
  find (λ x, SN x =? SN book) (books (ui (page v))) = Some book →
  1 ≤ SN book ≤ 66 →
  1 ≤ currentChapter (ui (page v)) ≤ ChapterNumber book →
  let there := exec (perform ev1 NextChapter) v in
  let back := exec (perform ev2 PrevChapter) there in
  let before := exec (perform ev1 PrevChapter) v in
  let again := exec (perform ev2 NextChapter) before in
  (position_shown (ui (page there)) ≠ position_shown (ui (page v)) →
   position_shown (ui (page back)) = position_shown (ui (page v))) ∧
  (position_shown (ui (page before)) ≠ position_shown (ui (page v)) →
   position_shown (ui (page again)) = position_shown (ui (page v))) ∧
  books (ui (page back)) = books (ui (page v)) ∧
  books (ui (page again)) = books (ui (page v)).
Proof.
  intros Hb Hlisted Hsn Hch there back before again.
  destruct (handlers_next_then_prev (page v) book Hb Hlisted Hsn Hch) as [Hnp Hpn].
  destruct (rendered_position ev1 (handler_of NextChapter) v (handler_of_returns _ _))
    as (_ & Pt & Bt & _).
  destruct (rendered_position ev2 (handler_of PrevChapter) there (handler_of_returns _ _))
    as (_ & Pb & Bb & _).
  destruct (rendered_position ev1 (handler_of PrevChapter) v (handler_of_returns _ _))
    as (_ & Pf & Bf & _).
  destruct (rendered_position ev2 (handler_of NextChapter) before (handler_of_returns _ _))
    as (_ & Pa & Ba & _).
  fold (perform ev1 NextChapter) in Pt, Bt. fold (perform ev2 PrevChapter) in Pb, Bb.
  fold (perform ev1 PrevChapter) in Pf, Bf. fold (perform ev2 NextChapter) in Pa, Ba.
  fold there in Pt, Bt, Pb, Bb. fold back in Pb, Bb.
  fold before in Pf, Bf, Pa, Ba. fold again in Pa, Ba.
  rewrite handlers_keep_books in Bt, Bb, Bf, Ba.
  assert (∀ (h : M app unit) u, page (exec (on_page h) u) = exec h (page u)) as Hpage.
  { intros h u. unfold exec, on_page. by destruct (h (page u)). }
  cbn [handler_of] in Pt, Pb, Pf, Pa. rewrite Hpage in Pt, Pb, Pf, Pa.
  split_and!.
  - intros Hmoved. rewrite Pb.
    rewrite (handlePrevChapter_cells (page there) (exec handleNextChapter (page v)));
      [| |done].
    + rewrite Hnp; [done|]. intros E. apply Hmoved. rewrite Pt. by rewrite E.
    + rewrite Bt. symmetry. rewrite <- Hpage. apply (handlers_keep_books NextChapter v).
  - intros Hmoved. rewrite Pa.
    rewrite (handleNextChapter_cells (page before) (exec handlePrevChapter (page v)));
      [| |done].
    + rewrite Hpn; [done|]. intros E. apply Hmoved. rewrite Pf. by rewrite E.
    + rewrite Bf. symmetry. rewrite <- Hpage. apply (handlers_keep_books PrevChapter v).
  - congruence.
  - congruence.
Qed.

Lemma next_then_prev_witness :
  let v := {| page := reading; panel := initial_panels |} in
  position_shown (ui (page (exec (perform calm PrevChapter)
                              (exec (perform calm NextChapter) v)))) = (Some genesis, 1).
Proof.
  intros v.
  refine (proj1 (next_then_prev calm calm v genesis _ _ _ _) _).
  - reflexivity.
  - reflexivity.
  - vm_compute. split; discriminate.
  - vm_compute. split; discriminate.
  - vm_compute. intros E. discriminate E.
Defined.

(** X16. When every listed book has at least one chapter and the chapter
    shown is a chapter of the book shown, it still is after the Prev
    button, the Next button, a press on a book of the open tab of the book
    panel and a press on a number of the chapter panel, each followed by
    the history and loading effects of the new position; none of them
    throws or changes the book list, whatever storage and the database
    do. *)
Theorem gestures_keep_chapter_in_book ev v g :
  Forall (λ b, 1 ≤ ChapterNumber b) (books (ui (page v))) →
  placed (ui (page v)) →
  offered v g →
  let v' := exec (perform ev g) v in
  eval (perform ev g) v = Ok tt ∧
  placed (ui (page v')) ∧
  books (ui (page v')) = books (ui (page v)).
Proof.
  intros Hbooks Hplaced Hoff v'.
  destruct (handlers_keep_chapter_in_book v g Hbooks Hplaced Hoff) as (Hp & Hbs & _).
  destruct (rendered_position ev (handler_of g) v (handler_of_returns _ _))
    as (Hret & Hpos & Hb & _).
  fold (perform ev g) in Hret, Hpos, Hb. fold v' in Hpos, Hb.
  split; [done|]. split; [|congruence].
  unfold placed, position_shown in *. injection Hpos as -> ->. done.
Qed.

Lemma gestures_keep_chapter_in_book_witness :
  placed (ui (page (exec (perform calm (PickChapter 7))
                      {| page := reading; panel := initial_panels |}))).
Proof.
  refine (proj1 (proj2 (gestures_keep_chapter_in_book calm
                   {| page := reading; panel := initial_panels |} (PickChapter 7) _ _ _))).
  - repeat constructor; vm_compute; discriminate.
  - vm_compute. split; discriminate.
  - exists genesis. split; [reflexivity|]. apply chapter_numbers_range.
    vm_compute. split; discriminate.
Defined.

(** X17. A footer button that is disabled would do nothing: with the Next
    flag not set [handleNextChapter] leaves the screen as it is, and so
    does [handlePrevChapter] with the Prev flag not set while a book is
    open. *)
Theorem disabled_footer_buttons a :
  (hasNext (ui a) = false → exec handleNextChapter a = a) ∧
  (hasPrev (ui a) = false → is_Some (currentBook (ui a)) → exec handlePrevChapter a = a).
Proof.
  split.
  - unfold hasNext, exec. rewrite handleNextChapter_unfold. cbn [snd].
    destruct (currentBook (ui a)) as [b|]; [|done].
    intros H. apply orb_false_iff in H as [-> ->]. done.
  - unfold hasPrev, exec. rewrite handlePrevChapter_unfold. cbn [snd].
    intros H [b Hb]. rewrite Hb in *.
    apply orb_false_iff in H as [-> ->]. done.
Qed.

(** *** The selection *)

Lemma exitSelectionMode_unfold a :
  exitSelectionMode a = (Ok tt, with_selection false [] a).
Proof. done. Qed.

Lemma onVersePress_unfold verse a :
  onVersePress verse a =
    (Ok tt,
     let sel := selectedVersesForAction (ui a) in
     if isSelectionMode (ui a) then
       if bool_decide (VerseSN verse ∈ sel) then
         match filter (λ sn, sn ≠ VerseSN verse) sel with
         | [] => with_selection false [] a
         | rest => with_selection true rest a
         end
       else with_selection true (sel ++ [VerseSN verse]) a
     else a).
Proof.
  unfold onVersePress, with_selection, exec, exitSelectionMode, setIsSelectionMode,
    setSelectedVersesForAction. run. unfold gets, modify.
  destruct a as [w [bs cb ch vs ld bt st tr hv rh sm sel al]]. cbn.
  destruct sm; [|done]. repeat case_bool_decide; cbn; try done.
  by destruct (filter _ sel).
Qed.

Lemma onVerseLongPress_unfold verse a :
  onVerseLongPress verse a =
    (Ok tt,
     if isSelectionMode (ui a) then exec (onVersePress verse) a
     else with_selection true [VerseSN verse] a).
Proof.
  unfold onVerseLongPress. run. unfold gets. cbn [fst snd].
  destruct (isSelectionMode (ui a)) eqn:Hm; cbn [negb].
  - unfold exec. by rewrite onVersePress_unfold.
  - done.
Qed.

Lemma handleHighlightSelected_selection ev a :
  ∃ data w', exec (handleHighlightSelected ev) a =
    with_selection false [] (exec (setHighlightedVerses data) {| sys := w'; ui := ui a |}).
Proof.
  unfold exec, handleHighlightSelected. run. unfold gets. cbn [ui sys fst snd].
  destruct (highlight_pass _ _ _) as [m ch].
  unfold persistHighlights, setHighlightedVerses, with_selection, exitSelectionMode,
    setIsSelectionMode, setSelectedVersesForAction, setItem, exec. run. unfold modify.
  destruct (setItem_ok ev); cbn; eexists _, _; reflexivity.
Qed.

Lemma selecting_with_selection mode sel a :
  NoDup sel → (mode = true ↔ sel ≠ []) → selecting (ui (with_selection mode sel a)).
Proof. intros. by split. Qed.

(** X18. Selection mode is on exactly while some verse is selected: this
    holds at the start and is kept by a press and a long press on a verse,
    by the highlight button and by the cancel button.  The list that stands
    for the Set of selected verses keeps each number once along the way. *)
Theorem selection_mode_tracks_selection a t :
  selecting (ui a) → selecting (ui (exec (handle_touch t) a)).
Proof.
  intros [Hnd Hmode].
  assert (∀ verse, selecting (ui (exec (onVersePress verse) a))) as Hpress.
  { intros verse. unfold exec. rewrite onVersePress_unfold. cbn [snd].
    destruct (isSelectionMode (ui a)) eqn:Hm; [|split; [done|by rewrite Hm]].
    case_bool_decide as Hin.
    - destruct (filter (λ sn, sn ≠ VerseSN verse) (selectedVersesForAction (ui a)))
        as [|x l] eqn:F.
      + apply selecting_with_selection; [constructor|done].
      + apply selecting_with_selection; [|done]. rewrite <- F. by apply NoDup_filter.
    - apply selecting_with_selection.
      + apply NoDup_app. split; [done|]. split; [|apply NoDup_singleton].
        intros x Hx Hx'. apply list_elem_of_singleton in Hx'. by subst.
      + split; [|done]. intros _ E. by apply app_eq_nil in E as [_ ?]. }
  destruct t as [verse|verse|ev|]; cbn [handle_touch].
  - apply Hpress.
  - unfold exec at 1. rewrite onVerseLongPress_unfold. cbn [snd].
    destruct (isSelectionMode (ui a)); [apply Hpress|].
    apply selecting_with_selection; [apply NoDup_singleton|done].
  - destruct (handleHighlightSelected_selection ev a) as (data & w' & ->).
    apply selecting_with_selection; [constructor|done].
  - unfold exec. rewrite exitSelectionMode_unfold.
    apply selecting_with_selection; [constructor|done].
Qed.

Lemma selection_mode_tracks_selection_witness :
  selecting (ui (exec (handle_touch (LongPress gen_1_1)) reading)).
Proof.
  apply selection_mode_tracks_selection. split; [constructor|]. vm_compute. split; done.
Defined.

Lemma with_selection_mode mode sel a : isSelectionMode (ui (with_selection mode sel a)) = mode.
Proof. done. Qed.

Lemma with_selection_selected mode sel a :
  selectedVersesForAction (ui (with_selection mode sel a)) = sel.
Proof. done. Qed.

Lemma with_selection_again mode sel mode' sel' a :
  with_selection mode sel (with_selection mode' sel' a) = with_selection mode sel a.
Proof. done. Qed.

Lemma with_selection_same a :
  with_selection (isSelectionMode (ui a)) (selectedVersesForAction (ui a)) a = a.
Proof. by destruct a as [w []]. Qed.

(** X19. In selection mode, pressing a verse twice keeps selection mode on
    and the same verses selected, unless the verse was the only one
    selected; when the verse was not selected, the screen is exactly what
    it was. *)
Theorem press_twice verse a :
  selecting (ui a) → isSelectionMode (ui a) = true →
  selectedVersesForAction (ui a) ≠ [VerseSN verse] →
  let a2 := exec (onVersePress verse) (exec (onVersePress verse) a) in
  isSelectionMode (ui a2) = true ∧
  selectedVersesForAction (ui a2) ≡ₚ selectedVersesForAction (ui a) ∧
  (VerseSN verse ∉ selectedVersesForAction (ui a) → a2 = a).
Proof.
  intros [Hnd Hmode] Hm Hne a2. unfold a2, exec. rewrite !onVersePress_unfold. cbn [snd].
  rewrite Hm. cbv zeta.
  pose proof (with_selection_same a) as Hsame. rewrite Hm in Hsame.
  set (sel := selectedVersesForAction (ui a)) in *.
  set (sn := VerseSN verse) in *.
  destruct (decide (sn ∈ sel)) as [Hin|Hin].
  - rewrite (bool_decide_eq_true_2 _ Hin).
    apply list_elem_of_split in Hin as (l1 & l2 & E).
    rewrite E in Hnd.
    apply NoDup_app in Hnd as (_ & Hd & Hnd2). apply NoDup_cons in Hnd2 as [Hd2 _].
    assert (filter (λ x, x ≠ sn) sel = l1 ++ l2) as F.
    { rewrite E, filter_app, filter_cons_False by tauto. rewrite !filter_all; [done| |].
      - apply Forall_forall. intros y Hy ->. done.
      - apply Forall_forall. intros y Hy ->. apply (Hd sn); [done|]. apply elem_of_cons. by left. }
    rewrite F.
    destruct (l1 ++ l2) as [|x l] eqn:E2.
    { exfalso. apply Hne. apply app_eq_nil in E2 as [-> ->]. done. }
    rewrite with_selection_mode, with_selection_selected, with_selection_again.
    rewrite <- E2. rewrite bool_decide_eq_false_2.
    2: { intros Hx. apply elem_of_app in Hx as [Hx|Hx]; [|done].
         apply (Hd sn); [done|]. apply elem_of_cons. by left. }
    rewrite with_selection_mode, with_selection_selected.
    split; [done|]. split; [|intros N; exfalso; apply N; rewrite E; apply elem_of_app;
                             right; apply elem_of_cons; by left].
    rewrite E, <- app_assoc. apply Permutation_app_head.
    symmetry. apply Permutation_cons_append.
  - rewrite (bool_decide_eq_false_2 _ Hin).
    rewrite with_selection_mode, with_selection_selected.
    rewrite bool_decide_eq_true_2 by (apply elem_of_app; right; by apply list_elem_of_singleton).
    rewrite filter_app, filter_cons_False, filter_nil, app_nil_r by tauto.
    rewrite filter_all by (apply Forall_forall; intros y Hy ->; done).
    destruct sel as [|x l] eqn:E; [by apply Hmode in Hm|].
    rewrite with_selection_again, with_selection_mode, with_selection_selected.
    split; [done|]. split; [done|]. intros _. exact Hsame.
Qed.

Lemma press_twice_witness :
  let a := exec (onVerseLongPress gen_1_1) reading in
  exec (onVersePress gen_1_2) (exec (onVersePress gen_1_2) a) = a.
Proof.
  intros a.
  apply (press_twice gen_1_2 a).
  - split; [apply NoDup_singleton|]. vm_compute. split; done.
  - reflexivity.
  - vm_compute. discriminate.
  - vm_compute. intros H. apply list_elem_of_singleton in H. discriminate H.
Defined.

(** *** Highlights in storage *)

Lemma set_flag_frame acc key k : k ≠ key → (set_flag acc key).1 !! k = acc.1 !! k.
Proof.
  intros Hne. unfold set_flag. destruct (unset acc.1 key); [|done].
  cbn. by rewrite lookup_insert_ne.
Qed.

Lemma set_flags_frame ks : ∀ acc k, k ∉ ks → (foldl set_flag acc ks).1 !! k = acc.1 !! k.
Proof.
  induction ks as [|key ks IH]; intros acc k Hk; [done|].
  apply not_elem_of_cons in Hk as [Hne Hk]. cbn [foldl].
  rewrite IH by done. by apply set_flag_frame.
Qed.

Lemma delete_all_frame ks : ∀ (m : gmap string json) k,
  k ∉ ks → foldl (λ st key, delete key st) m ks !! k = m !! k.
Proof.
  induction ks as [|key ks IH]; intros m k Hk; [done|].
  apply not_elem_of_cons in Hk as [Hne Hk]. cbn [foldl].
  rewrite IH by done. by rewrite lookup_delete_ne.
Qed.

Lemma handleHighlightSelected_storage ev a :
  let a' := exec (handleHighlightSelected ev) a in
  eval (handleHighlightSelected ev) a = Ok tt ∧
  isSelectionMode (ui a') = false ∧ selectedVersesForAction (ui a') = [] ∧
  (setItem_ok ev = true →
   AsyncStorage (sys a') !! HIGHLIGHT_STORAGE_KEY = Some (Doc (highlightedVerses (ui a')))) ∧
  (setItem_ok ev = false → sys a' = sys a).
Proof.
  unfold exec, eval, handleHighlightSelected. run. unfold gets. cbn [ui sys fst snd].
  destruct (highlight_pass _ _ _) as [m ch].
  unfold persistHighlights, setHighlightedVerses, exitSelectionMode,
    setIsSelectionMode, setSelectedVersesForAction, setItem, JSON_stringify. run.
  unfold modify.
  destruct (setItem_ok ev); cbn; repeat split; try done.
  intros _. by rewrite lookup_insert_eq.
Qed.

(** X20. The highlight button never throws and always ends selection
    mode with nothing selected; the flag of every key outside the selection
    is what it was; when the write is accepted storage holds the text of
    exactly the highlights shown, and when it is rejected storage is
    untouched. *)
Theorem handleHighlightSelected_persists ev a m :
  highlightedVerses (ui a) = JObj m →
  let ks := selected_keys (verses (ui a)) (selectedVersesForAction (ui a)) in
  let a' := exec (handleHighlightSelected ev) a in
  eval (handleHighlightSelected ev) a = Ok tt ∧
  isSelectionMode (ui a') = false ∧ selectedVersesForAction (ui a') = [] ∧
  (∃ m', highlightedVerses (ui a') = JObj m' ∧
         (∀ k, k ∉ ks → m' !! k = m !! k) ∧
         (setItem_ok ev = true →
          AsyncStorage (sys a') !! HIGHLIGHT_STORAGE_KEY = Some (Doc (JObj m')))) ∧
  (setItem_ok ev = false → sys a' = sys a).
Proof.
  intros Hm ks a'.
  destruct (handleHighlightSelected_storage ev a) as (H1 & H2 & H3 & H4 & H5).
  destruct (handleHighlightSelected_outcome ev a m Hm) as [Hh _].
  fold a' in H2, H3, H4, H5, Hh. fold ks in Hh.
  repeat split; try done.
  eexists. split; [exact Hh|]. split.
  - intros k Hk. destruct (foldl set_flag (m, false) ks).2.
    + by rewrite set_flags_frame.
    + rewrite delete_all_frame by done. by rewrite set_flags_frame.
  - intros Hset. by rewrite H4, Hh.
Qed.

Lemma handleHighlightSelected_persists_witness :
  let a := exec (onVerseLongPress gen_1_1) (exec (loadVerses calm 1 1) reading) in
  AsyncStorage (sys (exec (handleHighlightSelected calm) a)) !! HIGHLIGHT_STORAGE_KEY
    = Some (Doc (JObj {[ "1-1-1"%string := JBool true ]})).
Proof.
  intros a.
  assert (highlightedVerses (ui a) = JObj ∅) as Hm by (vm_compute; reflexivity).
  destruct (handleHighlightSelected_persists calm a ∅ Hm)
    as (_ & _ & _ & (m' & Hm' & _ & Hst) & _).
  rewrite (Hst eq_refl). f_equal. f_equal.
  vm_compute in Hm'. by injection Hm' as <-.
Defined.

(** X21. [persistHighlights] never throws and shows the new highlights at
    once.  When the write is accepted, a later launch whose storage is what
    it left finds the same highlights with [loadStoredData]; when the write
    is rejected nothing below the screen changes, so the highlights shown
    are not the stored ones. *)
Theorem highlights_survive_restart ev1 ev2 data a relaunched :
  let a1 := exec (persistHighlights ev1 data) a in
  eval (persistHighlights ev1 data) a = Ok tt ∧
  highlightedVerses (ui a1) = data ∧
  (setItem_ok ev1 = true → getItem_ok ev2 = true →
   AsyncStorage (sys relaunched) = AsyncStorage (sys a1) →
   highlightedVerses (ui (exec (loadStoredData ev2) relaunched)) = data) ∧
  (setItem_ok ev1 = false → sys a1 = sys a).
Proof.
  unfold exec, eval, persistHighlights, loadStoredData, setHighlightedVerses, setItem,
    getItem, JSON_stringify. run. unfold modify, gets.
  destruct (setItem_ok ev1); cbn; repeat split; try done.
  intros _ -> ->. cbn. rewrite lookup_insert_eq. done.
Qed.

(** *** The reading position across launches *)

Lemma recordVisit_cons e log : ∃ rest, recordVisit e log = e :: rest.
Proof. unfold recordVisit. by eexists. Qed.

Lemma init_preferred_entries ev a e rest :
  getItem_ok ev = true →
  holds_history (AsyncStorage (sys a)) (e :: rest) →
  init_preferred ev a =
    (Ok (Some (bookSN e), Some (chapter e)),
     exec (setReadingHistory (entry_json <$> e :: rest)) a).
Proof.
  intros Hget Hkv. unfold holds_history in Hkv.
  unfold init_preferred, exec, getItem, setReadingHistory. run. unfold gets, modify.
  rewrite Hget. cbn [fst snd sys].
  destruct (AsyncStorage (sys a) !! READING_HISTORY_KEY) as [t|]; [|done].
  subst t. done.
Qed.

(** X22. After the history effect has recorded the position (storage
    answers, a book is open, the chapter is not 0), a later launch whose
    storage is what the effect left reads that position back as the
    preferred one and shows the same history; and when [init] returns and
    the new book list has a book of that serial number, the screen opens
    at that book, at the recorded chapter or at the book's last chapter if
    that is smaller. *)
Theorem position_survives_restart ev1 ev2 a book log relaunched :
  storage_ok ev1 → getItem_ok ev2 = true →
  currentBook (ui a) = Some book → currentChapter (ui a) ≠ 0 →
  holds_history (AsyncStorage (sys a)) log →
  let a1 := exec (saveHistory ev1) a in
  AsyncStorage (sys relaunched) = AsyncStorage (sys a1) →
  eval (init_preferred ev2) relaunched =
    Ok (Some (SN book), Some (currentChapter (ui a))) ∧
  readingHistory (ui (exec (init_preferred ev2) relaunched)) = readingHistory (ui a1) ∧
  (SN book ≠ 0 →
   ∀ matched,
     returns (eval (init ev2) relaunched) = true →
     find (λ b, SN b =? SN book) (books (ui (exec (init ev2) relaunched))) = Some matched →
     currentBook (ui (exec (init ev2) relaunched)) = Some matched ∧
     currentChapter (ui (exec (init ev2) relaunched)) =
       Z.min (currentChapter (ui a)) (ChapterNumber matched)).
Proof.
  intros Hok Hget Hb Hch Hlog a1 Hsame.
  destruct (saveHistory_recordVisit ev1 a book log Hok Hb Hch Hlog) as [Hh Hkv].
  fold a1 in Hh, Hkv. rewrite <- Hsame in Hkv.
  destruct (recordVisit_cons (entry_of ev1 book (currentChapter (ui a))) log) as [rest E].
  rewrite E in Hh, Hkv.
  assert (init_preferred ev2 relaunched =
            (Ok (Some (SN book), Some (currentChapter (ui a))),
             exec (setReadingHistory (readingHistory (ui a1))) relaunched)) as Hinit.
  { rewrite Hh.
    exact (init_preferred_entries ev2 relaunched
             (entry_of ev1 book (currentChapter (ui a))) rest Hget Hkv). }
  unfold eval, exec at 1. rewrite Hinit. split; [done|]. split; [done|].
  intros Hsn matched Hret Hfind.
  unfold init, eval, exec in Hret, Hfind |- *. run. rewrite Hinit in Hret, Hfind |- *.
  cbn [fst snd] in Hret, Hfind |- *.
  set (b0 := exec (setReadingHistory (readingHistory (ui a1))) relaunched) in *.
  pose proof (loadBooks_outcome ev2 (SN book) (currentChapter (ui a)) b0 Hsn Hch) as O.
  destruct (loadBooks ev2 (Some (SN book)) (Some (currentChapter (ui a))) b0)
    as [[r|e] b1]; [|done].
  cbn [fst snd] in Hfind |- *. destruct O as [_ O]. rewrite Hfind in O.
  by destruct O as (_ & ? & ?).
Qed.

Lemma position_survives_restart_witness :
  eval (init_preferred calm) (exec (saveHistory calm) reading_psalms_5)
  = Ok (Some 19, Some 5).
Proof.
  refine (proj1 (position_survives_restart calm calm reading_psalms_5 psalms []
                   (exec (saveHistory calm) reading_psalms_5) _ _ _ _ _ _)).
  - split; reflexivity.
  - reflexivity.
  - reflexivity.
  - vm_compute. discriminate.
  - vm_compute. reflexivity.
  - reflexivity.
Defined.

Lemma pressHistoryItem_unfold item v :
  pressHistoryItem item v =
    (Ok tt,
     let a := page v in
     let a1 :=
       if bool_decide (SN <$> currentBook (ui a) ≠ Some (bookSN item)) then
         match find (λ b, SN b =? bookSN item) (books (ui a)) with
         | Some found => exec (setCurrentBook (Some found)) a
         | None => a
         end
       else a in
     exec (setShowHistoryModal false)
       {| page := exec (setCurrentChapter (chapter item)) a1; panel := panel v |}).
Proof.
  unfold pressHistoryItem, exec, setShowHistoryModal, setCurrentBook, setCurrentChapter.
  run_view. destruct v as [a p]. cbn [page panel fst snd].
  case_bool_decide; cbn; [|done].
  by destruct (find _ (books (ui a))).
Qed.

Lemma pressHistoryItem_returns item v : eval (pressHistoryItem item) v = Ok tt.
Proof. unfold eval. by rewrite pressHistoryItem_unfold. Qed.

(** What the [onPress] of a history entry does to the cells. *)
Lemma pressHistoryItem_cells item v :
  let v1 := exec (pressHistoryItem item) v in
  let s := ui (page v) in
  let s1 := ui (page v1) in
  currentChapter s1 = chapter item ∧
  showHistoryModal (panel v1) = false ∧
  books s1 = books s ∧
  (∀ found, find (λ b, SN b =? bookSN item) (books s) = Some found →
            SN <$> currentBook s1 = Some (bookSN item)) ∧
  (SN <$> currentBook s = Some (bookSN item) → currentBook s1 = currentBook s) ∧
  (find (λ b, SN b =? bookSN item) (books s) = None → currentBook s1 = currentBook s) ∧
  (position_shown s1 = position_shown s → page v1 = page v).
Proof.
  intros v1 s s1. unfold s1, v1, exec. rewrite pressHistoryItem_unfold. cbn [snd]. cbv zeta.
  fold s. unfold position_shown. case_bool_decide as Hne.
  - destruct (find _ (books s)) as [found|] eqn:F; cbn.
    + repeat split; try done.
      * apply find_some in F as [_ F]. intros _ [= <-]. cbn. f_equal. lia.
      * intros [= E1 E2]. subst s. destruct v as [[w []] p]. cbn in *. by subst.
    + repeat split; try done.
      intros [= E2]. subst s. destruct v as [[w []] p]. cbn in *. by subst.
  - repeat split; try done.
    intros [= E2]. subst s. destruct v as [[w []] p]. cbn in *. by subst.
Qed.

(** X23. A press on a history entry, with the effects that follow it,
    never throws, closes the history panel and shows the entry's chapter.
    The book shown afterwards has the entry's serial number when the book
    list has such a book or the book shown already had it; when the list
    has none, the book stays while the chapter still changes.  The book
    list is not touched.  When the position shown is not changed, as for
    the entry recorded for it, no effect runs and the page with everything
    below it is what it was. *)
Theorem pressHistoryItem_position ev item v :
  let v' := exec (rendered ev (pressHistoryItem item)) v in
  let s := ui (page v) in
  let s' := ui (page v') in
  eval (rendered ev (pressHistoryItem item)) v = Ok tt ∧
  currentChapter s' = chapter item ∧
  showHistoryModal (panel v') = false ∧
  books s' = books s ∧
  (∀ found, find (λ b, SN b =? bookSN item) (books s) = Some found →
            SN <$> currentBook s' = Some (bookSN item)) ∧
  (SN <$> currentBook s = Some (bookSN item) → currentBook s' = currentBook s) ∧
  (find (λ b, SN b =? bookSN item) (books s) = None → currentBook s' = currentBook s) ∧
  (position_shown s' = position_shown s → page v' = page v) ∧
  (∀ ev0 book, currentBook s = Some book →
               item = entry_of ev0 book (currentChapter s) → page v' = page v).
Proof.
  intros v' s s'.
  destruct (pressHistoryItem_cells item v) as (C1 & C2 & C3 & C4 & C5 & C6 & C7).
  destruct (rendered_position ev (pressHistoryItem item) v (pressHistoryItem_returns _ _))
    as (Hret & Hpos & Hb & Hpanel & Hsame).
  fold v' in Hpos, Hb, Hpanel, Hsame. fold s in C3, C4, C5, C6, C7, Hsame.
  fold s' in Hpos, Hb.
  set (s1 := ui (page (exec (pressHistoryItem item) v))) in *.
  assert (currentBook s' = currentBook s1 ∧ currentChapter s' = currentChapter s1)
    as [Eb Ec] by (unfold position_shown in Hpos; by injection Hpos).
  assert (position_shown s' = position_shown s → page v' = page v) as Hstill.
  { intros E. rewrite Hpos in E. rewrite (Hsame E). by apply C7. }
  split_and!; try done.
  - congruence.
  - congruence.
  - congruence.
  - intros found F. rewrite Eb. by apply (C4 found).
  - intros E. rewrite Eb. by apply C5.
  - intros F. rewrite Eb. by apply C6.
  - intros ev0 book Hbook ->. apply Hstill. unfold position_shown.
    rewrite Eb, Ec, C1, C5; [done|]. by rewrite Hbook.
Qed.

(** *** Copying the selection *)

Lemma sorted_numbers_ends (l : list Z) :
  StronglySorted Z.le l → l ≠ [] →
  hd 0 l ∈ l ∧ List.last l 0 ∈ l ∧ ∀ x, x ∈ l → hd 0 l ≤ x ≤ List.last l 0.
Proof.
  induction 1 as [|x l Hl IH Hx]; [done|]. intros _.
  rewrite Forall_forall in Hx. cbn [hd].
  destruct l as [|y l'].
  - cbn. split; [apply elem_of_cons; by left|]. split; [apply elem_of_cons; by left|].
    intros z Hz. apply list_elem_of_singleton in Hz. lia.
  - destruct IH as (Hhd & Hlast & Hall); [done|].
    change (List.last (x :: y :: l') 0) with (List.last (y :: l') 0).
    split; [apply elem_of_cons; by left|]. split; [apply elem_of_cons; by right|].
    intros z Hz. apply elem_of_cons in Hz as [->|Hz].
    + split; [lia|]. by apply Hx.
    + destruct (Hall z Hz). split; [by apply Hx|done].
Qed.

Lemma sorted_selection (sel : list Z) :
  let sorted := merge_sort Z.le sel in
  sorted ≡ₚ sel ∧ StronglySorted Z.le sorted.
Proof.
  split; [apply merge_sort_Permutation|apply (StronglySorted_merge_sort _)].
Qed.

Lemma handleCopySelected_unfold trim ok a :
  handleCopySelected trim ok a =
    match merge_sort Z.le (selectedVersesForAction (ui a)) with
    | [] => (Ok None, a)
    | sortedSNs =>
        if ok then
          (Ok (Some (formatted trim (ui a) sortedSNs)),
           exec (Alert "已复制";; exitSelectionMode) a)
        else (Ok None, exec (Alert "复制失败") a)
    end.
Proof.
  unfold handleCopySelected, exec, exitSelectionMode, setIsSelectionMode,
    setSelectedVersesForAction, Alert. run. unfold gets, modify. cbn [fst snd].
  destruct (merge_sort Z.le (selectedVersesForAction (ui a))) as [|x l]; [done|].
  by destruct ok.
Qed.

(** X24. With a selection that is not empty, the text [handleCopySelected]
    hands to the clipboard names in its reference the least and the
    greatest selected verse number (one number when one verse is
    selected), and it does not depend on the order in which the verses were
    selected; when the clipboard rejects the text, nothing is copied. *)
Theorem handleCopySelected_text trim a :
  selectedVersesForAction (ui a) ≠ [] →
  let sel := selectedVersesForAction (ui a) in
  ∃ lo hi,
    lo ∈ sel ∧ hi ∈ sel ∧ (∀ x, x ∈ sel → lo ≤ x ≤ hi) ∧
    eval (handleCopySelected trim true) a =
      Ok (Some (formatted trim (ui a)
                  (if bool_decide (length sel = 1%nat) then [lo] else [lo; hi]))) ∧
    eval (handleCopySelected trim false) a = Ok None ∧
    (∀ sel', sel' ≡ₚ sel →
       eval (handleCopySelected trim true) (exec (setSelectedVersesForAction sel') a) =
       eval (handleCopySelected trim true) a).
Proof.
  intros Hne sel. destruct (sorted_selection sel) as [Hperm Hsorted].
  set (sorted := merge_sort Z.le sel) in *.
  assert (sorted ≠ []) as Hne'.
  { intros E. rewrite E in Hperm. symmetry in Hperm. by apply Permutation_nil_r in Hperm. }
  destruct (sorted_numbers_ends sorted Hsorted Hne') as (Hhd & Hlast & Hall).
  exists (hd 0 sorted), (List.last sorted 0).
  split; [by rewrite <- Hperm|]. split; [by rewrite <- Hperm|].
  split; [intros x Hx; apply Hall; by rewrite Hperm|].
  assert (eval (handleCopySelected trim true) a = Ok (Some (formatted trim (ui a) sorted)))
    as Hcopy.
  { unfold eval. rewrite handleCopySelected_unfold. fold sel sorted.
    by destruct sorted. }
  split; [|split].
  - rewrite Hcopy. do 2 f_equal.
    assert (length sorted = length sel) as <- by (by rewrite Hperm).
    unfold formatted. destruct sorted as [|x [|y l]]; [done|done|].
    rewrite bool_decide_eq_false_2 by done. done.
  - unfold eval. rewrite handleCopySelected_unfold. fold sel sorted. by destruct sorted.
  - intros sel' Hp. rewrite Hcopy. unfold eval. rewrite handleCopySelected_unfold.
    assert (selectedVersesForAction (ui (exec (setSelectedVersesForAction sel') a)) = sel')
      as -> by done.
    assert (merge_sort Z.le sel' = sorted) as ->.
    { apply (Sorted_unique Z.le).
      - apply (Sorted_merge_sort _).
      - by apply StronglySorted_Sorted.
      - by rewrite merge_sort_Permutation, Hperm. }
    destruct sorted as [|x l] eqn:E; [done|]. cbn [fst]. do 2 f_equal.
    unfold formatted.
    assert (selectedVersesForAction (ui (exec (setSelectedVersesForAction sel') a)) = sel')
      as -> by done.
    assert (filter (λ v, VerseSN v ∈ sel') (verses (ui a))
            = filter (λ v, VerseSN v ∈ sel) (verses (ui a))) as Hf.
    { apply list_filter_iff. intros v. by rewrite Hp. }
    destruct a as [w []]. cbn in *. by rewrite Hf.
Qed.

Lemma handleCopySelected_text_witness :
  eval (handleCopySelected TRIM true) selecting_two =
    Ok (Some (formatted TRIM (ui selecting_two) [1; 2])) ∧
  eval (handleCopySelected TRIM false) selecting_two = Ok None.
Proof.
  destruct (handleCopySelected_text TRIM selecting_two) as (lo & hi & _ & _ & _ & H1 & H2 & _).
  - vm_compute. discriminate.
  - split; [|exact H2]. vm_compute. reflexivity.
Defined.

(** *** The web store's queries *)

Lemma web_initDB_outcome ev version w :
  let key := WebBible.version_key version in
  match WebBible.initDB ev version w with
  | (Ok _, w1) =>
      WebBible.served w1 = WebBible.served w ∧
      (∀ k d, WebBible.databases w !! k = Some d → WebBible.databases w1 !! k = Some d) ∧
      ((is_Some (WebBible.databases w !! key)
        ∨ WebBible.initPromises w !! key = Some WebBible.Fulfilled) ∧ w1 = w
       ∨ WebBible.databases w !! key = None ∧ WebBible.initPromises w !! key = None ∧
         WebBible.databases w1 =
           <[key := WebBible.served w (WebBible.DB_file version)]> (WebBible.databases w) ∧
         WebBible.initPromises w1 = <[key := WebBible.Fulfilled]> (WebBible.initPromises w) ∧
         WebBible.fetched w1 = WebBible.DB_file version :: WebBible.fetched w)
  | (Throw e, w1) =>
      WebBible.databases w1 = WebBible.databases w ∧
      WebBible.served w1 = WebBible.served w ∧
      WebBible.databases w !! key = None ∧
      WebBible.initPromises w1 !! key = Some (WebBible.Failed e) ∧
      (WebBible.initPromises w !! key = Some (WebBible.Failed e) → w1 = w)
  end.
Proof.
  intros key. unfold WebBible.initDB, WebBible.load. run. unfold gets, modify, id.
  cbn [fst snd]. fold key.
  destruct (WebBible.databases w !! key) as [d|] eqn:Hd; cbv beta iota.
  { split; [done|]. split; [done|]. left. split; [left; by eexists|done]. }
  destruct (WebBible.initPromises w !! key) as [[|e]|] eqn:Hp; cbv beta iota.
  { split; [done|]. split; [done|]. left. split; [by right|done]. }
  { done. }
  destruct (WebBible.initSqlJs_ok ev), (WebBible.fetch_ok ev), (WebBible.construct_ok ev);
    cbn; rewrite ?lookup_insert_eq; try done.
  split; [done|]. split.
  - intros k d Hk. destruct (decide (k = key)) as [->|Hne]; [congruence|].
    by rewrite lookup_insert_ne.
  - right. done.
Qed.

(** X25. The web store never retries a failed initialisation: once
    [initDB] has thrown for a translation, every later [initDB], [getBooks]
    and [getVerses] for that translation throws the same error and changes
    nothing, whatever the network does then. *)
Theorem web_initDB_failure_is_kept ev1 ev2 version w e w1 :
  WebBible.initDB ev1 version w = (Throw e, w1) →
  WebBible.initDB ev2 version w1 = (Throw e, w1) ∧
  WebBible.getBooks ev2 version w1 = (Throw e, w1) ∧
  (∀ bookId chapter, WebBible.getVerses ev2 bookId chapter version w1 = (Throw e, w1)).
Proof.
  intros H. pose proof (web_initDB_outcome ev1 version w) as O. rewrite H in O.
  destruct O as (Hd & _ & Hnone & Hp & _). rewrite <- Hd in Hnone.
  assert (WebBible.initDB ev2 version w1 = (Throw e, w1)) as Hagain.
  { unfold WebBible.initDB. run. unfold gets, id. cbn [fst snd]. by rewrite Hnone, Hp. }
  split; [done|]. split; [|intros bookId chapter].
  - unfold WebBible.getBooks. run. by rewrite Hagain.
  - unfold WebBible.getVerses. run. by rewrite Hagain.
Qed.

Lemma web_initDB_failure_is_kept_witness :
  eval (WebBible.getVerses web_calm 1 1 WebBible.web_cuv)
    (exec (WebBible.initDB offline WebBible.web_cuv) web_start)
  = Throw (Rejected "fetch").
Proof.
  destruct (web_initDB_failure_is_kept offline web_calm WebBible.web_cuv web_start
              (Rejected "fetch") (exec (WebBible.initDB offline WebBible.web_cuv) web_start))
    as (_ & _ & H); [reflexivity|].
  unfold eval. by rewrite H.
Defined.

(** X26. When the web [getVerses] has returned rows for a translation,
    asking again returns the same rows and changes nothing, so nothing more
    is fetched; the rows are what the translation's verse statement selects
    from the database the store keeps for it, which is the served file,
    fetched once, when the store had none. *)
Theorem web_getVerses_fetches_once ev1 ev2 version bookId chapter w rows w1 :
  WebBible.getVerses ev1 bookId chapter version w = (Ok rows, w1) →
  WebBible.getVerses ev2 bookId chapter version w1 = (Ok rows, w1) ∧
  (∃ d, WebBible.databases w1 !! WebBible.version_key version = Some d ∧
        run_verses (WebBible.verses_query version) d bookId chapter = Some rows ∧
        (WebBible.databases w !! WebBible.version_key version = None →
         d = WebBible.served w (WebBible.DB_file version) ∧
         WebBible.fetched w1 = WebBible.DB_file version :: WebBible.fetched w)) ∧
  (∀ b c, exec (WebBible.getVerses ev2 b c version) w1 = w1).
Proof.
  intros H. unfold WebBible.getVerses in H. run. unfold gets, id in H. cbn [fst snd] in H.
  pose proof (web_initDB_outcome ev1 version w) as O.
  destruct (WebBible.initDB ev1 version w) as [[[]|e] w0]; [|discriminate H].
  destruct (WebBible.databases w0 !! WebBible.version_key version) as [d|] eqn:Hd;
    [|discriminate H].
  destruct (run_verses _ d bookId chapter) as [rs|] eqn:Hr; [|discriminate H].
  injection H as <- <-.
  assert (∀ b c, WebBible.getVerses ev2 b c version w0 =
                 (match run_verses (WebBible.verses_query version) d b c with
                  | Some rows => Ok rows
                  | None => Throw (Error "no such table")
                  end, w0)) as Hq.
  { intros b c. unfold WebBible.getVerses, WebBible.initDB. run. unfold gets, id.
    cbn [fst snd]. rewrite Hd. cbn. rewrite Hd. by destruct (run_verses _ d b c). }
  split; [by rewrite Hq, Hr|]. split.
  - exists d. split; [done|]. split; [done|]. intros Hnone.
    destruct O as (_ & _ & [[[[? ?]|Hp] ->]|(_ & _ & Hdb & _ & Hf)]).
    + congruence.
    + congruence.
    + rewrite Hdb, lookup_insert_eq in Hd. by injection Hd as <-.
  - intros b c. unfold exec. by rewrite Hq.
Qed.

Lemma web_getVerses_fetches_once_witness :
  let w1 := exec (WebBible.getVerses web_calm 1 1 WebBible.web_cuv) web_start in
  eval (WebBible.getVerses web_calm 1 1 WebBible.web_cuv) w1 = Ok [gen_1_1; gen_1_2] ∧
  WebBible.fetched w1 = ["/bible_cuv.db"%string].
Proof.
  intros w1.
  destruct (web_getVerses_fetches_once web_calm web_calm WebBible.web_cuv 1 1 web_start
              [gen_1_1; gen_1_2] w1) as (H1 & (d & _ & _ & H2) & _).
  { vm_compute. reflexivity. }
  split.
  - unfold eval. by rewrite H1.
  - by destruct H2 as [_ ->].
Defined.

(** X27. The web store never drops or replaces a database it holds: what
    is held under a key before [initDB], [getBooks] or [getVerses] of any
    translation is held under that key afterwards. *)
Theorem web_databases_are_kept ev version w k d :
  WebBible.databases w !! k = Some d →
  WebBible.databases (exec (WebBible.initDB ev version) w) !! k = Some d ∧
  WebBible.databases (exec (WebBible.getBooks ev version) w) !! k = Some d ∧
  (∀ bookId chapter,
     WebBible.databases (exec (WebBible.getVerses ev bookId chapter version) w) !! k
       = Some d).
Proof.
  intros Hk.
  assert (WebBible.databases (exec (WebBible.initDB ev version) w) !! k = Some d) as Hinit.
  { unfold exec. pose proof (web_initDB_outcome ev version w) as O.
    destruct (WebBible.initDB ev version w) as [[[]|e] w1]; cbn [snd].
    - destruct O as (_ & Hkeep & _). by apply Hkeep.
    - destruct O as (-> & _). done. }
  split; [done|]. unfold exec in *. split; [|intros bookId chapter].
  - unfold WebBible.getBooks. run. unfold gets, id.
    destruct (WebBible.initDB ev version w) as [[[]|e] w1]; cbn [fst snd] in *; [|done].
    destruct (WebBible.databases w1 !! WebBible.version_key version); [|done].
    by destruct (run_books _ _).
  - unfold WebBible.getVerses. run. unfold gets, id.
    destruct (WebBible.initDB ev version w) as [[[]|e] w1]; cbn [fst snd] in *; [|done].
    destruct (WebBible.databases w1 !! WebBible.version_key version); [|done].
    by destruct (run_verses _ _ _ _).
Qed.

Lemma web_databases_are_kept_witness :
  let w := exec (WebBible.getBooks web_calm WebBible.web_cuv) web_start in
  WebBible.databases (exec (WebBible.getBooks web_calm WebBible.web_asv) w) !! "cuv"%string
    = Some cuv_db.
Proof.
  intros w.
  apply (web_databases_are_kept web_calm WebBible.web_asv w "cuv" cuv_db).
  vm_compute. reflexivity.
Defined.

(** *** Loading a chapter *)

(** X28. [loadVerses] never throws and always ends with the loading flag
    cleared.  It shows the rows [getVerses] returned; when [getVerses]
    throws, the verses that were on the screen stay.  The book, the chapter
    and the highlights are not touched, and the store is left as
    [getVerses] leaves it. *)
Theorem loadVerses_outcome ev bookId chapter a :
  let a' := exec (loadVerses ev bookId chapter) a in
  eval (loadVerses ev bookId chapter) a = Ok tt ∧
  loading (ui a') = false ∧
  currentBook (ui a') = currentBook (ui a) ∧
  currentChapter (ui a') = currentChapter (ui a) ∧
  highlightedVerses (ui a') = highlightedVerses (ui a) ∧
  sys a' = exec (getVerses ev bookId chapter) (sys a) ∧
  match eval (getVerses ev bookId chapter) (sys a) with
  | Ok rows => verses (ui a') = rows
  | Throw _ => verses (ui a') = verses (ui a)
  end.
Proof.
  unfold exec, eval, loadVerses, setLoading, setVerses. run. unfold modify.
  cbn [fst snd sys ui].
  destruct (getVerses ev bookId chapter (sys a)) as [[rows|e] w']; cbn; done.
Qed.
